(** * decaf: blobs, layers, nets and the puff record store

    A shallow embedding of [src/base.py] and [src/decaf/puff.py].

    Python objects are mutable and shared, and every call may raise.  The
    embedding therefore passes the mutated object back explicitly, also on
    the exceptional path: a method [m(self, x)] becomes a function from
    [self] (and the memory it touches) to a result paired with the new
    [self].  numpy arrays are views on buffers that live in a heap, so that
    two blobs mirroring each other really share their contents. *)

From stdpp Require Import gmap strings list fin_maps.
From Stdlib Require Import ZArith Lia.

(** ** Python results *)

Module Py.

(** The exceptions the modelled code raises, by class.  [InvalidNetError]
    and [DecafError] carry their message. *)
Inductive exn : Type :=
| TypeError
| ValueError
| AttributeError
| KeyError
| IndexError
| IOError
| RuntimeError
| DecafError (msg : string)
| InvalidNetError (msg : string).

Inductive res (A : Type) : Type :=
| Ok (a : A)
| Raise (e : exn).
Arguments Ok {A} a.
Arguments Raise {A} e.

Definition bind {A B} (r : res A) (k : A → res B) : res B :=
  match r with
  | Ok a => k a
  | Raise e => Raise e
  end.

Definition is_ok {A} (r : res A) : bool :=
  match r with Ok _ => true | Raise _ => false end.

End Py.
Import Py.

Notation "x ←! r ; k" := (Py.bind r (λ x, k))
  (at level 20, r at level 100, k at level 200, right associativity,
   format "x  ←!  r ;  '/' k").

(** ** numpy arrays *)

(** Element types.  The code compares them for equality; numpy casts
    between them in the operations in place. *)
Inductive dtype : Type := float32 | float64 | int32 | int64.

#[global] Instance dtype_eq_dec : EqDecision dtype.
Proof. solve_decision. Defined.

(** numpy's kinds of element types, as far as casting goes. *)
Definition is_float (dt : dtype) : bool :=
  match dt with
  | float32 | float64 => true
  | int32 | int64 => false
  end.

(** [np.result_type] of two arrays: the type an operation on them computes
    in. *)
Definition result_type (da db : dtype) : dtype :=
  match da, db with
  | float64, _ | _, float64 => float64
  | float32, float32 => float32
  | float32, _ | _, float32 => float64
  | int64, _ | _, int64 => int64
  | int32, int32 => int32
  end.

(** [np.can_cast(from, to, 'same_kind')]: within a kind, or from integers
    to floating point; a floating-point type is not cast to an integer
    type. *)
Definition can_cast_same_kind (from to : dtype) : bool :=
  negb (is_float from) || is_float to.

(** [a op= b] computes in [result_type] and has to cast the result into
    the type of [a]. *)
Definition inplace_cast_ok (da db : dtype) : bool :=
  can_cast_same_kind (result_type da db) da.

(** The arithmetic of array elements.  An in-place operation computes in
    the element type of the array it writes, so the operations are indexed
    by that dtype. *)
Class Arith (Elt : Type) : Type := {
  zero : dtype → Elt;
  add : dtype → Elt → Elt → Elt;
  sub : dtype → Elt → Elt → Elt;
}.

(** An [ndarray] object is a view: the buffer it reads and writes, and its
    own shape and dtype.  [a.view()] is a new object on the same buffer. *)
Record ndarray : Type := {
  base : nat;
  shape : list nat;
  adtype : dtype;
}.

#[global] Instance ndarray_eq_dec : EqDecision ndarray.
Proof. solve_decision. Defined.

(** Number of elements of an array of the given shape. *)
Definition prod_shape (s : list nat) : nat := foldr Nat.mul 1 s.

Definition view (a : ndarray) : ndarray :=
  {| base := base a; shape := shape a; adtype := adtype a |}.

Definition with_shape (a : ndarray) (s : list nat) : ndarray :=
  {| base := base a; shape := s; adtype := adtype a |}.

(** [a.shape = s]: refused when the number of elements changes. *)
Definition set_shape (a : ndarray) (s : list nat) : res ndarray :=
  if decide (prod_shape s = prod_shape (shape a))
  then Ok (with_shape a s) else Raise ValueError.

(** [n] consecutive chunks of [k] elements. *)
Fixpoint chunks {A} (k n : nat) (v : list A) : list (list A) :=
  match n with
  | 0 => []
  | S n' => take k v :: chunks k n' (drop k v)
  end.

(** Broadcasting the contents [vb] of an array of shape [sb] to the shape
    [sa] of the same rank: along every axis the lengths agree, or the
    source has length 1 and is repeated. *)
Fixpoint bcast_aligned {A} (sa sb : list nat) (vb : list A)
  : option (list A) :=
  match sa, sb with
  | [], [] => Some vb
  | da :: sa', db :: sb' =>
      if decide (db = da)
      then
        match mapM (bcast_aligned sa' sb') (chunks (prod_shape sb') db vb) with
        | Some rows => Some (concat rows)
        | None => None
        end
      else if decide (db = 1)
      then
        match bcast_aligned sa' sb' vb with
        | Some row => Some (concat (replicate da row))
        | None => None
        end
      else None
  | _, _ => None
  end.

(** Broadcasting into an output operand of shape [sa]: the source shape is
    padded with leading 1s; a source of higher rank never fits. *)
Definition broadcast_to {A} (sa sb : list nat) (vb : list A)
  : option (list A) :=
  if decide (length sb ≤ length sa)
  then bcast_aligned sa (replicate (length sa - length sb) 1 ++ sb) vb
  else None.

(** Buffers, addressed by their index. *)
Definition heap (Elt : Type) : Type := list (list Elt).

Section Heap.
Context {Elt : Type} `{Arith Elt}.

Definition contents (h : heap Elt) (a : ndarray) : list Elt :=
  default [] (h !! base a).

(** [np.zeros(shape, dtype)]: a fresh buffer. *)
Definition np_zeros (s : list nat) (dt : dtype) (h : heap Elt) : ndarray * heap Elt :=
  ({| base := length h; shape := s; adtype := dt |},
   h ++ [replicate (prod_shape s) (zero dt)]).

(** [a[:] = 0]: every holder of the buffer sees the zeros. *)
Definition fill_zero (a : ndarray) (h : heap Elt) : heap Elt :=
  <[base a := replicate (length (contents h a)) (zero (adtype a))]> h.

(** [a op= b] for an elementwise [op].  The types are resolved first: a
    result that cannot be cast into the type of [a] is a [TypeError].
    Then [b] is broadcast to the shape of [a], and the result is written
    into the buffer of [a]. *)
Definition inplace (op : dtype → Elt → Elt → Elt) (a b : ndarray) (h : heap Elt)
  : res (heap Elt) :=
  if inplace_cast_ok (adtype a) (adtype b) then
    match broadcast_to (shape a) (shape b) (contents h b) with
    | Some vb => Ok (<[base a := zip_with (op (adtype a)) (contents h a) vb]> h)
    | None => Raise ValueError
    end
  else Raise TypeError.

Definition isub := inplace sub.
Definition iadd := inplace add.

End Heap.

(** ** Blob *)

(** A filler is an object with a [fill(mat)] method; it is named by an
    identifier and [fill] gives what it writes into the buffer of [mat]. *)
Definition filler : Type := nat.

Class Fillers (Elt : Type) : Type := {
  fill : filler → list nat → dtype → list Elt → list Elt;
}.

(** The fields of a [Blob] object.  [_data] and [_diff] hold array objects,
    [None] when absent. *)
Record Blob : Type := {
  _data : option ndarray;
  _diff : option ndarray;
  _filler : option filler;
}.

(** What [mirror] and [mirror_diff] are given: a blob or an array. *)
Inductive mirror_source : Type :=
| SrcBlob (b : Blob)
| SrcArray (a : ndarray).

Definition set_data (v : option ndarray) (self : Blob) : Blob :=
  {| _data := v; _diff := _diff self; _filler := _filler self |}.

Definition set_diff (v : option ndarray) (self : Blob) : Blob :=
  {| _data := _data self; _diff := v; _filler := _filler self |}.

(** [Blob(filler=f)] without a shape. *)
Definition new_blob (f : option filler) : Blob :=
  {| _data := None; _diff := None; _filler := f |}.

Definition clear (self : Blob) : Blob :=
  set_diff None (set_data None self).

Definition has_data (self : Blob) : bool := bool_decide (is_Some (_data self)).
Definition has_diff (self : Blob) : bool := bool_decide (is_Some (_diff self)).

(** [self._data.view()]: an attribute error on [None]. *)
Definition data (self : Blob) : res ndarray :=
  match _data self with
  | Some a => Ok (view a)
  | None => Raise AttributeError
  end.

Definition diff (self : Blob) : res ndarray :=
  match _diff self with
  | Some a => Ok (view a)
  | None => Raise AttributeError
  end.

(** [mirror]: the field is rebound first, the shape of the new view is set
    afterwards, so a refused shape leaves the blob rebound. *)
Definition mirror (self : Blob) (input_array : mirror_source)
    (shp : option (list nat)) : res unit * Blob :=
  match (match input_array with
         | SrcBlob b => data b
         | SrcArray a => Ok (view a)
         end) with
  | Raise e => (Raise e, self)
  | Ok v =>
      match shp with
      | None => (Ok tt, set_data (Some v) self)
      | Some s =>
          match set_shape v s with
          | Ok v' => (Ok tt, set_data (Some v') self)
          | Raise e => (Raise e, set_data (Some v) self)
          end
      end
  end.

Definition mirror_diff (self : Blob) (input_array : mirror_source)
    (shp : option (list nat)) : res unit * Blob :=
  match (match input_array with
         | SrcBlob b => diff b
         | SrcArray a => Ok (view a)
         end) with
  | Raise e => (Raise e, self)
  | Ok v =>
      match shp with
      | None => (Ok tt, set_diff (Some v) self)
      | Some s =>
          match set_shape v s with
          | Ok v' => (Ok tt, set_diff (Some v') self)
          | Raise e => (Raise e, set_diff (Some v) self)
          end
      end
  end.

Section BlobMethods.
Context {Elt : Type} `{Arith Elt} `{Fillers Elt}.

(** [self._data -= self._diff].  The augmented assignment rebinds [_data]
    to the array it already held.  A missing operand is a type error, and
    so is a gradient whose type cannot be cast into the value's. *)
Definition update (self : Blob) (h : heap Elt) : res unit * Blob * heap Elt :=
  match _data self, _diff self with
  | Some d, Some g =>
      match isub d g h with
      | Ok h' => (Ok tt, set_data (Some d) self, h')
      | Raise e => (Raise e, self, h)
      end
  | _, _ => (Raise TypeError, self, h)
  end.

Definition apply_filler (self : Blob) (a : ndarray) (h : heap Elt) : heap Elt :=
  match _filler self with
  | Some f => <[base a := fill f (shape a) (adtype a) (contents h a)]> h
  | None => h
  end.

(** [init_data(shape, dtype)]: zero in place when the array already has
    that shape and dtype, a new array otherwise; [_diff] is not touched. *)
Definition init_data (self : Blob) (s : list nat) (dt : dtype) (h : heap Elt)
  : ndarray * Blob * heap Elt :=
  match _data self with
  | Some d =>
      if decide (shape d = s ∧ adtype d = dt)
      then (view d, self, apply_filler self d (fill_zero d h))
      else
        let '(a, h1) := np_zeros s dt h in
        (view a, set_data (Some a) self, apply_filler self a h1)
  | None =>
      let '(a, h1) := np_zeros s dt h in
      (view a, set_data (Some a) self, apply_filler self a h1)
  end.

(** [init_diff()]: fails without data; zero in place when the gradient
    already has the shape and dtype of the data, a new array otherwise. *)
Definition init_diff (self : Blob) (h : heap Elt) : res ndarray * Blob * heap Elt :=
  match _data self with
  | None => (Raise ValueError, self, h)
  | Some d =>
      match _diff self with
      | Some g =>
          if decide (shape g = shape d ∧ adtype g = adtype d)
          then (Ok (view g), self, fill_zero g h)
          else
            let '(a, h1) := np_zeros (shape d) (adtype d) h in
            (Ok (view a), set_diff (Some a) self, h1)
      | None =>
          let '(a, h1) := np_zeros (shape d) (adtype d) h in
          (Ok (view a), set_diff (Some a) self, h1)
      end
  end.

(** [Blob(shape, dtype, filler)]. *)
Definition Blob_init (s : option (list nat)) (dt : dtype) (f : option filler)
    (h : heap Elt) : Blob * heap Elt :=
  match s with
  | None => (new_blob f, h)
  | Some s => let '(_, b, h') := init_data (new_blob f) s dt h in (b, h')
  end.

(** The invariant the data model states: a gradient, when present, has the
    shape and dtype of the value. *)
Definition grad_matches (b : Blob) : Prop :=
  match _diff b with
  | None => True
  | Some g =>
      match _data b with
      | Some d => shape g = shape d ∧ adtype g = adtype d
      | None => False
      end
  end.

#[global] Instance grad_matches_dec b : Decision (grad_matches b).
Proof. unfold grad_matches. destruct (_diff b), (_data b); apply _. Defined.

(** An array whose buffer holds exactly the elements of its shape. *)
Definition well_sized (h : heap Elt) (a : ndarray) : Prop :=
  length (contents h a) = prod_shape (shape a).

End BlobMethods.

(** ** Layers that live in [base.py] *)

(** Python floats as far as the engine uses them: the constant [0.] and
    [+]. *)
Class LossNum (Loss : Type) : Type := {
  loss0 : Loss;
  loss_add : Loss → Loss → Loss;
}.

(** Blob objects are mutable and passed around by reference: a layer gets
    lists of references into the object store. *)
Record mem (Elt : Type) : Type := {
  objs : list Blob;
  bufs : heap Elt;
}.
Arguments objs {Elt} m.
Arguments bufs {Elt} m.

Section SplitLayer.
Context {Elt : Type} `{Arith Elt} `{Fillers Elt}.
Context {Loss : Type} `{LossNum Loss}.

(** The object behind a reference.  References handed out by Python always
    point to an object; an index outside the store reads as a fresh blob. *)
Definition deref (m : mem Elt) (r : nat) : Blob :=
  default (new_blob None) (objs m !! r).

Definition store (r : nat) (b : Blob) (h : heap Elt) (m : mem Elt) : mem Elt :=
  {| objs := <[r := b]> (objs m); bufs := h |}.

(** [for output in top: output.mirror(bottom[0])] *)
Fixpoint mirror_tops (b0 : nat) (top : list nat) (m : mem Elt)
  : res unit * mem Elt :=
  match top with
  | [] => (Ok tt, m)
  | t :: rest =>
      match mirror (deref m t) (SrcBlob (deref m b0)) None with
      | (Ok _, b') => mirror_tops b0 rest (store t b' (bufs m) m)
      | (Raise e, b') => (Raise e, store t b' (bufs m) m)
      end
  end.

Definition split_forward (bottom top : list nat) (m : mem Elt)
  : res unit * mem Elt :=
  match bottom with
  | [b0] => mirror_tops b0 top m
  | _ => (Raise ValueError, m)
  end.

(** [for single_top in top: diff[:] += single_top.diff()] where [dv] is
    the view [diff] on the gradient of the bottom blob. *)
Fixpoint add_tops (dv : ndarray) (top : list nat) (m : mem Elt)
  : res unit * mem Elt :=
  match top with
  | [] => (Ok tt, m)
  | t :: rest =>
      match diff (deref m t) with
      | Raise e => (Raise e, m)
      | Ok gt =>
          match iadd dv gt (bufs m) with
          | Raise e => (Raise e, m)
          | Ok h' => add_tops dv rest {| objs := objs m; bufs := h' |}
          end
      end
  end.

Definition split_backward (bottom top : list nat) (propagate_down : bool)
    (m : mem Elt) : res Loss * mem Elt :=
  if propagate_down then
    match bottom with
    | [] => (Raise IndexError, m)
    | b0 :: _ =>
        let '(r, b', h') := init_diff (deref m b0) (bufs m) in
        let m1 := store b0 b' h' m in
        match r with
        | Raise e => (Raise e, m1)
        | Ok dv =>
            match add_tops dv top m1 with
            | (Ok _, m2) => (Ok loss0, m2)
            | (Raise e, m2) => (Raise e, m2)
            end
        end
    end
  else (Ok loss0, m).

(** The contents of the gradient a top blob holds. *)
Definition top_grad (m : mem Elt) (t : nat) : list Elt :=
  match _diff (deref m t) with
  | Some g => contents (bufs m) g
  | None => []
  end.

(** Elementwise sum, in the order of the list, onto zeros. *)
Definition sum_grads (dt : dtype) (n : nat) (gs : list (list Elt)) : list Elt :=
  foldl (λ acc g, zip_with (add dt) acc g) (replicate n (zero dt)) gs.

End SplitLayer.

(** ** Concrete instances, for evaluating the model *)

(** Integer elements, the same arithmetic for every dtype. *)
#[global] Instance Z_arith : Arith Z := {|
  zero := λ _, 0%Z;
  add := λ _, Z.add;
  sub := λ _, Z.sub;
|}.

(** Filler [k] writes the constant [k] everywhere. *)
#[global] Instance Z_fillers : Fillers Z := {|
  fill := λ f _ _ v, replicate (length v) (Z.of_nat f);
|}.

#[global] Instance Z_loss : LossNum Z := {|
  loss0 := 0%Z;
  loss_add := Z.add;
|}.

(** A blob of three elements with its gradient: [Blob((3,))] followed by
    [init_diff()]. *)
Definition blob_3 : Blob * heap Z :=
  let '(b0, h0) := Blob_init (Some [3]) float64 None [] in
  let '(_, b1, h1) := init_diff b0 h0 in (b1, h1).

(** The same blob after [init_data((2,))]: the value has been reallocated,
    the gradient still has three elements. *)
Definition blob_stale : Blob * heap Z :=
  let '(_, b2, h2) := init_data blob_3.1 [2] float64 blob_3.2 in (b2, h2).

(** [blob_3] with some numbers in its two buffers. *)
Definition blob_3_loaded : Blob * heap Z :=
  (blob_3.1, [[5; 7; 9]; [1; 2; 3]]%Z).

(** A blob whose value is an [int32] array and whose gradient is a
    [float64] array of the same shape, as [mirror] and [mirror_diff] leave
    it when given such arrays. *)
Definition blob_int_value : Blob * heap Z :=
  ({| _data := Some {| base := 0; shape := [2]; adtype := int32 |};
      _diff := Some {| base := 1; shape := [2]; adtype := float64 |};
      _filler := None |},
   [[5; 7]; [1; 2]]%Z).

(** An array of two elements handed to [mirror] / [mirror_diff]. *)
Definition arr2 : ndarray := {| base := 0; shape := [2]; adtype := float64 |}.

(** A split layer's blobs: a bottom of two elements and two tops that
    hold gradients in buffers of their own. *)
Definition split_mem : mem Z := {|
  objs := [ {| _data := Some {| base := 0; shape := [2]; adtype := float64 |};
               _diff := None; _filler := None |};
            {| _data := Some {| base := 0; shape := [2]; adtype := float64 |};
               _diff := Some {| base := 1; shape := [2]; adtype := float64 |};
               _filler := None |};
            {| _data := Some {| base := 0; shape := [2]; adtype := float64 |};
               _diff := Some {| base := 2; shape := [2]; adtype := float64 |};
               _filler := None |} ];
  bufs := [[1; 2]; [10; 20]; [3; 4]]%Z;
|}.

(** The same bottom with one top that mirrors its data and has not
    received a gradient: the state right after [split_forward]. *)
Definition split_mem_no_grad : mem Z :=
  (split_forward [0] [1]
     {| objs := [ {| _data := Some {| base := 0; shape := [2]; adtype := float64 |};
                     _diff := None; _filler := None |};
                  new_blob None ];
        bufs := [[1; 2]]%Z |}).2.

(** ** The dependency graph (networkx's DiGraph) *)

(** What the engine uses of [nx.DiGraph]: nodes with their attribute
    dictionaries, directed edges, [add_edge] and [predecessors]. *)
Record DiGraph : Type := {
  node : gmap string (gmap string bool);
  edges : list (string * string);
}.

Definition empty_graph : DiGraph := {| node := ∅; edges := [] |}.

Definition add_node (u : string) (g : DiGraph) : DiGraph :=
  match node g !! u with
  | Some _ => g
  | None => {| node := <[u := ∅]> (node g); edges := edges g |}
  end.

(** [g.add_edge(u, v)] adds missing end points; an edge is kept once. *)
Definition add_edge (u v : string) (g : DiGraph) : DiGraph :=
  let g := add_node v (add_node u g) in
  if decide ((u, v) ∈ edges g) then g
  else {| node := node g; edges := edges g ++ [(u, v)] |}.

Definition predecessors (g : DiGraph) (n : string) : list string :=
  (filter (λ e, e.2 = n) (edges g)).*1.

(** [g.node[n][key]] *)
Definition get_attr (g : DiGraph) (n key : string) : res bool :=
  match node g !! n with
  | Some attrs =>
      match attrs !! key with
      | Some v => Ok v
      | None => Raise KeyError
      end
  | None => Raise KeyError
  end.

(** [g.node[n][key] = v] *)
Definition set_attr (g : DiGraph) (n key : string) (v : bool) : res DiGraph :=
  match node g !! n with
  | Some attrs =>
      Ok {| node := <[n := <[key := v]> attrs]> (node g); edges := edges g |}
  | None => Raise KeyError
  end.

(** ** Layer and Net *)

(** The fields of a [Layer] the engine reads. *)
Record Layer : Type := {
  name : string;
  freeze : bool;
  _param : list Blob;
}.

(** [layer.param()] *)
Definition param (layer : Layer) : list Blob := _param layer.

(** An entry of [_forward_order]: the layer and the blobs bound to it.  A
    blob object of the net is referred to by its name: [self.blobs] never
    rebinds a name. *)
Record fentry : Type := {
  f_name : string;
  f_layer : Layer;
  f_bottom : list string;
  f_top : list string;
}.

Record bentry : Type := {
  b_name : string;
  b_layer : Layer;
  b_bottom : list string;
  b_top : list string;
  b_propagate_down : bool;
}.

Record Net : Type := {
  net_name : string;
  _graph : DiGraph;
  blobs : gmap string Blob;
  layers : gmap string Layer;
  _needs : gmap string (list string);
  _provides : gmap string (list string);
  _need_count : gmap string nat;
  _forward_order : option (list fentry);
  _backward_order : option (list bentry);
  _input_blobs : option (list string);
  _output_blobs : option (list string);
  _params : option (list Blob);
  _finished : bool;
  _actual_needs : option (gmap string (list string));
}.

(** [Net(name)] *)
Definition new_net (nm : string) : Net := {|
  net_name := nm;
  _graph := empty_graph;
  blobs := ∅;
  layers := ∅;
  _needs := ∅;
  _provides := ∅;
  _need_count := ∅;
  _forward_order := None;
  _backward_order := None;
  _input_blobs := None;
  _output_blobs := None;
  _params := None;
  _finished := false;
  _actual_needs := None;
|}.

(** Assignments to the fields of [self]. *)
Definition set_graph (v : DiGraph) (self : Net) : Net :=
  {| net_name := net_name self; _graph := v; blobs := blobs self;
     layers := layers self; _needs := _needs self;
     _provides := _provides self; _need_count := _need_count self;
     _forward_order := _forward_order self;
     _backward_order := _backward_order self;
     _input_blobs := _input_blobs self; _output_blobs := _output_blobs self;
     _params := _params self; _finished := _finished self;
     _actual_needs := _actual_needs self |}.

Definition set_blobs (v : gmap string Blob) (self : Net) : Net :=
  {| net_name := net_name self; _graph := _graph self; blobs := v;
     layers := layers self; _needs := _needs self;
     _provides := _provides self; _need_count := _need_count self;
     _forward_order := _forward_order self;
     _backward_order := _backward_order self;
     _input_blobs := _input_blobs self; _output_blobs := _output_blobs self;
     _params := _params self; _finished := _finished self;
     _actual_needs := _actual_needs self |}.

Definition set_layers (v : gmap string Layer) (self : Net) : Net :=
  {| net_name := net_name self; _graph := _graph self; blobs := blobs self;
     layers := v; _needs := _needs self; _provides := _provides self;
     _need_count := _need_count self; _forward_order := _forward_order self;
     _backward_order := _backward_order self;
     _input_blobs := _input_blobs self; _output_blobs := _output_blobs self;
     _params := _params self; _finished := _finished self;
     _actual_needs := _actual_needs self |}.

Definition set_needs (v : gmap string (list string)) (self : Net) : Net :=
  {| net_name := net_name self; _graph := _graph self; blobs := blobs self;
     layers := layers self; _needs := v; _provides := _provides self;
     _need_count := _need_count self; _forward_order := _forward_order self;
     _backward_order := _backward_order self;
     _input_blobs := _input_blobs self; _output_blobs := _output_blobs self;
     _params := _params self; _finished := _finished self;
     _actual_needs := _actual_needs self |}.

Definition set_provides (v : gmap string (list string)) (self : Net) : Net :=
  {| net_name := net_name self; _graph := _graph self; blobs := blobs self;
     layers := layers self; _needs := _needs self; _provides := v;
     _need_count := _need_count self; _forward_order := _forward_order self;
     _backward_order := _backward_order self;
     _input_blobs := _input_blobs self; _output_blobs := _output_blobs self;
     _params := _params self; _finished := _finished self;
     _actual_needs := _actual_needs self |}.

Definition set_need_count (v : gmap string nat) (self : Net) : Net :=
  {| net_name := net_name self; _graph := _graph self; blobs := blobs self;
     layers := layers self; _needs := _needs self;
     _provides := _provides self; _need_count := v;
     _forward_order := _forward_order self;
     _backward_order := _backward_order self;
     _input_blobs := _input_blobs self; _output_blobs := _output_blobs self;
     _params := _params self; _finished := _finished self;
     _actual_needs := _actual_needs self |}.

Definition set_forward_order (v : option (list fentry)) (self : Net) : Net :=
  {| net_name := net_name self; _graph := _graph self; blobs := blobs self;
     layers := layers self; _needs := _needs self;
     _provides := _provides self; _need_count := _need_count self;
     _forward_order := v; _backward_order := _backward_order self;
     _input_blobs := _input_blobs self; _output_blobs := _output_blobs self;
     _params := _params self; _finished := _finished self;
     _actual_needs := _actual_needs self |}.

Definition set_backward_order (v : option (list bentry)) (self : Net) : Net :=
  {| net_name := net_name self; _graph := _graph self; blobs := blobs self;
     layers := layers self; _needs := _needs self;
     _provides := _provides self; _need_count := _need_count self;
     _forward_order := _forward_order self; _backward_order := v;
     _input_blobs := _input_blobs self; _output_blobs := _output_blobs self;
     _params := _params self; _finished := _finished self;
     _actual_needs := _actual_needs self |}.

Definition set_input_blobs (v : option (list string)) (self : Net) : Net :=
  {| net_name := net_name self; _graph := _graph self; blobs := blobs self;
     layers := layers self; _needs := _needs self;
     _provides := _provides self; _need_count := _need_count self;
     _forward_order := _forward_order self;
     _backward_order := _backward_order self; _input_blobs := v;
     _output_blobs := _output_blobs self; _params := _params self;
     _finished := _finished self; _actual_needs := _actual_needs self |}.

Definition set_output_blobs (v : option (list string)) (self : Net) : Net :=
  {| net_name := net_name self; _graph := _graph self; blobs := blobs self;
     layers := layers self; _needs := _needs self;
     _provides := _provides self; _need_count := _need_count self;
     _forward_order := _forward_order self;
     _backward_order := _backward_order self;
     _input_blobs := _input_blobs self; _output_blobs := v;
     _params := _params self; _finished := _finished self;
     _actual_needs := _actual_needs self |}.

Definition set_params (v : option (list Blob)) (self : Net) : Net :=
  {| net_name := net_name self; _graph := _graph self; blobs := blobs self;
     layers := layers self; _needs := _needs self;
     _provides := _provides self; _need_count := _need_count self;
     _forward_order := _forward_order self;
     _backward_order := _backward_order self;
     _input_blobs := _input_blobs self; _output_blobs := _output_blobs self;
     _params := v; _finished := _finished self;
     _actual_needs := _actual_needs self |}.

Definition set_finished (v : bool) (self : Net) : Net :=
  {| net_name := net_name self; _graph := _graph self; blobs := blobs self;
     layers := layers self; _needs := _needs self;
     _provides := _provides self; _need_count := _need_count self;
     _forward_order := _forward_order self;
     _backward_order := _backward_order self;
     _input_blobs := _input_blobs self; _output_blobs := _output_blobs self;
     _params := _params self; _finished := v;
     _actual_needs := _actual_needs self |}.

Definition set_actual_needs (v : option (gmap string (list string))) (self : Net) : Net :=
  {| net_name := net_name self; _graph := _graph self; blobs := blobs self;
     layers := layers self; _needs := _needs self;
     _provides := _provides self; _need_count := _need_count self;
     _forward_order := _forward_order self;
     _backward_order := _backward_order self;
     _input_blobs := _input_blobs self; _output_blobs := _output_blobs self;
     _params := _params self; _finished := _finished self;
     _actual_needs := v |}.

(** ** Net.add_layer *)

(** [needs] and [provides] as [add_layer] accepts them: [None], one string,
    a list of strings, or a tuple of strings (what the docstring asks
    for). *)
Inductive blob_names : Type :=
| ArgNone
| ArgStr (s : string)
| ArgList (l : list string)
| ArgTuple (l : list string).

Definition names_of (a : blob_names) : list string :=
  match a with
  | ArgNone => []
  | ArgStr s => [s]
  | ArgList l => l
  | ArgTuple l => l
  end.

(** After lines 437-444 the argument is a list, unless a tuple was given:
    [None] has become [[]] and a string [s] has become [[s]]. *)
Definition is_tuple (a : blob_names) : bool :=
  match a with
  | ArgTuple _ => true
  | _ => false
  end.

(** [k in d] for a dictionary [d]. *)
Definition has_key {V} (d : gmap string V) (k : string) : bool :=
  bool_decide (is_Some (d !! k)).

(** [for blobname in provides: if blobname in self.blobs: raise ...]: the
    first provided name that is already a blob of the net. *)
Definition first_known_blob (self : Net) (provides : list string)
  : option string :=
  snd <$> list_find (λ b, is_Some (blobs self !! b)) provides.

(** [for blobname in needs + provides]: a name that is a layer name raises,
    an unknown name becomes a new empty blob.  Blobs created before the
    raise stay in the net. *)
Fixpoint add_blobs (names : list string) (self : Net) : res unit * Net :=
  match names with
  | [] => (Ok tt, self)
  | blobname :: rest =>
      if has_key (layers self) blobname
      then (Raise (InvalidNetError
                     ("Blob name found as a layer name: " +:+ blobname)), self)
      else if has_key (blobs self) blobname
      then add_blobs rest self
      else add_blobs rest
             (set_blobs (<[blobname := new_blob None]> (blobs self)) self)
  end.

(** [for name in needs: self._need_count[name] += 1] on a
    [defaultdict(int)]. *)
Definition count_needs (needs : list string) (c : gmap string nat)
  : gmap string nat :=
  foldl (λ c n, <[n := S (default 0 (c !! n))]> c) c needs.

Definition add_layer (layer : Layer) (needs provides : blob_names)
    (self : Net) : res unit * Net :=
  let mixed := xorb (is_tuple needs) (is_tuple provides) in
  let needs := names_of needs in
  let provides := names_of provides in
  let self := set_finished false self in
  if has_key (layers self) (name layer) || has_key (blobs self) (name layer)
  then (Raise (InvalidNetError ("A name already exists: " +:+ name layer)),
        self)
  else
    let self := set_layers (<[name layer := layer]> (layers self)) self in
    match first_known_blob self provides with
    | Some blobname =>
        (Raise (InvalidNetError
                  ("Blob " +:+ blobname +:+ " already provided by another layer.")),
         self)
    | None =>
        (* [needs + provides]: a tuple and a list are not concatenated *)
        if mixed then (Raise TypeError, self)
        else
          match add_blobs (needs ++ provides) self with
          | (Raise e, self) => (Raise e, self)
          | (Ok _, self) =>
              let self := set_need_count (count_needs needs (_need_count self)) self in
              let self := set_needs (<[name layer := needs]> (_needs self)) self in
              let self := set_provides (<[name layer := provides]> (_provides self)) self in
              (Ok tt, set_actual_needs None self)
          end
    end.

(** Every blob name a layer of the net was registered to provide is a blob
    of the net.  [add_layer] keeps this (see
    [add_layer_keeps_provided_are_blobs]). *)
Definition provided_are_blobs (self : Net) : Prop :=
  ∀ l bs b, _provides self !! l = Some bs → b ∈ bs → is_Some (blobs self !! b).

(** Some layers and nets to evaluate [add_layer] on. *)
Definition layer_named (nm : string) : Layer :=
  {| name := nm; freeze := false; _param := [] |}.

Definition net0 : Net := new_net "decaf_net".

(** [net0] after registering layer [A], which provides blob [x]. *)
Definition net_a : Net :=
  (add_layer (layer_named "A") ArgNone (ArgStr "x") net0).2.

(** [net0] after registering layer [B], which needs blob [x]. *)
Definition net_b : Net :=
  (add_layer (layer_named "B") (ArgStr "x") ArgNone net0).2.

(** ** Net.finish *)

(** The keys of a dictionary, in the order the iteration yields them. *)
Definition keys {V} (d : gmap string V) : list string := (map_to_list d).*1.

(** [_generate_graph].  The input and output blobs are computed and
    stored.  The next statement (line 557) is
    [for name, count in self._need_count.iteritems:], with the method not
    called: iterating over a bound method raises [TypeError], whatever the
    dictionary holds.  Nothing below that line is ever executed: the split
    layers are not inserted, [_actual_needs] is not filled and the graph is
    not rebuilt. *)
Definition _generate_graph (self : Net) : res unit * Net :=
  let provided_blobs := concat (map_to_list (_provides self)).*2 in
  let self :=
    set_input_blobs
      (Some (filter (λ nm, nm ∉ provided_blobs) (keys (blobs self)))) self in
  let self :=
    set_output_blobs
      (Some (filter (λ nm, _need_count self !! nm = None) (keys (blobs self))))
      self in
  (Raise TypeError, self).

(** [any(self._graph.node[p]['need_backward'] for p in ps)]: the generator
    stops at the first true flag; a predecessor without the attribute is a
    [KeyError]. *)
Fixpoint any_need_backward (g : DiGraph) (ps : list string) : res bool :=
  match ps with
  | [] => Ok false
  | p :: rest =>
      match get_attr g p "need_backward" with
      | Raise e => Raise e
      | Ok true => Ok true
      | Ok false => any_need_backward g rest
      end
  end.

(** [len(layer.param()) and not layer.freeze] as a truth value. *)
Definition has_unfrozen_params (layer : Layer) : bool :=
  bool_decide (param layer ≠ []) && negb (freeze layer).

(** The body of the loop over [topological_order] (lines 483-506). *)
Definition flag_step (lys : gmap string Layer) (g : DiGraph) (nm : string)
  : res DiGraph :=
  pred_need_backward ←! any_need_backward g (predecessors g nm);
  match lys !! nm with
  | Some layer =>
      g ←! set_attr g nm "need_backward"
             (pred_need_backward || has_unfrozen_params layer);
      set_attr g nm "propagate_down" pred_need_backward
  | None => set_attr g nm "need_backward" pred_need_backward
  end.

(** [for name in topological_order: ...]; the graph keeps the flags set
    before an exception. *)
Fixpoint flag_pass (lys : gmap string Layer) (order : list string)
    (g : DiGraph) : res unit * DiGraph :=
  match order with
  | [] => (Ok tt, g)
  | nm :: rest =>
      match flag_step lys g nm with
      | Ok g' => flag_pass lys rest g'
      | Raise e => (Raise e, g)
      end
  end.

(** [[name for name in topological_order if name in self.layers]] *)
Definition layerorder (self : Net) (topological_order : list string)
  : list string :=
  filter (λ nm, is_Some (layers self !! nm)) topological_order.

(** [d[k]] for a dictionary [d]. *)
Definition getitem {V} (d : gmap string V) (k : string) : res V :=
  match d !! k with
  | Some v => Ok v
  | None => Raise KeyError
  end.

(** [[self.blobs[name] for name in names]]: the blobs are referred to by
    their names, a name that is not a blob is a [KeyError]. *)
Fixpoint blob_refs (self : Net) (names : list string) : res (list string) :=
  match names with
  | [] => Ok []
  | nm :: rest =>
      _ ←! getitem (blobs self) nm;
      refs ←! blob_refs self rest;
      Ok (nm :: refs)
  end.

(** One entry of the forward plan (lines 513-516).  [_actual_needs] that
    is still [None] cannot be subscripted. *)
Definition forward_entry (self : Net) (n : string) : res fentry :=
  layer ←! getitem (layers self) n;
  actual ←! match _actual_needs self with
            | Some d => getitem d n
            | None => Raise TypeError
            end;
  bottom ←! blob_refs self actual;
  provides ←! getitem (_provides self) n;
  top ←! blob_refs self provides;
  Ok {| f_name := n; f_layer := layer; f_bottom := bottom; f_top := top |}.

(** The loop that appends to [self._forward_order]: [acc] is the list
    built so far, which is what the net holds if an entry raises. *)
Fixpoint build_forward_order (self : Net) (order : list string)
    (acc : list fentry) : res unit * list fentry :=
  match order with
  | [] => (Ok tt, acc)
  | n :: rest =>
      match forward_entry self n with
      | Ok e => build_forward_order self rest (acc ++ [e])
      | Raise x => (Raise x, acc)
      end
  end.

(** One step of the loop over [layerorder[::-1]] (lines 520-525): a layer
    whose [need_backward] flag is false is skipped.  The bottom blobs are
    taken from [_needs]. *)
Definition backward_entry (self : Net) (n : string) : res (option bentry) :=
  nb ←! get_attr (_graph self) n "need_backward";
  if nb then
    layer ←! getitem (layers self) n;
    needs ←! getitem (_needs self) n;
    bottom ←! blob_refs self needs;
    provides ←! getitem (_provides self) n;
    top ←! blob_refs self provides;
    pd ←! get_attr (_graph self) n "propagate_down";
    Ok (Some {| b_name := n; b_layer := layer; b_bottom := bottom;
                b_top := top; b_propagate_down := pd |})
  else Ok None.

Fixpoint build_backward_order (self : Net) (rev_order : list string)
    (acc : list bentry) : res unit * list bentry :=
  match rev_order with
  | [] => (Ok tt, acc)
  | n :: rest =>
      match backward_entry self n with
      | Ok (Some e) => build_backward_order self rest (acc ++ [e])
      | Ok None => build_backward_order self rest acc
      | Raise x => (Raise x, acc)
      end
  end.

(** [self._params.extend(self.layers[name].param())] over [layerorder]. *)
Fixpoint collect_params (self : Net) (order : list string) (acc : list Blob)
  : res unit * list Blob :=
  match order with
  | [] => (Ok tt, acc)
  | n :: rest =>
      match getitem (layers self) n with
      | Ok layer => collect_params self rest (acc ++ param layer)
      | Raise x => (Raise x, acc)
      end
  end.

Section Finish.

(** [nx.topological_sort]: the nodes in a topological order, or the
    library's [NetworkXUnfeasible] for a graph with a cycle. *)
Variable topological_sort : DiGraph → option (list string).

(** What [finish] does once the graph is there (lines 472-532). *)
Definition finish_schedule (self : Net) : res unit * Net :=
  match topological_sort (_graph self) with
  | None => (Raise (DecafError "Graph contains a cycle."), self)
  | Some topological_order =>
      match flag_pass (layers self) topological_order (_graph self) with
      | (Raise e, g) => (Raise e, set_graph g self)
      | (Ok _, g) =>
          let self := set_graph g self in
          let order := layerorder self topological_order in
          match build_forward_order self order [] with
          | (Raise e, fo) => (Raise e, set_forward_order (Some fo) self)
          | (Ok _, fo) =>
              let self := set_forward_order (Some fo) self in
              match build_backward_order self (reverse order) [] with
              | (Raise e, bo) => (Raise e, set_backward_order (Some bo) self)
              | (Ok _, bo) =>
                  let self := set_backward_order (Some bo) self in
                  match collect_params self order [] with
                  | (Raise e, ps) => (Raise e, set_params (Some ps) self)
                  | (Ok _, ps) =>
                      (Ok tt, set_finished true (set_params (Some ps) self))
                  end
              end
          end
      end
  end.

Definition finish (self : Net) : res unit * Net :=
  match _generate_graph self with
  | (Raise e, self) => (Raise e, self)
  | (Ok _, self) => finish_schedule self
  end.

End Finish.

(** What a topological order of [g] is: no node twice, only nodes of [g],
    and every predecessor of a node stands before it.  [topo_sorted g seen
    rest] checks [rest] given the nodes [seen] that stand before it. *)
Fixpoint topo_sorted (g : DiGraph) (seen rest : list string) : Prop :=
  match rest with
  | [] => True
  | n :: rest' =>
      (∀ p, p ∈ predecessors g n → p ∈ seen)
      ∧ topo_sorted g (seen ++ [n]) rest'
  end.

Definition topological (g : DiGraph) (order : list string) : Prop :=
  NoDup order
  ∧ (∀ n, n ∈ order → is_Some (node g !! n))
  ∧ topo_sorted g [] order.

(** The [need_backward] flag of a node read as a truth value. *)
Definition need_backward (g : DiGraph) (n : string) : Prop :=
  get_attr g n "need_backward" = Ok true.

Definition propagate_down (g : DiGraph) (n : string) : Prop :=
  get_attr g n "propagate_down" = Ok true.

(** A chain [A -> x -> B -> y]: layer [A] has no parameter, layer [B] owns
    one and is not frozen. *)
Definition chain_graph : DiGraph :=
  add_edge "B" "y" (add_edge "x" "B" (add_edge "A" "x" empty_graph)).

Definition chain_layers : gmap string Layer :=
  <["A" := layer_named "A"]>
    (<["B" := {| name := "B"; freeze := false; _param := [new_blob None] |}]> ∅).

Definition chain_order : list string := ["A"; "x"; "B"; "y"].

(** The flags the loop of [finish] computes, as boolean functions of the
    graph, for stating the invariant of the loop. *)

(** The flag a node has, [false] when it is missing. *)
Definition nb (g : DiGraph) (p : string) : bool :=
  match get_attr g p "need_backward" with
  | Ok b => b
  | Raise _ => false
  end.

Definition pred_nb (g : DiGraph) (n : string) : bool :=
  existsb (nb g) (predecessors g n).

Definition own_nb (lys : gmap string Layer) (n : string) : bool :=
  match lys !! n with
  | Some layer => has_unfrozen_params layer
  | None => false
  end.

(** The flags of node [n] are the ones the loop computes for it. *)
Definition flags_ok (lys : gmap string Layer) (g : DiGraph) (n : string)
  : Prop :=
  get_attr g n "need_backward" = Ok (pred_nb g n || own_nb lys n)
  ∧ (is_Some (lys !! n) → get_attr g n "propagate_down" = Ok (pred_nb g n)).

(** The fan-out scenario: [A] provides [x]; [B] and [C] both need [x]. *)
Definition net_abc : Net :=
  let n1 := (add_layer (layer_named "A") ArgNone (ArgStr "x") net0).2 in
  let n2 := (add_layer (layer_named "B") (ArgStr "x") (ArgStr "y") n1).2 in
  (add_layer (layer_named "C") (ArgStr "x") (ArgStr "z") n2).2.

(** ** Net.forward_backward and Net.predict *)

(** What a layer does when called is the layer's own business: the engine
    is given the two methods as functions on the state of the world (the
    contents of the blobs, the layers' internal state), which may raise. *)
Class LayerCalls (World Loss : Type) : Type := {
  layer_forward : Layer → list string → list string → World → res unit * World;
  layer_backward :
    Layer → list string → list string → bool → World → res Loss * World;
}.

(** The blobs of the net as [predict] uses them: [blob.mirror(arr)] and
    [blob.data()] on the blob of a given name. *)
Class BlobStore (World Arr : Type) : Type := {
  blob_mirror : string → Arr → World → res unit * World;
  blob_data : string → World → res Arr;
}.

Section Execution.
Context {World Loss Arr : Type}.
Context `{LossNum Loss} `{LayerCalls World Loss} `{BlobStore World Arr}.

(** [for _, layer, bottom, top in self._forward_order:
       layer.forward(bottom, top)] *)
Fixpoint run_forward (plan : list fentry) (w : World) : res unit * World :=
  match plan with
  | [] => (Ok tt, w)
  | e :: rest =>
      match layer_forward (f_layer e) (f_bottom e) (f_top e) w with
      | (Ok _, w') => run_forward rest w'
      | (Raise x, w') => (Raise x, w')
      end
  end.

(** The backward loop, [loss] being the sum so far. *)
Fixpoint run_backward (plan : list bentry) (loss : Loss) (w : World)
  : res Loss * World :=
  match plan with
  | [] => (Ok loss, w)
  | e :: rest =>
      match layer_backward (b_layer e) (b_bottom e) (b_top e)
              (b_propagate_down e) w with
      | (Ok layer_loss, w') => run_backward rest (loss_add loss layer_loss) w'
      | (Raise x, w') => (Raise x, w')
      end
  end.

(** Iterating over (or taking [len] of) a field that is still [None] is a
    [TypeError]. *)
Definition iterable {A} (v : option (list A)) : res (list A) :=
  match v with
  | Some l => Ok l
  | None => Raise TypeError
  end.

Definition forward_backward (self : Net) (w : World) : res Loss * World :=
  if negb (_finished self)
  then (Raise (DecafError "Call finish() before you use the network."), w)
  else
    match iterable (_input_blobs self) with
    | Raise x => (Raise x, w)
    | Ok (_ :: _) =>
        (Raise (DecafError
                  "Cannot run forward_backward on a network with input blobs. Did you mean predict()?"),
         w)
    | Ok [] =>
        match iterable (_output_blobs self) with
        | Raise x => (Raise x, w)
        | Ok _ =>
            (* a non-empty list only logs a warning *)
            match iterable (_forward_order self) with
            | Raise x => (Raise x, w)
            | Ok fo =>
                match run_forward fo w with
                | (Raise x, w1) => (Raise x, w1)
                | (Ok _, w1) =>
                    match iterable (_backward_order self) with
                    | Raise x => (Raise x, w1)
                    | Ok bo => run_backward bo loss0 w1
                    end
                end
            end
        end
    end.

(** [for name, arr in kwargs.iteritems(): self.blobs[name].mirror(arr)] *)
Fixpoint mirror_inputs (self : Net) (kwargs : list (string * Arr)) (w : World)
  : res unit * World :=
  match kwargs with
  | [] => (Ok tt, w)
  | (nm, arr) :: rest =>
      match getitem (blobs self) nm with
      | Raise x => (Raise x, w)
      | Ok _ =>
          match blob_mirror nm arr w with
          | (Ok _, w') => mirror_inputs self rest w'
          | (Raise x, w') => (Raise x, w')
          end
      end
  end.

(** [[(name, self.blobs[name].data()) for name in self._output_blobs]] *)
Fixpoint output_data (self : Net) (names : list string) (w : World)
  : res (list (string * Arr)) :=
  match names with
  | [] => Ok []
  | nm :: rest =>
      _ ←! getitem (blobs self) nm;
      arr ←! blob_data nm w;
      out ←! output_data self rest w;
      Ok ((nm, arr) :: out)
  end.

(** [predict], given its keyword arguments as a list: no test of
    [_finished]. *)
Definition predict (self : Net) (kwargs : list (string * Arr)) (w : World)
  : res (list (string * Arr)) * World :=
  match mirror_inputs self kwargs w with
  | (Raise x, w1) => (Raise x, w1)
  | (Ok _, w1) =>
      match iterable (_forward_order self) with
      | Raise x => (Raise x, w1)
      | Ok fo =>
          match run_forward fo w1 with
          | (Raise x, w2) => (Raise x, w2)
          | (Ok _, w2) =>
              match iterable (_output_blobs self) with
              | Raise x => (Raise x, w2)
              | Ok names =>
                  match output_data self names w2 with
                  | Raise x => (Raise x, w2)
                  | Ok out => (Ok out, w2)
                  end
              end
          end
      end
  end.

(** The forward plan ran: every [forward] call returned, in order. *)
Inductive runs_forward : list fentry → World → World → Prop :=
| runs_forward_nil w : runs_forward [] w w
| runs_forward_cons e rest w w1 w2 :
    layer_forward (f_layer e) (f_bottom e) (f_top e) w = (Ok tt, w1) →
    runs_forward rest w1 w2 →
    runs_forward (e :: rest) w w2.

(** The backward plan ran: every [backward] call returned, in order, with
    the listed loss contributions. *)
Inductive runs_backward : list bentry → World → list Loss → World → Prop :=
| runs_backward_nil w : runs_backward [] w [] w
| runs_backward_cons e rest w l w1 ls w2 :
    layer_backward (b_layer e) (b_bottom e) (b_top e) (b_propagate_down e) w
    = (Ok l, w1) →
    runs_backward rest w1 ls w2 →
    runs_backward (e :: rest) w (l :: ls) w2.

(** [loss = 0.] followed by [loss += layer_loss] for each contribution. *)
Definition sum_losses (ls : list Loss) : Loss := foldl loss_add loss0 ls.

End Execution.

#[global] Instance need_backward_dec g n : Decision (need_backward g n).
Proof.
  unfold need_backward.
  destruct (get_attr g n "need_backward") as [[]|]; (by left) || (by right).
Defined.

(** A world that only records the calls made, for evaluating the engine.
    A [backward] call contributes the number of parameters of its layer. *)
#[global] Instance log_calls : LayerCalls (list string) Z := {|
  layer_forward := λ l _ _ w, (Ok tt, w ++ ["forward " +:+ name l]);
  layer_backward := λ l _ _ _ w,
    (Ok (Z.of_nat (length (param l))), w ++ ["backward " +:+ name l]);
|}.

#[global] Instance log_blobs : BlobStore (list string) unit := {|
  blob_mirror := λ nm _ w, (Ok tt, w ++ ["mirror " +:+ nm]);
  blob_data := λ _ _, Ok tt;
|}.

(** The chain [A -> x -> B -> y] as a net: the two registrations, then the
    state a working [_generate_graph] would leave (no input blob, output
    blob [y], nothing to split, the graph of the chain), then the rest of
    [finish] with the topological order [chain_order]. *)
Definition net_chain_registered : Net :=
  let n1 := (add_layer (layer_named "A") ArgNone (ArgStr "x") net0).2 in
  (add_layer {| name := "B"; freeze := false; _param := [new_blob None] |}
     (ArgStr "x") (ArgStr "y") n1).2.

Definition net_chain_graphed : Net :=
  set_graph chain_graph
    (set_actual_needs (Some (_needs net_chain_registered))
       (set_output_blobs (Some ["y"])
          (set_input_blobs (Some []) net_chain_registered))).

Definition net_chain : Net :=
  (finish_schedule (λ _, Some chain_order) net_chain_graphed).2.





(** ** Puff: the record store of [puff.py] *)

(** Arrays read from a file are fresh values: a shape and the elements in
    row-major order. *)
Record array (Elt : Type) : Type := {
  ashape : list nat;
  aflat : list Elt;
}.
Arguments ashape {Elt} a.
Arguments aflat {Elt} a.

(** The fields of a [Puff] object.  The open file [_fid] is its contents,
    in elements of the store's dtype, and the position of the next read. *)
Record Puff (Elt : Type) : Type := {
  _shape : list nat;
  _step : Z;
  _num_data : Z;
  _start : Z;
  _end : Z;
  _curr : Z;
  _num_local_data : Z;
  _iter_count : Z;
  fid_data : list Elt;
  fid_pos : Z;
}.
Arguments _shape {Elt} p.
Arguments _step {Elt} p.
Arguments _num_data {Elt} p.
Arguments _start {Elt} p.
Arguments _end {Elt} p.
Arguments _curr {Elt} p.
Arguments _num_local_data {Elt} p.
Arguments _iter_count {Elt} p.
Arguments fid_data {Elt} p.
Arguments fid_pos {Elt} p.

(** Python's limit on the depth of recursive calls. *)
Definition recursion_limit : nat := 1000.

Section PuffMethods.
Context {Elt : Type}.

(** [a.reshape(s)] *)
Definition reshape (a : array Elt) (s : list nat) : res (array Elt) :=
  if decide (prod_shape s = length (aflat a))
  then Ok {| ashape := s; aflat := aflat a |}
  else Raise ValueError.

(** [a.reshape((count,) + shp)]: a first dimension of [-1] is inferred
    from the number of elements, any other negative one is refused. *)
Definition reshape_rows (a : array Elt) (count : Z) (shp : list nat)
  : res (array Elt) :=
  if decide (0 <= count)%Z then reshape a (Z.to_nat count :: shp)
  else if decide (count = -1)%Z then
    let n := prod_shape shp in
    if decide (n ≠ 0 ∧ Nat.modulo (length (aflat a)) n = 0)
    then Ok {| ashape := Nat.div (length (aflat a)) n :: shp; aflat := aflat a |}
    else Raise ValueError
  else Raise ValueError.

(** [np.atleast_2d]: a scalar becomes 1 x 1, a vector of [n] becomes
    1 x [n]. *)
Definition atleast_2d (a : array Elt) : array Elt :=
  match ashape a with
  | [] => {| ashape := [1; 1]; aflat := aflat a |}
  | [n] => {| ashape := [1; n]; aflat := aflat a |}
  | _ => a
  end.

(** [np.vstack((a, b))]: both arrays are made at least two-dimensional and
    joined along the first axis; the other axes have to agree. *)
Definition vstack (a b : array Elt) : res (array Elt) :=
  match ashape (atleast_2d a), ashape (atleast_2d b) with
  | da :: ta, db :: tb =>
      if decide (ta = tb)
      then Ok {| ashape := (da + db) :: ta; aflat := aflat a ++ aflat b |}
      else Raise ValueError
  | _, _ => Raise ValueError
  end.

Definition set_curr (v : Z) (self : Puff Elt) : Puff Elt :=
  {| _shape := _shape self; _step := _step self; _num_data := _num_data self;
     _start := _start self; _end := _end self; _curr := v;
     _num_local_data := _num_local_data self;
     _iter_count := _iter_count self;
     fid_data := fid_data self; fid_pos := fid_pos self |}.

Definition set_pos (v : Z) (self : Puff Elt) : Puff Elt :=
  {| _shape := _shape self; _step := _step self; _num_data := _num_data self;
     _start := _start self; _end := _end self; _curr := _curr self;
     _num_local_data := _num_local_data self;
     _iter_count := _iter_count self;
     fid_data := fid_data self; fid_pos := v |}.

Definition set_range_fields (s e n : Z) (self : Puff Elt) : Puff Elt :=
  {| _shape := _shape self; _step := _step self; _num_data := _num_data self;
     _start := s; _end := e; _curr := _curr self;
     _num_local_data := n;
     _iter_count := _iter_count self;
     fid_data := fid_data self; fid_pos := fid_pos self |}.

(** [open]: the icing gives the shape and the number of records; the
    range is the whole file. *)
Definition puff_open (shp : list nat) (num : Z) (file : list Elt) : Puff Elt :=
  {| _shape := shp; _step := Z.of_nat (prod_shape shp); _num_data := num;
     _start := 0; _end := num; _curr := 0; _num_local_data := num;
     _iter_count := 0; fid_data := file; fid_pos := 0 |}.

(** [seek(offset)]; the file refuses a negative position. *)
Definition seek (offset : Z) (self : Puff Elt) : res unit * Puff Elt :=
  if decide (offset < _start self ∨ offset >= _end self)%Z
  then (Raise ValueError, self)
  else if decide (offset * _step self < 0)%Z
  then (Raise IOError, self)
  else (Ok tt, set_curr offset (set_pos (offset * _step self) self)).

(** [set_range(start, end)].  [end > start] is evaluated with the argument
    [start]; in Python 2 every integer is greater than [None]. *)
Definition set_range (start end_ : option Z) (self : Puff Elt)
  : res unit * Puff Elt :=
  let after_start :=
    match start with
    | None => (Ok tt, self)
    | Some s =>
        if decide (s > _num_data self)%Z then (Raise ValueError, self)
        else
          let self :=
            set_range_fields s (_end self) (_num_local_data self) self in
          match seek s self with
          | (Ok _, self) => (Ok tt, set_curr s self)
          | (Raise x, self) => (Raise x, self)
          end
    end in
  match after_start with
  | (Raise x, self) => (Raise x, self)
  | (Ok _, self) =>
      let after_end :=
        match end_ with
        | None => (Ok tt, self)
        | Some e =>
            if (match start with
                | Some s => bool_decide (e > s)%Z
                | None => true
                end) && bool_decide (e <= _num_data self)%Z
            then (Ok tt, set_range_fields (_start self) e
                           (_num_local_data self) self)
            else (Raise ValueError, self)
        end in
      match after_end with
      | (Raise x, self) => (Raise x, self)
      | (Ok _, self) =>
          (Ok tt, set_range_fields (_start self) (_end self)
                    (_end self - _start self) self)
      end
  end.

(** [Puff(name, start, end)] *)
Definition Puff_init (shp : list nat) (num : Z) (file : list Elt)
    (start end_ : option Z) : res unit * Puff Elt :=
  set_range start end_ (puff_open shp num file).

(** [np.fromfile(fid, dtype, n)]: the next [n] elements of the file, fewer
    at the end of the file, all that is left for a negative [n]. *)
Definition fromfile (n : Z) (self : Puff Elt) : list Elt * Puff Elt :=
  let rest := drop (Z.to_nat (fid_pos self)) (fid_data self) in
  let items := if decide (n < 0)%Z then rest else take (Z.to_nat n) rest in
  (items, set_pos (fid_pos self + Z.of_nat (length items)) self).

(** [read(count)], which calls itself for a read across the end of the
    range; [depth] is the number of nested calls Python still allows. *)
Fixpoint read_depth (depth : nat) (count : Z) (self : Puff Elt)
  : res (array Elt) * Puff Elt :=
  match depth with
  | 0 => (Raise RuntimeError, self)
  | S depth' =>
      if decide (count > _num_local_data self)%Z
      then (Raise ValueError, self)
      else
        let r :=
          if decide (_curr self + count <= _end self)%Z then
            let '(items, self) := fromfile (count * _step self) self in
            let data := {| ashape := [length items]; aflat := items |} in
            let self := set_curr (_curr self + count) self in
            if decide (_curr self = _end self) then
              match seek (_start self) self with
              | (Ok _, self) => (Ok data, self)
              | (Raise x, self) => (Raise x, self)
              end
            else (Ok data, self)
          else
            let part := (_end self - _curr self)%Z in
            match read_depth depth' part self with
            | (Raise x, self) => (Raise x, self)
            | (Ok a, self) =>
                match read_depth depth' (count - part) self with
                | (Raise x, self) => (Raise x, self)
                | (Ok b, self) =>
                    match vstack a b with
                    | Ok d => (Ok d, self)
                    | Raise x => (Raise x, self)
                    end
                end
            end in
        match r with
        | (Raise x, self) => (Raise x, self)
        | (Ok data, self) =>
            match reshape_rows data count (_shape self) with
            | Ok d => (Ok d, self)
            | Raise x => (Raise x, self)
            end
        end
  end.

Definition read (count : Z) (self : Puff Elt) : res (array Elt) * Puff Elt :=
  read_depth recursion_limit count self.

(** A store as [Puff(...)] and the reads leave it: the range lies in the
    file, the current record in the range, the file is positioned at the
    current record and holds [_num_data] records of [_step] elements. *)
Definition puff_ok (self : Puff Elt) : Prop :=
  (0 <= _start self ∧ _start self <= _curr self ∧ _curr self < _end self
   ∧ _end self <= _num_data self)%Z
  ∧ _num_local_data self = (_end self - _start self)%Z
  ∧ _step self = Z.of_nat (prod_shape (_shape self))
  ∧ fid_pos self = (_curr self * _step self)%Z
  ∧ Z.of_nat (length (fid_data self)) = (_num_data self * _step self)%Z.

(** The records [[from, from + count)] of the file. *)
Definition records (self : Puff Elt) (from count : Z) : list Elt :=
  take (Z.to_nat (count * _step self))
       (drop (Z.to_nat (from * _step self)) (fid_data self)).

End PuffMethods.

Arguments reshape_rows : simpl never.

(** The state a read of [count] records within the range leaves: the next
    record, or the start of the range when the end was reached. *)
Definition advance {Elt} (count : Z) (self : Puff Elt) : Puff Elt :=
  let c := (_curr self + count)%Z in
  if decide (c = _end self)
  then set_curr (_start self) (set_pos (_start self * _step self) self)
  else set_curr c (set_pos (c * _step self) self).

(** A store of three scalar records (the icing's shape is [()]), opened on
    its full range, and a store of three records of two elements. *)
Definition scalar_store : Puff Z :=
  (Puff_init [] 3 [10; 20; 30]%Z None None).2.

Definition pair_store : Puff Z :=
  (Puff_init [2] 3 [1; 2; 3; 4; 5; 6]%Z None None).2.

(** The two stores after a first read of two records: one record is left
    before the end of the range. *)
Definition scalar_store_at_2 : Puff Z := (read 2 scalar_store).2.

Definition pair_store_at_2 : Puff Z := (read 2 pair_store).2.

(** The nets a program can build through the interface: [Net(name)]
    followed by any sequence of [add_layer] and [finish] calls, each of
    which may return or raise; a call that raises leaves the net as the
    exception found it. *)
Inductive built (topological_sort : DiGraph → option (list string))
  : Net → Prop :=
| built_new nm : built topological_sort (new_net nm)
| built_add_layer self layer needs provides :
    built topological_sort self →
    built topological_sort (add_layer layer needs provides self).2
| built_finish self :
    built topological_sort self →
    built topological_sort (finish topological_sort self).2.

(** Each blob is provided by at most one registered layer. *)
Definition single_writer (self : Net) : Prop :=
  ∀ l1 l2 bs1 bs2 b,
    _provides self !! l1 = Some bs1 → b ∈ bs1 →
    _provides self !! l2 = Some bs2 → b ∈ bs2 → l1 = l2.

(** No name is both a layer and a blob of the net. *)
Definition one_namespace (self : Net) : Prop :=
  ∀ n, ¬ (is_Some (layers self !! n) ∧ is_Some (blobs self !! n)).

(** The properties every call of [add_layer] and [finish] keeps. *)
Definition net_inv (self : Net) : Prop :=
  provided_are_blobs self ∧ single_writer self ∧ one_namespace self
  ∧ (∀ l, is_Some (_provides self !! l) → is_Some (layers self !! l))
  ∧ _finished self = false
  ∧ _forward_order self = None ∧ _backward_order self = None.

(** [edge g u v]: the graph has an edge from [u] to [v]. *)
Definition edge (g : DiGraph) (u v : string) : Prop := (u, v) ∈ edges g.

(** Layer calls for evaluating a failing pass: the layer named [B] raises
    in [forward], the layer named [A] raises in [backward]; every call is
    logged. *)
Definition failing_calls : LayerCalls (list string) Z := {|
  layer_forward := λ l _ _ w,
    (if decide (name l = "B") then Raise ValueError else Ok tt,
     w ++ ["forward " +:+ name l]);
  layer_backward := λ l _ _ _ w,
    (if decide (name l = "A") then Raise ValueError
     else Ok (Z.of_nat (length (param l))),
     w ++ ["backward " +:+ name l]);
|}.

(** ** Puff: seeking, reading everything, iterating *)

Definition set_iter_count {Elt} (v : Z) (self : Puff Elt) : Puff Elt :=
  {| _shape := _shape self; _step := _step self; _num_data := _num_data self;
     _start := _start self; _end := _end self; _curr := _curr self;
     _num_local_data := _num_local_data self;
     _iter_count := v;
     fid_data := fid_data self; fid_pos := fid_pos self |}.

(** What a call of [next()] gives to a [for] loop: an element, the end of
    the iteration, or another exception. *)
Inductive next_result (A : Type) : Type :=
| Yield (a : A)
| StopIteration
| Fails (e : exn).
Arguments Yield {A} a.
Arguments StopIteration {A}.
Arguments Fails {A} e.

Section PuffReader.
Context {Elt : Type}.

(** [reset()] *)
Definition reset (self : Puff Elt) : res unit * Puff Elt :=
  seek (_start self) self.

(** [read_all()] *)
Definition read_all (self : Puff Elt) : res (array Elt) * Puff Elt :=
  match seek (_start self) self with
  | (Raise x, self) => (Raise x, self)
  | (Ok _, self) => read (_num_local_data self) self
  end.

(** [a[0]]: the first row of an array; an array without axes or without
    rows has none. *)
Definition first_row (a : array Elt) : res (array Elt) :=
  match ashape a with
  | [] => Raise IndexError
  | 0 :: _ => Raise IndexError
  | S _ :: s => Ok {| ashape := s; aflat := take (prod_shape s) (aflat a) |}
  end.

(** [__iter__()] *)
Definition __iter__ (self : Puff Elt) : res unit * Puff Elt :=
  match seek (_start self) self with
  | (Raise x, self) => (Raise x, self)
  | (Ok _, self) => (Ok tt, set_iter_count 0 self)
  end.

(** [next()]: the iteration is over when the store is back at the start
    of its range after at least one element. *)
Definition next (self : Puff Elt) : next_result (array Elt) * Puff Elt :=
  if bool_decide (_curr self = _start self)
     && bool_decide (_iter_count self ≠ 0%Z)
  then (StopIteration, self)
  else
    let self := set_iter_count (_iter_count self + 1) self in
    match read 1 self with
    | (Raise x, self) => (Fails x, self)
    | (Ok a, self) =>
        match first_row a with
        | Ok elem => (Yield elem, self)
        | Raise x => (Fails x, self)
        end
    end.

(** [for elem in it: body(elem)] once [iter(puff)] has been called: [next]
    until [StopIteration].  The body works on a state of its own and may
    raise.  [fuel] bounds the number of rounds; [None] means that the loop
    was still running when the fuel ran out. *)
Fixpoint for_loop {St : Type} (fuel : nat)
    (body : array Elt → St → res unit * St) (self : Puff Elt) (s : St)
  : option (res unit * Puff Elt * St) :=
  match fuel with
  | 0 => None
  | S fuel' =>
      match next self with
      | (StopIteration, self) => Some (Ok tt, self, s)
      | (Fails x, self) => Some (Raise x, self, s)
      | (Yield elem, self) =>
          match body elem s with
          | (Ok _, s) => for_loop fuel' body self s
          | (Raise x, s) => Some (Raise x, self, s)
          end
      end
  end.

(** [for elem in puff: body(elem)] *)
Definition for_each {St : Type} (fuel : nat)
    (body : array Elt → St → res unit * St) (self : Puff Elt) (s : St)
  : option (res unit * Puff Elt * St) :=
  match __iter__ self with
  | (Raise x, self) => Some (Raise x, self, s)
  | (Ok _, self) => for_loop fuel body self s
  end.

(** Record [i] of the file as the array [next] yields. *)
Definition record_at (self : Puff Elt) (i : Z) : array Elt :=
  {| ashape := _shape self; aflat := records self i 1 |}.

(** The records of the active range, in order. *)
Definition range_records (self : Puff Elt) : list (array Elt) :=
  record_at self <$> seqZ (_start self) (_num_local_data self).

(** A loop body run on a list of elements, up to the first that raises. *)
Fixpoint run_body {St : Type} (body : array Elt → St → res unit * St)
    (elems : list (array Elt)) (s : St) : res unit * St :=
  match elems with
  | [] => (Ok tt, s)
  | elem :: rest =>
      match body elem s with
      | (Ok _, s) => run_body body rest s
      | (Raise x, s) => (Raise x, s)
      end
  end.

End PuffReader.

(** ** PuffStreamedWriter *)

(** The icing file: what [finish] pickles next to the data file. *)
Record icing : Type := {
  icing_shape : option (list nat);
  icing_dtype : option dtype;
  icing_num : Z;
}.

(** A numpy array handed to the writer: its dtype and its value. *)
Record typed_array (Elt : Type) : Type := {
  ta_dtype : dtype;
  ta_array : array Elt;
}.
Arguments ta_dtype {Elt} t.
Arguments ta_array {Elt} t.

Module PuffStreamedWriter.

(** The fields of the writer; [_fid] is what has been written to the data
    file so far. *)
Record writer (Elt : Type) : Type := {
  _shape : option (list nat);
  _num_data : Z;
  _dtype : option dtype;
  _fid : list Elt;
}.
Arguments _shape {Elt} w.
Arguments _num_data {Elt} w.
Arguments _dtype {Elt} w.
Arguments _fid {Elt} w.

Section Methods.
Context {Elt : Type}.

(** [PuffStreamedWriter(name)]: the data file is created empty. *)
Definition init : writer Elt :=
  {| _shape := None; _num_data := 0; _dtype := None; _fid := [] |}.

(** [check_validity(arr)], given the shape and dtype of [arr]. *)
Definition check_validity (shp : list nat) (dt : dtype) (self : writer Elt)
  : res unit * writer Elt :=
  match _shape self with
  | None =>
      (Ok tt, {| _shape := Some shp; _num_data := _num_data self;
                 _dtype := Some dt; _fid := _fid self |})
  | Some s =>
      if bool_decide (s ≠ shp) || bool_decide (_dtype self ≠ Some dt)
      then (Raise TypeError, self)
      else (Ok tt, self)
  end.

(** [arr.tofile(self._fid)] followed by [self._num_data += n]. *)
Definition append (a : array Elt) (n : Z) (self : writer Elt) : writer Elt :=
  {| _shape := _shape self; _num_data := _num_data self + n;
     _dtype := _dtype self; _fid := _fid self ++ aflat a |}.

Definition write_single (arr : typed_array Elt) (self : writer Elt)
  : res unit * writer Elt :=
  match check_validity (ashape (ta_array arr)) (ta_dtype arr) self with
  | (Raise x, self) => (Raise x, self)
  | (Ok _, self) => (Ok tt, append (ta_array arr) 1 self)
  end.

(** [write_batch(arr)]: [arr[0]] gives the shape of a record; the number
    of records is [arr.shape[0]]. *)
Definition write_batch (arr : typed_array Elt) (self : writer Elt)
  : res unit * writer Elt :=
  match first_row (ta_array arr) with
  | Raise x => (Raise x, self)
  | Ok row =>
      match check_validity (ashape row) (ta_dtype arr) self with
      | (Raise x, self) => (Raise x, self)
      | (Ok _, self) =>
          (Ok tt, append (ta_array arr)
                    (Z.of_nat (hd 0 (ashape (ta_array arr)))) self)
      end
  end.

(** [finish()]: the two files it leaves, the icing and the data. *)
Definition finish (self : writer Elt) : res (icing * list Elt) :=
  if decide (_num_data self = 0%Z) then Raise ValueError
  else Ok ({| icing_shape := _shape self; icing_dtype := _dtype self;
              icing_num := _num_data self |}, _fid self).

End Methods.
End PuffStreamedWriter.

Section PuffFiles.
Context {Elt : Type}.

(** [write_puff(arr, name)] *)
Definition write_puff (arr : typed_array Elt) : res (icing * list Elt) :=
  match PuffStreamedWriter.write_batch arr PuffStreamedWriter.init with
  | (Raise x, _) => Raise x
  | (Ok _, writer) => PuffStreamedWriter.finish writer
  end.

(** [Puff(name, start, end)] on the two files a writer left: [open] takes
    the product of the icing's shape, which is a [TypeError] on [None]. *)
Definition Puff_of_files (files : icing * list Elt) (start end_ : option Z)
  : res unit * option (Puff Elt) :=
  match icing_shape files.1 with
  | None => (Raise TypeError, None)
  | Some shp =>
      let '(r, p) := Puff_init shp (icing_num files.1) files.2 start end_ in
      (r, Some p)
  end.

(** [puffmap(func, puff, output_name, write_batch)]: what the output files
    hold, or [None] when the fuel does not suffice. *)
Definition puffmap (fuel : nat) (func : array Elt → typed_array Elt)
    (puff : Puff Elt) (write_batch : bool)
  : option (res (icing * list Elt) * Puff Elt) :=
  let body elem writer :=
    if write_batch then PuffStreamedWriter.write_batch (func elem) writer
    else PuffStreamedWriter.write_single (func elem) writer in
  match for_each fuel body puff PuffStreamedWriter.init with
  | None => None
  | Some (Raise x, puff, _) => Some (Raise x, puff)
  | Some (Ok _, puff, writer) => Some (PuffStreamedWriter.finish writer, puff)
  end.

End PuffFiles.

(** A store of records of two elements holding the numbers 1 to 6, as
    [write_puff] is given it. *)
Definition pairs_array : typed_array Z :=
  {| ta_dtype := int64;
     ta_array := {| ashape := [3; 2]; aflat := [1; 2; 3; 4; 5; 6]%Z |} |}.

(** An array whose elements are exactly those of its shape. *)
Definition array_ok {Elt} (a : array Elt) : Prop :=
  length (aflat a) = prod_shape (ashape a).

(** The data file of a writer holds [_num_data] records of the shape the
    first write fixed. *)
Definition writer_ok {Elt} (w : PuffStreamedWriter.writer Elt) : Prop :=
  (0 <= PuffStreamedWriter._num_data w)%Z
  ∧ match PuffStreamedWriter._shape w with
    | None =>
        PuffStreamedWriter._num_data w = 0%Z ∧ PuffStreamedWriter._fid w = []
    | Some s =>
        Z.of_nat (length (PuffStreamedWriter._fid w))
        = (PuffStreamedWriter._num_data w * Z.of_nat (prod_shape s))%Z
    end.

(** A writer after two batches, of two records and of one. *)
Definition writer_after_two_batches : PuffStreamedWriter.writer Z :=
  (PuffStreamedWriter.write_batch
     {| ta_dtype := int64;
        ta_array := {| ashape := [1; 2]; aflat := [5; 6]%Z |} |}
     (PuffStreamedWriter.write_batch
        {| ta_dtype := int64;
           ta_array := {| ashape := [2; 2]; aflat := [1; 2; 3; 4]%Z |} |}
        PuffStreamedWriter.init).2).2.

(** A transform for [puffmap]: every element doubled, as 64-bit
    integers. *)
Definition doubled (elem : array Z) : typed_array Z :=
  {| ta_dtype := int64;
     ta_array := {| ashape := ashape elem;
                    aflat := Z.mul 2 <$> aflat elem |} |}.

(** The layer [n] is wired: it has an entry in [_actual_needs], [_needs]
    and [_provides], and every name in the three lists is a blob of the
    net.  This is what [_generate_graph] is meant to leave for every
    layer. *)
Definition wired (self : Net) (n : string) : Prop :=
  ∃ actual needs provides,
    (_actual_needs self ≫= (λ d, d !! n)) = Some actual
    ∧ _needs self !! n = Some needs
    ∧ _provides self !! n = Some provides
    ∧ ∀ b, b ∈ actual ++ needs ++ provides → is_Some (blobs self !! b).

(** The parameter blobs of the layers named in [order], in that order. *)
Definition params_of (self : Net) (order : list string) : list Blob :=
  concat ((λ n, default [] (param <$> layers self !! n)) <$> order).

(** The store of three pairs opened on its first two records. *)
Definition pair_store_head : Puff Z :=
  (Puff_init [2] 3 [1; 2; 3; 4; 5; 6]%Z None (Some 2%Z)).2.

(** ** Net.save *)

Section Save.

(** [isinstance(layer, DataLayer)] and [isinstance(layer, LossLayer)]: the
    class of a layer object is not a field of it. *)
Variable is_DataLayer : Layer → bool.
Variable is_LossLayer : Layer → bool.

(** What [save] stores for a layer: the layer and its two lists. *)
Definition saved_layer : Type := Layer * list string * list string.

(** The body of the loop of [save] (lines 384-391): [None] stands for
    [continue].  With [store_full] false, a layer that is neither a data
    nor a loss layer gets as far as [name.startwith(...)], and a string
    has no attribute of that name. *)
Definition save_entry (self : Net) (store_full : bool) (nm : string)
    (layer : Layer) : res (option saved_layer) :=
  if store_full then
    needs ←! getitem (_needs self) nm;
    provides ←! getitem (_provides self) nm;
    Ok (Some (layer, needs, provides))
  else if is_DataLayer layer || is_LossLayer layer then Ok None
  else Raise AttributeError.

(** [for name, layer in self.layers.iteritems(): ...] *)
Fixpoint save_loop (self : Net) (store_full : bool)
    (items : list (string * Layer)) (output : gmap string saved_layer)
  : res (gmap string saved_layer) :=
  match items with
  | [] => Ok output
  | (nm, layer) :: rest =>
      match save_entry self store_full nm layer with
      | Raise x => Raise x
      | Ok None => save_loop self store_full rest output
      | Ok (Some entry) =>
          save_loop self store_full rest (<[nm := entry]> output)
      end
  end.

(** [save(filename, protocol, store_full)]: the object [output] that is
    handed to [pickle.dump]. *)
Definition save (self : Net) (store_full : bool)
  : res (string * gmap string saved_layer) :=
  output ←! save_loop self store_full (map_to_list (layers self)) ∅;
  Ok (net_name self, output).

End Save.

(** ** Net.load and Net.load_from *)

Section Load.
Variable topological_sort : DiGraph → option (list string).

(** [for name in contents[1]: if name in self.layers:
       self.layers[name] = contents[1][name][0]] *)
Definition replace_layers (stored : gmap string saved_layer) (self : Net) : Net :=
  foldl (λ self item,
           if has_key (layers self) item.1
           then set_layers (<[item.1 := item.2.1.1]> (layers self)) self
           else self)
        self (map_to_list stored).

(** [load_from(filename)], given the unpickled contents of the file. *)
Definition load_from (contents : string * gmap string saved_layer)
    (self : Net) : res unit * Net :=
  finish topological_sort (replace_layers contents.2 self).

(** [for layer, needs, provides in contents[1].values():
       self.add_layer(layer, needs=needs, provides=provides)] *)
Fixpoint load_layers (entries : list saved_layer) (self : Net)
  : res unit * Net :=
  match entries with
  | [] => (Ok tt, self)
  | (layer, needs, provides) :: rest =>
      match add_layer layer (ArgList needs) (ArgList provides) self with
      | (Ok _, self) => load_layers rest self
      | (Raise x, self) => (Raise x, self)
      end
  end.

(** [Net.load(filename)], given the unpickled contents of the file: the
    net under construction, which is returned when nothing raises. *)
Definition load (contents : string * gmap string saved_layer)
  : res unit * Net :=
  match load_layers (map_to_list contents.2).*2 (new_net contents.1) with
  | (Raise x, self) => (Raise x, self)
  | (Ok _, self) => finish topological_sort self
  end.

End Load.

(** * Theorems *)

(** ** numpy: broadcasting an array to its own shape *)

Lemma chunks_concat {A} k n (v : list A) :
  length v = n * k → concat (chunks k n v) = v.
Proof.
  revert v. induction n as [|n IH]; intros v Hv; simpl in *.
  - by destruct v.
  - rewrite IH.
    + apply take_drop.
    + rewrite length_drop. lia.
Qed.

Lemma chunks_length {A} k n (v : list A) :
  length v = n * k → Forall (λ c, length c = k) (chunks k n v).
Proof.
  revert v. induction n as [|n IH]; intros v Hv; simpl in *.
  - constructor.
  - constructor.
    + rewrite length_take. lia.
    + apply IH. rewrite length_drop. lia.
Qed.

Lemma bcast_aligned_same {A} (s : list nat) (v : list A) :
  length v = prod_shape s → bcast_aligned s s v = Some v.
Proof.
  revert v. induction s as [|d s IH]; intros v Hv; simpl in *.
  - done.
  - rewrite decide_True by done.
    assert (Hm : mapM (bcast_aligned s s) (chunks (prod_shape s) d v)
                 = Some (chunks (prod_shape s) d v)).
    { apply mapM_Some. apply Forall2_same_length_lookup_2; [done|].
      intros i x y Hx Hy. simplify_eq. apply IH.
      pose proof (chunks_length (prod_shape s) d v Hv) as Hall.
      rewrite Forall_lookup in Hall. by eapply Hall. }
    rewrite Hm. f_equal. by apply chunks_concat.
Qed.

Lemma broadcast_to_same {A} (s : list nat) (v : list A) :
  length v = prod_shape s → broadcast_to s s v = Some v.
Proof.
  intros Hv. unfold broadcast_to. rewrite decide_True by done.
  rewrite Nat.sub_diag. simpl. by apply bcast_aligned_same.
Qed.

(** ** Blob: what the heap holds after an in-place operation *)

Section BlobFacts.
Context {Elt : Type} `{Arith Elt} `{Fillers Elt}.

Lemma contents_insert_ne (h : heap Elt) (a : ndarray) (i : nat) (v : list Elt) :
  i ≠ base a → contents (<[i := v]> h) a = contents h a.
Proof. intros Hne. unfold contents, heap in *. by rewrite list_lookup_insert_ne. Qed.

(** Writing a combination of the old contents back into the buffer. *)
Lemma contents_insert_zip (h : heap Elt) (a : ndarray) f (w : list Elt) :
  contents (<[base a := zip_with f (contents h a) w]> h) a
  = zip_with f (contents h a) w.
Proof.
  unfold contents, heap in *.
  destruct (h !! base a) as [v|] eqn:Hv; simpl.
  - rewrite list_lookup_insert_eq; [done|]. by eapply lookup_lt_Some.
  - rewrite list_insert_ge; [by rewrite Hv|]. by apply lookup_ge_None.
Qed.

Lemma view_id (a : ndarray) : view a = a.
Proof. by destruct a. Qed.

Lemma set_data_same (b : Blob) d : _data b = Some d → set_data (Some d) b = b.
Proof. destruct b; simpl; intros ->; done. Qed.

Lemma set_diff_same (b : Blob) g : _diff b = Some g → set_diff (Some g) b = b.
Proof. destruct b; simpl; intros ->; done. Qed.

Lemma inplace_same_shape op (a b : ndarray) (h : heap Elt) :
  inplace_cast_ok (adtype a) (adtype b) = true →
  shape b = shape a → well_sized h b →
  inplace op a b h
  = Ok (<[base a := zip_with (op (adtype a)) (contents h a) (contents h b)]> h).
Proof.
  intros Hc Hs Hb. unfold inplace. rewrite Hc, Hs, broadcast_to_same; [done|].
  unfold well_sized in Hb. by rewrite <- Hs.
Qed.


Lemma inplace_cast_ok_same (dt : dtype) : inplace_cast_ok dt dt = true.
Proof. by destruct dt. Qed.

(** C7 (as amended).  A blob that holds a value and a gradient.  When the
    gradient has the shape of the value and an element type that can be
    cast into the value's in place, and both buffers hold exactly the
    elements of that shape, [update] returns normally, leaves the blob's
    fields as they were and replaces the value by
    [value_before - gradient], element by element; no other buffer
    changes.  When the type of the gradient cannot be cast into the
    value's, [update] raises [TypeError]; when it can but the shape of the
    gradient cannot be broadcast to the value's, [update] raises
    [ValueError]; both leave the blob and every buffer as they were. *)
Theorem update_subtracts_gradient (b : Blob) (h : heap Elt) (d g : ndarray) :
  _data b = Some d → _diff b = Some g →
  (inplace_cast_ok (adtype d) (adtype g) = true →
   shape g = shape d → well_sized h d → well_sized h g →
   ∃ h', update b h = (Ok tt, b, h')
       ∧ contents h' d = zip_with (sub (adtype d)) (contents h d) (contents h g)
       ∧ well_sized h' d
       ∧ (∀ a, base a ≠ base d → contents h' a = contents h a))
  ∧ (inplace_cast_ok (adtype d) (adtype g) = false →
     update b h = (Raise TypeError, b, h))
  ∧ (inplace_cast_ok (adtype d) (adtype g) = true →
     broadcast_to (shape d) (shape g) (contents h g) = None →
     update b h = (Raise ValueError, b, h)).
Proof.
  intros Hd Hg. split; [|split].
  - intros Hc Hs Wd Wg.
    eexists. unfold update, isub. rewrite Hd, Hg.
    rewrite inplace_same_shape by done.
    rewrite set_data_same by done.
    split; [reflexivity|].
    split; [apply contents_insert_zip|].
    split.
    + unfold well_sized in *. rewrite contents_insert_zip, length_zip_with.
      rewrite Wd, Wg, Hs. lia.
    + intros a Ha. by apply contents_insert_ne.
  - intros Hc. unfold update, isub, inplace. by rewrite Hd, Hg, Hc.
  - intros Hc Hb. unfold update, isub, inplace. by rewrite Hd, Hg, Hc, Hb.
Qed.

End BlobFacts.

(** C7, the claim as stated fails: a blob can hold a value of two elements
    and a gradient of three (after [init_diff] and a later [init_data] with
    another shape); both buffers are present and [update] raises instead of
    subtracting. *)
Lemma update_shape_mismatch_raises :
  has_data blob_stale.1 = true ∧ has_diff blob_stale.1 = true
  ∧ update blob_stale.1 blob_stale.2
    = (Raise ValueError, blob_stale.1, blob_stale.2).
Proof. vm_compute. done. Qed.

Lemma update_subtracts_gradient_witness :
  ∃ h', update blob_3_loaded.1 blob_3_loaded.2 = (Ok tt, blob_3_loaded.1, h')
      ∧ contents h' {| base := 0; shape := [3]; adtype := float64 |}
        = [4; 5; 6]%Z.
Proof.
  destruct (update_subtracts_gradient blob_3_loaded.1 blob_3_loaded.2
              {| base := 0; shape := [3]; adtype := float64 |}
              {| base := 1; shape := [3]; adtype := float64 |})
    as (Hsub & _); try reflexivity.
  destruct Hsub as (h' & Hu & Hc & _); try reflexivity.
  exists h'. split; [exact Hu|]. rewrite Hc. reflexivity.
Defined.

(** ** Blob: the gradient and the value *)

Section BlobInvariant.
Context {Elt : Type} `{Arith Elt} `{Fillers Elt}.

(** [init_diff] brings the gradient in line with the value, whatever the
    blob held before. *)
Lemma init_diff_establishes (b : Blob) (h : heap Elt) a b' h' :
  init_diff b h = (Ok a, b', h') →
  ∃ d g, _data b' = Some d ∧ _diff b' = Some g
       ∧ shape g = shape d ∧ adtype g = adtype d ∧ a = view g.
Proof.
  unfold init_diff. destruct (_data b) as [d|] eqn:Hd; [|done].
  destruct (_diff b) as [g|] eqn:Hg.
  - destruct (decide _) as [[Hs Ht]|Hne]; intros [= <- <- <-].
    + by exists d, g.
    + exists d. eexists. simpl. rewrite Hd. done.
  - intros [= <- <- <-]. exists d. eexists. simpl. rewrite Hd. done.
Qed.

Lemma init_diff_raises_unchanged (b : Blob) (h : heap Elt) e b' h' :
  init_diff b h = (Raise e, b', h') → b' = b.
Proof.
  unfold init_diff. destruct (_data b) as [d|]; [|by intros [= _ <- _]].
  destruct (_diff b) as [g|]; [destruct (decide _)|]; intros [=].
Qed.

Lemma update_keeps_fields (b : Blob) (h : heap Elt) r b' h' :
  update b h = (r, b', h') → _data b' = _data b ∧ _diff b' = _diff b.
Proof.
  unfold update. destruct (_data b) as [d|] eqn:Hd; [|by intros [= _ <- _]].
  destruct (_diff b) as [g|] eqn:Hg; [|by intros [= _ <- _]].
  destruct (isub d g h); intros [= _ <- _]; simpl; by rewrite ?Hd, ?Hg.
Qed.

Lemma update_keeps_blob (b : Blob) (h : heap Elt) : (update b h).1.2 = b.
Proof.
  unfold update. destruct (_data b) as [d|] eqn:Hd; [|done].
  destruct (_diff b) as [g|] eqn:Hg; [|done].
  destruct (isub d g h); [|done]. simpl. by apply set_data_same.
Qed.

(** C8 (as amended).  [init_diff] on a blob that holds a value returns
    normally and leaves, whatever gradient the blob held before, a
    gradient that is present and has the shape and dtype of the value; the
    value is not touched.  A blob whose gradient matches its value keeps
    that property through [init_diff], through [update] (which leaves both
    fields of the blob as they were), through [clear], and through
    [init_data] when no gradient is present or the call asks for the shape
    and dtype the value already has. *)
Theorem gradient_matches_preserved (b : Blob) (h : heap Elt) :
  (∀ d, _data b = Some d →
     ∃ g h', init_diff b h = (Ok g, set_diff (Some g) b, h')
           ∧ shape g = shape d ∧ adtype g = adtype d
           ∧ grad_matches (set_diff (Some g) b))
  ∧ (grad_matches b →
     grad_matches (init_diff b h).1.2
     ∧ ((update b h).1.2 = b ∧ grad_matches (update b h).1.2)
     ∧ grad_matches (clear b)
     ∧ (∀ s dt,
          _diff b = None ∨ (∃ d, _data b = Some d ∧ shape d = s ∧ adtype d = dt) →
          grad_matches (init_data b s dt h).1.2)).
Proof.
  split.
  - intros d Hd. unfold init_diff. rewrite Hd.
    assert (Hfresh : ∃ g h',
      (let '(a, h1) := np_zeros (shape d) (adtype d) h in
       (Ok (view a), set_diff (Some a) b, h1))
      = (Ok g, set_diff (Some g) b, h')
      ∧ shape g = shape d ∧ adtype g = adtype d
      ∧ grad_matches (set_diff (Some g) b)).
    { eexists _, _. split; [reflexivity|]. simpl. split; [done|]. split; [done|].
      unfold grad_matches. simpl. by rewrite Hd. }
    destruct (_diff b) as [g|] eqn:Hg; [|exact Hfresh].
    destruct (decide _) as [[Hs Ht]|Hne]; [|exact Hfresh].
    exists g, (fill_zero g h). rewrite view_id, set_diff_same by done.
    split; [done|]. split; [done|]. split; [done|].
    unfold grad_matches. by rewrite Hg, Hd.
  - intros Hinv. split; [|split; [|split]].
    + destruct (init_diff b h) as [[[a|e] b'] h'] eqn:Hi; simpl.
      * destruct (init_diff_establishes _ _ _ _ _ Hi) as (d & g & Hd & Hg & Hs & Ht & _).
        unfold grad_matches. by rewrite Hg, Hd.
      * by rewrite (init_diff_raises_unchanged _ _ _ _ _ Hi).
    + split; [apply update_keeps_blob|]. by rewrite update_keeps_blob.
    + done.
    + intros s dt. unfold init_data.
      destruct (_data b) as [d|] eqn:Hd.
      * destruct (decide _) as [[Hs Ht]|Hne]; simpl.
        -- done.
        -- intros [Hno|(d' & [= <-] & Hs & Ht)].
           ++ unfold grad_matches. simpl. by rewrite Hno.
           ++ by destruct Hne.
      * simpl. intros [Hno|(d' & [=] & _)].
        unfold grad_matches. simpl. by rewrite Hno.
Qed.

End BlobInvariant.


(** C8, the claim as stated fails: starting from a blob that satisfies the
    invariant, [init_data] with another shape, [mirror] and [mirror_diff]
    each leave a gradient that does not match the value (or a gradient
    without a value). *)
Lemma gradient_mismatch_reachable :
  bool_decide (grad_matches blob_3.1) = true
  ∧ bool_decide (grad_matches (init_data blob_3.1 [2] float64 blob_3.2).1.2) = false
  ∧ bool_decide (grad_matches (mirror blob_3.1 (SrcArray arr2) None).2) = false
  ∧ bool_decide (grad_matches (mirror_diff blob_3.1 (SrcArray arr2) None).2) = false
  ∧ bool_decide (grad_matches (mirror_diff (new_blob None) (SrcArray arr2) None).2) = false.
Proof. vm_compute. done. Qed.

Lemma gradient_matches_preserved_witness :
  grad_matches (init_diff blob_stale.1 blob_stale.2).1.2
  ∧ grad_matches (init_diff blob_3.1 blob_3.2).1.2
  ∧ grad_matches (update blob_3.1 blob_3.2).1.2
  ∧ grad_matches (clear blob_3.1)
  ∧ grad_matches (init_data blob_3.1 [3] float64 blob_3.2).1.2.
Proof.
  destruct (gradient_matches_preserved blob_stale.1 blob_stale.2) as [Hest _].
  destruct (Hest {| base := 2; shape := [2]; adtype := float64 |} eq_refl)
    as (g & h' & Hrun & _ & _ & Hmatch).
  assert (Hinv : grad_matches blob_3.1) by (vm_compute; done).
  destruct (gradient_matches_preserved blob_3.1 blob_3.2) as [_ Hkeep].
  destruct (Hkeep Hinv) as (Hdiff & [_ Hupd] & Hclear & Hdata).
  split; [rewrite Hrun; exact Hmatch|].
  split; [exact Hdiff|]. split; [exact Hupd|]. split; [exact Hclear|].
  apply Hdata. right. eexists. by vm_compute.
Defined.

(** ** SplitLayer.backward *)

Section SplitFacts.
Context {Elt : Type} `{Arith Elt} `{Fillers Elt}.
Context {Loss : Type} `{LossNum Loss}.

Lemma contents_app_l (h : heap Elt) (v : list Elt) (a : ndarray) :
  base a < length h → contents (h ++ [v]) a = contents h a.
Proof. intros Hlt. unfold contents, heap in *. by rewrite lookup_app_l. Qed.

Lemma contents_insert_eq (h : heap Elt) (a : ndarray) (v : list Elt) :
  base a < length h → contents (<[base a := v]> h) a = v.
Proof. intros Hlt. unfold contents, heap in *. by rewrite list_lookup_insert_eq. Qed.

(** The state [init_diff] leaves when the blob has data: a gradient of the
    value's shape, all zeros, in the old gradient buffer or in a new one. *)
Lemma init_diff_zeroes (b : Blob) (h : heap Elt) (d : ndarray) :
  _data b = Some d →
  (∀ g, _diff b = Some g → base g < length h ∧ well_sized h g) →
  ∃ g' h',
    init_diff b h = (Ok (view g'), set_diff (Some g') b, h')
    ∧ shape g' = shape d ∧ adtype g' = adtype d
    ∧ base g' < length h'
    ∧ contents h' g' = replicate (prod_shape (shape d)) (zero (adtype d))
    ∧ (∀ a, base a ≠ base g' → base a < length h → contents h' a = contents h a)
    ∧ (base g' = length h ∨ ∃ g, _diff b = Some g ∧ base g' = base g).
Proof.
  intros Hd Hwf. unfold init_diff. rewrite Hd.
  destruct (_diff b) as [g|] eqn:Hg.
  - destruct (Hwf g eq_refl) as [Hlt Hsz].
    destruct (decide _) as [[Hs Ht]|Hne].
    + exists g, (fill_zero g h). rewrite set_diff_same by done.
      repeat split; try done.
      * unfold fill_zero, heap in *. by rewrite length_insert.
      * unfold fill_zero. rewrite contents_insert_eq by done.
        unfold well_sized in Hsz. by rewrite Hsz, Hs, Ht.
      * intros a Ha _. unfold fill_zero. apply contents_insert_ne. congruence.
      * right. by exists g.
    + eexists _, _. split; [reflexivity|]. simpl.
      repeat split.
      * unfold heap in *. rewrite length_app. simpl. lia.
      * unfold contents, heap in *. simpl. by rewrite list_lookup_middle.
      * intros a _ Ha. by apply contents_app_l.
      * by left.
  - eexists _, _. split; [reflexivity|]. simpl.
    repeat split.
    + unfold heap in *. rewrite length_app. simpl. lia.
    + unfold contents, heap in *. simpl. by rewrite list_lookup_middle.
    + intros a _ Ha. by apply contents_app_l.
    + by left.
Qed.

(** The loop of [backward]: every top gradient is added, in order, into
    the buffer [dv] views; nothing else changes. *)
Lemma add_tops_accumulates (top : list nat) (m : mem Elt) (dv : ndarray) :
  base dv < length (bufs m) →
  length (contents (bufs m) dv) = prod_shape (shape dv) →
  Forall (λ t, ∃ gt, _diff (deref m t) = Some gt ∧ shape gt = shape dv
                     ∧ inplace_cast_ok (adtype dv) (adtype gt) = true
                     ∧ base gt ≠ base dv ∧ well_sized (bufs m) gt) top →
  add_tops dv top m
  = (Ok tt,
     {| objs := objs m;
        bufs := <[base dv := foldl (λ acc g, zip_with (add (adtype dv)) acc g)
                               (contents (bufs m) dv) (top_grad m <$> top)]>
                  (bufs m) |}).
Proof.
  revert m. induction top as [|t top IH]; intros m Hlt Hlen Hall; simpl.
  - destruct m as [o h]; simpl in *. f_equal. f_equal.
    symmetry. apply list_insert_id. unfold contents, heap in *.
    destruct (lookup_lt_is_Some_2 h (base dv) Hlt) as [v Hv]. by rewrite Hv.
  - apply Forall_cons in Hall as [(gt & Hg & Hs & Hcast & Hne & Hsz) Hall].
    unfold diff. rewrite Hg. unfold iadd.
    rewrite inplace_same_shape by done.
    change (contents (bufs m) (view gt)) with (contents (bufs m) gt).
    set (h1 := <[base dv := _]> (bufs m)).
    rewrite IH; simpl.
    + f_equal. f_equal. subst h1.
      rewrite contents_insert_zip.
      unfold heap in *. rewrite list_insert_insert_eq. f_equal.
      unfold top_grad at 2. rewrite Hg. f_equal.
      apply list_fmap_ext. intros i t' Ht'.
      rewrite Forall_lookup in Hall.
      destruct (Hall i t' Ht') as (gt' & Hg' & _ & _ & Hne' & _).
      unfold top_grad, deref in *; simpl. rewrite Hg'.
      by apply contents_insert_ne.
    + subst h1. unfold heap in *. by rewrite length_insert.
    + subst h1. rewrite contents_insert_zip, length_zip_with.
      unfold well_sized in Hsz. rewrite Hlen, Hsz, Hs. lia.
    + eapply Forall_impl; [exact Hall|]. simpl.
      intros t' (gt' & Hg' & Hs' & Hcast' & Hne' & Hsz'). exists gt'.
      repeat split; try done.
      unfold well_sized in *. subst h1. by rewrite contents_insert_ne.
Qed.

(** C6 (as amended).  One bottom blob with data, tops that each hold a
    gradient of the bottom value's shape, of an element type that can be
    cast into the bottom value's in place, in a buffer of their own: with
    [propagate_down] the bottom gradient becomes the elementwise sum of the
    top gradients (added in order onto zeros), no other buffer changes and
    the loss contribution is [0.]; without [propagate_down] nothing is
    touched. *)
Theorem split_backward_sums (m : mem Elt) (rb : nat) (top : list nat)
    (bb : Blob) (d : ndarray) :
  objs m !! rb = Some bb → _data bb = Some d →
  (∀ g, _diff bb = Some g → base g < length (bufs m) ∧ well_sized (bufs m) g) →
  Forall (λ t, t ≠ rb ∧ ∃ gt,
            _diff (deref m t) = Some gt ∧ shape gt = shape d
            ∧ inplace_cast_ok (adtype d) (adtype gt) = true
            ∧ base gt < length (bufs m) ∧ well_sized (bufs m) gt
            ∧ ∀ g, _diff bb = Some g → base gt ≠ base g) top →
  (∃ g' m',
     split_backward (Loss:=Loss) [rb] top true m = (Ok loss0, m')
     ∧ objs m' = <[rb := set_diff (Some g') bb]> (objs m)
     ∧ shape g' = shape d ∧ adtype g' = adtype d
     ∧ contents (bufs m') g'
       = sum_grads (adtype d) (prod_shape (shape d)) (top_grad m <$> top)
     ∧ (∀ a, base a ≠ base g' → base a < length (bufs m) →
          contents (bufs m') a = contents (bufs m) a))
  ∧ ∀ bottom, split_backward (Loss:=Loss) bottom top false m = (Ok loss0, m).
Proof.
  intros Hrb Hd Hwf Htops. split; [|done].
  destruct (init_diff_zeroes bb (bufs m) d Hd Hwf)
    as (g' & h' & Hinit & Hs & Ht & Hlt & Hzero & Hframe & Hwhere).
  assert (Hfresh : ∀ t gt, t ∈ top → _diff (deref m t) = Some gt →
                   base gt ≠ base g' ∧ base gt < length (bufs m)).
  { intros t gt Hin Hgt. rewrite Forall_forall in Htops.
    destruct (Htops t Hin) as (_ & gt' & Hgt' & _ & _ & Hlt' & _ & Hal).
    rewrite Hgt in Hgt'. injection Hgt' as <-. split; [|done].
    destruct Hwhere as [Hnew|(g & Hg & Heq)]; [lia|].
    rewrite Heq. by apply Hal. }
  set (m1 := store rb (set_diff (Some g') bb) h' m).
  assert (Hderef : ∀ t, t ∈ top → deref m1 t = deref m t).
  { intros t Hin. rewrite Forall_forall in Htops.
    destruct (Htops t Hin) as (Hne & _).
    unfold deref, m1, store; simpl. by rewrite list_lookup_insert_ne. }
  assert (Hgrad : top_grad m1 <$> top = top_grad m <$> top).
  { apply list_fmap_ext. intros i t Hi.
    assert (Hin : t ∈ top) by (by eapply list_elem_of_lookup_2).
    unfold top_grad. rewrite (Hderef t Hin).
    destruct (_diff (deref m t)) as [gt|] eqn:Hgt; [|done].
    destruct (Hfresh t gt Hin Hgt). by apply Hframe. }
  exists g'. eexists.
  unfold split_backward, deref. rewrite Hrb. simpl. rewrite Hinit. fold m1.
  rewrite (add_tops_accumulates top m1 (view g')); simpl.
  - split; [reflexivity|]. simpl. split; [done|]. split; [done|]. split; [done|].
    split.
    + rewrite (contents_insert_eq h' g') by done.
      change (contents h' (view g')) with (contents h' g').
      rewrite Hzero, Hgrad, Ht. reflexivity.
    + intros a Hne Ha. rewrite contents_insert_ne by congruence.
      by apply Hframe.
  - done.
  - change (contents h' (view g')) with (contents h' g').
    rewrite Hzero, length_replicate. by rewrite Hs.
  - rewrite Forall_forall in Htops |- *. intros t Hin.
    destruct (Htops t Hin) as (_ & gt & Hgt & Hsg & Hcast & _ & Hsz & _).
    destruct (Hfresh t gt Hin Hgt) as [Hne Hlt'].
    exists gt. rewrite (Hderef t Hin).
    split; [done|]. split; [simpl; congruence|].
    split; [simpl; by rewrite Ht|]. split; [done|].
    unfold well_sized in *. by rewrite Hframe.
Qed.

End SplitFacts.

(** C6, the claim as stated fails: a top blob that holds no gradient (the
    state [forward] leaves) makes [backward] raise, although the bottom has
    data. *)
Lemma split_backward_without_top_gradient :
  has_data (deref split_mem_no_grad 0) = true
  ∧ (split_backward (Loss:=Z) [0] [1] true split_mem_no_grad).1
    = Raise AttributeError.
Proof. vm_compute. done. Qed.

Lemma split_backward_sums_witness :
  ∃ g' m',
    split_backward (Loss:=Z) [0] [1; 2] true split_mem = (Ok 0%Z, m')
    ∧ _diff (deref m' 0) = Some g'
    ∧ contents (bufs m') g' = [13; 24]%Z.
Proof.
  destruct (split_backward_sums (Loss:=Z) split_mem 0 [1; 2]
              {| _data := Some {| base := 0; shape := [2]; adtype := float64 |};
                 _diff := None; _filler := None |}
              {| base := 0; shape := [2]; adtype := float64 |})
    as [(g' & m' & Hrun & Hobjs & _ & _ & Hsum & _) _].
  - reflexivity.
  - reflexivity.
  - intros g Hg. discriminate Hg.
  - repeat constructor; try (simpl; lia).
    + eexists. repeat split; try reflexivity; try (simpl; lia).
      intros g Hg. discriminate Hg.
    + eexists. repeat split; try reflexivity; try (simpl; lia).
      intros g Hg. discriminate Hg.
  - exists g', m'. split; [exact Hrun|]. split.
    + unfold deref. rewrite Hobjs. reflexivity.
    + rewrite Hsum. reflexivity.
Defined.

(** ** Net.add_layer *)

Section AddLayer.
Implicit Types (self : Net) (layer : Layer).

Lemma has_key_true {V} (d : gmap string V) k : has_key d k = true ↔ is_Some (d !! k).
Proof. unfold has_key. apply bool_decide_eq_true. Qed.

Lemma has_key_false {V} (d : gmap string V) k : has_key d k = false ↔ d !! k = None.
Proof.
  unfold has_key. rewrite bool_decide_eq_false. by rewrite eq_None_not_Some.
Qed.

Lemma first_known_blob_Some self ps b :
  first_known_blob self ps = Some b → b ∈ ps ∧ is_Some (blobs self !! b).
Proof.
  unfold first_known_blob. intros Hf.
  apply fmap_Some in Hf as ([i x] & Hfind & ->).
  apply list_find_Some in Hfind as (Hi & HP & _). simpl.
  split; [by eapply list_elem_of_lookup_2|done].
Qed.

Lemma first_known_blob_None self ps :
  first_known_blob self ps = None ↔ ∀ b, b ∈ ps → blobs self !! b = None.
Proof.
  unfold first_known_blob. rewrite fmap_None, list_find_None, Forall_forall.
  split; intros Hall b Hb; specialize (Hall b Hb).
  - by apply eq_None_not_Some.
  - by apply eq_None_not_Some.
Qed.

(** [add_blobs] only ever changes [blobs], and only by adding names. *)
Lemma add_blobs_frame names self r self' :
  add_blobs names self = (r, self') →
  layers self' = layers self ∧ _finished self' = _finished self
  ∧ _needs self' = _needs self ∧ _provides self' = _provides self
  ∧ _need_count self' = _need_count self
  ∧ (∀ b, is_Some (blobs self !! b) → is_Some (blobs self' !! b)).
Proof.
  revert self. induction names as [|b names IH]; intros self; simpl.
  - intros [= <- <-]. done.
  - destruct (has_key (layers self) b); [intros [= <- <-]; done|].
    destruct (has_key (blobs self) b) eqn:Hb; [apply IH|].
    intros Hrec. apply IH in Hrec as (Hl & Hf & Hn & Hp & Hc & Hb'). simpl in *.
    repeat split; try done.
    intros b' Hsome. apply Hb'.
    destruct (decide (b = b')) as [->|Hne].
    + rewrite lookup_insert_eq. by eexists.
    + by rewrite lookup_insert_ne.
Qed.

Lemma add_blobs_ok names self :
  (∀ b, b ∈ names → layers self !! b = None) →
  ∃ self', add_blobs names self = (Ok tt, self')
         ∧ ∀ b, b ∈ names → is_Some (blobs self' !! b).
Proof.
  revert self. induction names as [|b names IH]; intros self Hfree; simpl.
  - eexists. split; [done|]. intros b Hb. by apply elem_of_nil in Hb.
  - rewrite (proj2 (has_key_false _ _)) by (apply Hfree; left).
    assert (Hstep : ∀ s, layers s = layers self → is_Some (blobs s !! b) →
              ∃ self', add_blobs names s = (Ok tt, self')
                     ∧ ∀ b', b' ∈ b :: names → is_Some (blobs self' !! b')).
    { intros s Hl Hb.
      destruct (IH s) as (self' & Hrun & Hin).
      { intros b' Hb'. rewrite Hl. apply Hfree. by right. }
      exists self'. split; [done|]. intros b' Hb'.
      apply elem_of_cons in Hb' as [->|Hb']; [|by apply Hin].
      by apply (add_blobs_frame _ _ _ _ Hrun). }
    destruct (has_key (blobs self) b) eqn:Hb.
    + apply Hstep; [done|]. by apply has_key_true.
    + apply Hstep; [done|]. simpl. rewrite lookup_insert_eq. by eexists.
Qed.

Lemma add_blobs_raises names self b :
  b ∈ names → is_Some (layers self !! b) →
  ∃ msg self', add_blobs names self = (Raise (InvalidNetError msg), self').
Proof.
  revert self. induction names as [|b' names IH]; intros self Hin Hl; simpl.
  - by apply elem_of_nil in Hin.
  - destruct (has_key (layers self) b') eqn:Hb'; [by eexists _, _|].
    apply elem_of_cons in Hin as [->|Hin].
    { apply has_key_false in Hb'. rewrite Hb' in Hl. by destruct Hl. }
    destruct (has_key (blobs self) b'); by apply IH.
Qed.

(** What the loop over [needs + provides] raises is always an
    [InvalidNetError]. *)
Lemma add_blobs_raises_invalid names : ∀ self e self',
  add_blobs names self = (Raise e, self') → ∃ msg, e = InvalidNetError msg.
Proof.
  induction names as [|n names IH]; intros self e self'; simpl; [done|].
  destruct (has_key (layers self) n); [intros [= <- _]; by eexists|].
  destruct (has_key (blobs self) n); apply IH.
Qed.

Lemma is_tuple_mixed needs provides :
  xorb (is_tuple needs) (is_tuple provides) = true
  ↔ is_tuple needs ≠ is_tuple provides.
Proof. destruct (is_tuple needs), (is_tuple provides); simpl; split; done. Qed.

Lemma is_tuple_same needs provides :
  xorb (is_tuple needs) (is_tuple provides) = false
  ↔ is_tuple needs = is_tuple provides.
Proof. destruct (is_tuple needs), (is_tuple provides); simpl; split; done. Qed.

(** C10.  When the name of the new layer is free and one of its provided
    names is already a blob of the net, [add_layer] raises the "already
    provided" error, and the net it leaves behind holds the new layer and
    is marked unfinished; nothing else was changed. *)
Theorem add_layer_failure_keeps_layer self layer needs provides :
  layers self !! name layer = None → blobs self !! name layer = None →
  (∃ b, b ∈ names_of provides ∧ is_Some (blobs self !! b)) →
  ∃ b self',
    add_layer layer needs provides self
    = (Raise (InvalidNetError
                ("Blob " +:+ b +:+ " already provided by another layer.")),
       self')
    ∧ b ∈ names_of provides ∧ is_Some (blobs self !! b)
    ∧ layers self' = <[name layer := layer]> (layers self)
    ∧ _finished self' = false
    ∧ blobs self' = blobs self ∧ _needs self' = _needs self
    ∧ _provides self' = _provides self ∧ _need_count self' = _need_count self.
Proof.
  intros Hl Hb (b0 & Hin & Hknown). unfold add_layer. simpl.
  rewrite (proj2 (has_key_false _ _) Hl), (proj2 (has_key_false _ _) Hb). simpl.
  destruct (first_known_blob _ (names_of provides)) as [b|] eqn:Hfind.
  - apply first_known_blob_Some in Hfind as [Hbin Hbk]. simpl in Hbk.
    exists b. eexists. split; [reflexivity|]. simpl. done.
  - rewrite first_known_blob_None in Hfind. simpl in Hfind.
    rewrite (Hfind b0 Hin) in Hknown. by destruct Hknown.
Qed.

(** The exact condition under which [add_layer] raises. *)
Lemma add_layer_raises_iff self layer needs provides :
  (∃ msg self',
     add_layer layer needs provides self = (Raise (InvalidNetError msg), self'))
  ↔ is_Some (layers self !! name layer) ∨ is_Some (blobs self !! name layer)
    ∨ (∃ b, b ∈ names_of provides ∧ is_Some (blobs self !! b))
    ∨ (is_tuple needs = is_tuple provides
       ∧ ∃ b, b ∈ names_of needs ++ names_of provides
              ∧ (is_Some (layers self !! b) ∨ b = name layer)).
Proof.
  unfold add_layer. cbn zeta. cbn [layers blobs set_finished].
  destruct (has_key (layers self) (name layer)) eqn:Hl; cbn [orb].
  { apply has_key_true in Hl. split; [by left|]. by eexists _, _. }
  destruct (has_key (blobs self) (name layer)) eqn:Hb.
  { apply has_key_true in Hb. split; [by right; left|]. by eexists _, _. }
  apply has_key_false in Hl, Hb.
  destruct (first_known_blob _ (names_of provides)) as [b|] eqn:Hfind.
  { apply first_known_blob_Some in Hfind as [Hin Hk]. simpl in Hk.
    split; [|by eexists _, _]. intros _. right; right; left. by exists b. }
  rewrite first_known_blob_None in Hfind. simpl in Hfind.
  destruct (xorb (is_tuple needs) (is_tuple provides)) eqn:Hmix.
  { apply is_tuple_mixed in Hmix. split.
    - intros (msg & self' & Hrun). discriminate Hrun.
    - intros [Hc|[Hc|[(b & Hin & Hk)|(Hk & _)]]].
      + rewrite Hl in Hc. by destruct Hc.
      + rewrite Hb in Hc. by destruct Hc.
      + rewrite (Hfind b Hin) in Hk. by destruct Hk.
      + done. }
  apply is_tuple_same in Hmix.
  set (self1 := set_layers _ _).
  assert (Hlayers1 : ∀ b, is_Some (layers self1 !! b)
                          ↔ is_Some (layers self !! b) ∨ b = name layer).
  { intros b. subst self1. simpl. destruct (decide (name layer = b)) as [<-|Hne].
    - rewrite lookup_insert_eq. split; [by right|by eexists].
    - rewrite lookup_insert_ne by done. split; [by left|].
      intros [?|?]; [done|congruence]. }
  split.
  - intros (msg & self' & Hrun).
    destruct (decide (Exists (λ b, is_Some (layers self1 !! b))
                        (names_of needs ++ names_of provides))) as [Hex|Hno].
    { apply Exists_exists in Hex as (b & Hin & Hsome).
      right; right; right. split; [done|]. exists b. split; [done|].
      by apply Hlayers1. }
    destruct (add_blobs_ok (names_of needs ++ names_of provides) self1)
      as (self2 & Hok & _).
    { intros b Hin. apply eq_None_not_Some. intros Hsome. apply Hno.
      apply Exists_exists. by exists b. }
    rewrite Hok in Hrun. discriminate Hrun.
  - intros [Hc|[Hc|[(b & Hin & Hk)|(_ & b & Hin & Hc)]]].
    + rewrite Hl in Hc. by destruct Hc.
    + rewrite Hb in Hc. by destruct Hc.
    + rewrite (Hfind b Hin) in Hk. by destruct Hk.
    + destruct (add_blobs_raises _ self1 b Hin) as (msg & self' & Hr).
      { by apply Hlayers1. }
      rewrite Hr. by eexists _, _.
Qed.

(** [needs + provides] with a tuple on one side only: when the checks
    before it pass, the call raises [TypeError]; by then the layer is
    registered and the net is marked unfinished. *)
Lemma add_layer_mixed self layer needs provides :
  layers self !! name layer = None → blobs self !! name layer = None →
  (∀ b, b ∈ names_of provides → blobs self !! b = None) →
  is_tuple needs ≠ is_tuple provides →
  add_layer layer needs provides self
  = (Raise TypeError,
     set_layers (<[name layer := layer]> (layers self)) (set_finished false self)).
Proof.
  intros Hl Hb Hps Hmix. unfold add_layer. cbn zeta. cbn [layers blobs set_finished].
  rewrite (proj2 (has_key_false _ _) Hl), (proj2 (has_key_false _ _) Hb).
  cbn [orb].
  rewrite (proj2 (first_known_blob_None _ _)) by (intros b Hin; by apply Hps).
  by rewrite (proj2 (is_tuple_mixed _ _) Hmix).
Qed.

Lemma add_layer_unmixed self layer needs provides :
  layers self !! name layer = None → blobs self !! name layer = None →
  (∀ b, b ∈ names_of provides → blobs self !! b = None) →
  (∀ b, b ∈ names_of needs ++ names_of provides →
        layers self !! b = None ∧ b ≠ name layer) →
  is_tuple needs = is_tuple provides →
  ∃ self', add_layer layer needs provides self = (Ok tt, self').
Proof.
  intros Hl Hb Hps Hnames Hmix. unfold add_layer. cbn zeta.
  cbn [layers blobs set_finished].
  rewrite (proj2 (has_key_false _ _) Hl), (proj2 (has_key_false _ _) Hb).
  cbn [orb].
  rewrite (proj2 (first_known_blob_None _ _)) by (intros b Hin; by apply Hps).
  rewrite (proj2 (is_tuple_same _ _) Hmix).
  destruct (add_blobs_ok (names_of needs ++ names_of provides)
              (set_layers (<[name layer := layer]> (layers self))
                 (set_finished false self))) as (self2 & Hok & _).
  { intros b Hin. simpl. destruct (Hnames b Hin) as [Hn Hne].
    by rewrite lookup_insert_ne. }
  rewrite Hok. by eexists.
Qed.

(** The exact condition under which [add_layer] raises [TypeError]. *)
Lemma add_layer_type_error_iff self layer needs provides :
  (∃ self', add_layer layer needs provides self = (Raise TypeError, self'))
  ↔ layers self !! name layer = None ∧ blobs self !! name layer = None
    ∧ (∀ b, b ∈ names_of provides → blobs self !! b = None)
    ∧ is_tuple needs ≠ is_tuple provides.
Proof.
  split.
  - unfold add_layer. cbn zeta. cbn [layers blobs set_finished].
    destruct (has_key (layers self) (name layer)) eqn:Hl; cbn [orb].
    { intros (self' & Hrun). discriminate Hrun. }
    destruct (has_key (blobs self) (name layer)) eqn:Hb.
    { intros (self' & Hrun). discriminate Hrun. }
    apply has_key_false in Hl, Hb.
    destruct (first_known_blob _ (names_of provides)) as [b|] eqn:Hfind.
    { intros (self' & Hrun). discriminate Hrun. }
    rewrite first_known_blob_None in Hfind. simpl in Hfind.
    destruct (xorb (is_tuple needs) (is_tuple provides)) eqn:Hmix.
    { intros _. by apply is_tuple_mixed in Hmix. }
    destruct (add_blobs _ _) as [[[]|e] s] eqn:Hadd.
    { intros (self' & Hrun). discriminate Hrun. }
    destruct (add_blobs_raises_invalid _ _ _ _ Hadd) as [msg ->].
    intros (self' & Hrun). discriminate Hrun.
  - intros (Hl & Hb & Hps & Hmix). eexists. by apply add_layer_mixed.
Qed.

(** C4 (as amended).  [add_layer] raises a configuration error when the
    name of the new layer is already a layer or a blob name, when one of
    its provided names is already provided by a registered layer, or when
    [needs] and [provides] are both tuples or neither is, and one of their
    names is the name of a layer, the new one included.  When the layer's
    name is free, none of the provided names is a blob of the net yet, and
    none of the needs/provides names is a layer name or the new layer's
    own, it succeeds if [needs] and [provides] are both tuples or neither
    is; if exactly one of them is a tuple, it raises [TypeError] at
    [needs + provides], with the layer registered and no blob created. *)
Theorem add_layer_validation self layer needs provides :
  provided_are_blobs self →
  ((is_Some (layers self !! name layer) ∨ is_Some (blobs self !! name layer)
    ∨ (∃ b l bs, b ∈ names_of provides ∧ _provides self !! l = Some bs ∧ b ∈ bs)
    ∨ (is_tuple needs = is_tuple provides
       ∧ ∃ b, b ∈ names_of needs ++ names_of provides
              ∧ (is_Some (layers self !! b) ∨ b = name layer)))
   → ∃ msg self',
       add_layer layer needs provides self = (Raise (InvalidNetError msg), self'))
  ∧ (layers self !! name layer = None → blobs self !! name layer = None →
     (∀ b, b ∈ names_of provides → blobs self !! b = None) →
     (∀ b, b ∈ names_of needs ++ names_of provides →
           layers self !! b = None ∧ b ≠ name layer) →
     (is_tuple needs = is_tuple provides →
      ∃ self', add_layer layer needs provides self = (Ok tt, self'))
     ∧ (is_tuple needs ≠ is_tuple provides →
        ∃ self', add_layer layer needs provides self = (Raise TypeError, self')
                 ∧ layers self' = <[name layer := layer]> (layers self)
                 ∧ _finished self' = false
                 ∧ blobs self' = blobs self)).
Proof.
  intros Hinv. split.
  - intros Hcond. apply add_layer_raises_iff.
    destruct Hcond as [?|[?|[(b & l & bs & Hin & Hl & Hb)|?]]]; eauto.
    right; right; left. exists b. split; [done|]. by eapply Hinv.
  - intros Hl Hb Hps Hnames. split; intros Hmix.
    + by apply add_layer_unmixed.
    + eexists. split; [by apply add_layer_mixed|]. done.
Qed.

Lemma new_net_provided_are_blobs nm : provided_are_blobs (new_net nm).
Proof. intros l bs b Hl. simpl in Hl. by rewrite lookup_empty in Hl. Qed.

(** [provided_are_blobs] holds of every net built by [add_layer] calls,
    whether they succeed or raise. *)
Lemma add_layer_keeps_provided_are_blobs self layer needs provides :
  provided_are_blobs self →
  provided_are_blobs (add_layer layer needs provides self).2.
Proof.
  intros Hinv. unfold add_layer. simpl.
  destruct (has_key (layers self) (name layer) || has_key (blobs self) (name layer));
    [exact Hinv|].
  destruct (first_known_blob _ _); [exact Hinv|].
  destruct (xorb _ _); [exact Hinv|].
  destruct (add_blobs _ _) as [[[]|e] self2] eqn:Hadd; simpl.
  - destruct (add_blobs_frame _ _ _ _ Hadd) as (_ & _ & _ & Hp & _ & Hmono).
    simpl in *.
    destruct (add_blobs_ok (names_of needs ++ names_of provides)
                (set_layers (<[name layer := layer]> (layers self))
                   (set_finished false self))) as (s2 & Hok & Hin).
    { intros b Hb. apply eq_None_not_Some. intros Hsome.
      destruct (add_blobs_raises _ _ b Hb Hsome) as (msg & s' & Hr).
      rewrite Hr in Hadd. discriminate Hadd. }
    rewrite Hok in Hadd. injection Hadd as <-.
    intros l bs b Hl Hb. simpl in *. rewrite Hp in Hl. simpl in Hl.
    destruct (decide (name layer = l)) as [<-|Hne].
    + rewrite lookup_insert_eq in Hl. injection Hl as <-.
      apply Hin. apply elem_of_app. by right.
    + rewrite lookup_insert_ne in Hl by done. apply Hmono. by eapply Hinv.
  - destruct (add_blobs_frame _ _ _ _ Hadd) as (_ & _ & _ & Hp & _ & Hmono).
    intros l bs b Hl Hb. rewrite Hp in Hl. apply Hmono. by eapply Hinv.
Qed.

End AddLayer.

(** C4, the claim as stated fails: on the empty net a layer [a] that
    provides a blob [a] violates none of the three conditions (no name is
    in use, nothing is provided, there is no layer yet), and [add_layer]
    raises. *)
Lemma add_layer_own_name_raises :
  layers net0 = ∅ ∧ blobs net0 = ∅ ∧ _provides net0 = ∅
  ∧ (add_layer (layer_named "a") ArgNone (ArgStr "a") net0).1
    = Raise (InvalidNetError "Blob name found as a layer name: a").
Proof. repeat split. Qed.

(** A consumer registered before the producer: no layer provides [x], yet
    registering the layer that does is refused as "already provided". *)
Lemma add_layer_consumer_first_raises :
  _provides net_b !! "B" = Some [] ∧ size (_provides net_b) = 1
  ∧ (add_layer (layer_named "A") ArgNone (ArgStr "x") net_b).1
    = Raise (InvalidNetError "Blob x already provided by another layer.").
Proof. vm_compute. done. Qed.

(** A tuple for [needs] with [provides] left out, as the docstring
    asks for: the call raises [TypeError], and the layer stays. *)
Lemma add_layer_tuple_needs_raises :
  add_layer (layer_named "B") (ArgTuple ["x"]) ArgNone net_a
  = (Raise TypeError,
     set_layers (<["B" := layer_named "B"]> (layers net_a)) net_a).
Proof. by vm_compute. Qed.

Lemma add_layer_validation_witness :
  (∃ msg self',
     add_layer (layer_named "B") ArgNone (ArgStr "x") net_a
     = (Raise (InvalidNetError msg), self'))
  ∧ (∃ self',
       add_layer (layer_named "C") (ArgStr "x") (ArgStr "y") net_a
       = (Ok tt, self'))
  ∧ (∃ self',
       add_layer (layer_named "C") (ArgTuple ["x"]) (ArgList ["y"]) net_a
       = (Raise TypeError, self')
       ∧ layers self' = <["C" := layer_named "C"]> (layers net_a)
       ∧ _finished self' = false
       ∧ blobs self' = blobs net_a).
Proof.
  assert (Hinv : provided_are_blobs net_a).
  { apply add_layer_keeps_provided_are_blobs, new_net_provided_are_blobs. }
  split; [|split].
  - apply (add_layer_validation net_a (layer_named "B") ArgNone (ArgStr "x") Hinv).
    right; right; left. exists "x", "A", ["x"].
    split; [by apply list_elem_of_singleton|]. split; [by vm_compute|].
    by apply list_elem_of_singleton.
  - apply (add_layer_validation net_a (layer_named "C") (ArgStr "x") (ArgStr "y") Hinv).
    + by vm_compute.
    + by vm_compute.
    + intros b Hb. apply list_elem_of_singleton in Hb as ->. by vm_compute.
    + intros b Hb. simpl in Hb.
      apply elem_of_cons in Hb as [->|Hb];
        [|apply list_elem_of_singleton in Hb as ->];
        (split; [by vm_compute|intros [=]]).
    + reflexivity.
  - apply (add_layer_validation net_a (layer_named "C") (ArgTuple ["x"])
             (ArgList ["y"]) Hinv).
    + by vm_compute.
    + by vm_compute.
    + intros b Hb. apply list_elem_of_singleton in Hb as ->. by vm_compute.
    + intros b Hb. simpl in Hb.
      apply elem_of_cons in Hb as [->|Hb];
        [|apply list_elem_of_singleton in Hb as ->];
        (split; [by vm_compute|intros [=]]).
    + discriminate.
Defined.

Lemma add_layer_failure_keeps_layer_witness :
  ∃ b self',
    add_layer (layer_named "A") ArgNone (ArgStr "x") net_b
    = (Raise (InvalidNetError
                ("Blob " +:+ b +:+ " already provided by another layer.")),
       self')
    ∧ layers self' !! "A" = Some (layer_named "A")
    ∧ _finished self' = false.
Proof.
  destruct (add_layer_failure_keeps_layer net_b (layer_named "A")
              ArgNone (ArgStr "x"))
    as (b & self' & Hrun & _ & _ & Hl & Hf & _).
  - by vm_compute.
  - by vm_compute.
  - exists "x". split; [by apply list_elem_of_singleton|].
    vm_compute. by eexists.
  - exists b, self'. split; [exact Hrun|]. split; [|exact Hf].
    rewrite Hl. apply lookup_insert_eq.
Defined.

(** ** Net.finish: the backward flags *)

Section Flags.
Variable lys : gmap string Layer.

Lemma any_need_backward_existsb g ps :
  (∀ p, p ∈ ps → is_ok (get_attr g p "need_backward") = true) →
  any_need_backward g ps = Ok (existsb (nb g) ps).
Proof.
  induction ps as [|p ps IH]; intros Hset; simpl; [done|].
  assert (Hp : is_ok (get_attr g p "need_backward") = true) by (apply Hset; by left).
  unfold nb at 1. destruct (get_attr g p "need_backward") as [[]|]; try done.
  simpl. apply IH. intros q Hq. apply Hset. by right.
Qed.

Lemma get_attr_set_attr_eq g n k v g' :
  set_attr g n k v = Ok g' → get_attr g' n k = Ok v.
Proof.
  unfold set_attr, get_attr. destruct (node g !! n) as [attrs|]; [|done].
  intros [= <-]. simpl. by rewrite !lookup_insert_eq.
Qed.

Lemma get_attr_set_attr_ne g n k v g' m k' :
  set_attr g n k v = Ok g' → m ≠ n ∨ k' ≠ k → get_attr g' m k' = get_attr g m k'.
Proof.
  unfold set_attr, get_attr. destruct (node g !! n) as [attrs|] eqn:Hn; [|done].
  intros [= <-] Hne. simpl.
  destruct (decide (n = m)) as [->|Hnm].
  - rewrite lookup_insert_eq, Hn. destruct Hne as [?|Hk]; [done|].
    by rewrite lookup_insert_ne.
  - by rewrite lookup_insert_ne.
Qed.

Lemma set_attr_edges g n k v g' : set_attr g n k v = Ok g' → edges g' = edges g.
Proof.
  unfold set_attr. destruct (node g !! n); [|done]. by intros [= <-].
Qed.

Lemma set_attr_node g n k v g' m :
  set_attr g n k v = Ok g' → is_Some (node g !! m) → is_Some (node g' !! m).
Proof.
  unfold set_attr. destruct (node g !! n) as [attrs|] eqn:Hn; [|done].
  intros [= <-] Hm. simpl. destruct (decide (n = m)) as [->|Hne].
  - rewrite lookup_insert_eq. by eexists.
  - by rewrite lookup_insert_ne.
Qed.

Lemma set_attr_ok g n k v : is_Some (node g !! n) → ∃ g', set_attr g n k v = Ok g'.
Proof. intros [attrs Hn]. unfold set_attr. rewrite Hn. by eexists. Qed.

(** One step of the loop on a node whose predecessors all carry a flag. *)
Lemma flag_step_spec g n :
  is_Some (node g !! n) →
  (∀ p, p ∈ predecessors g n → is_ok (get_attr g p "need_backward") = true) →
  ∃ g', flag_step lys g n = Ok g'
      ∧ edges g' = edges g
      ∧ (∀ m, is_Some (node g !! m) → is_Some (node g' !! m))
      ∧ (∀ m k, m ≠ n → get_attr g' m k = get_attr g m k)
      ∧ get_attr g' n "need_backward" = Ok (pred_nb g n || own_nb lys n)
      ∧ (is_Some (lys !! n) → get_attr g' n "propagate_down" = Ok (pred_nb g n)).
Proof.
  intros Hn Hset. unfold flag_step, own_nb.
  rewrite (any_need_backward_existsb _ _ Hset). simpl. fold (pred_nb g n).
  destruct (lys !! n) as [layer|] eqn:Hl.
  - destruct (set_attr_ok g n "need_backward"
                (pred_nb g n || has_unfrozen_params layer) Hn) as [g1 H1].
    rewrite H1. simpl.
    destruct (set_attr_ok g1 n "propagate_down" (pred_nb g n)
                (set_attr_node _ _ _ _ _ _ H1 Hn)) as [g2 H2].
    exists g2. split; [done|].
    split; [by rewrite (set_attr_edges _ _ _ _ _ H2), (set_attr_edges _ _ _ _ _ H1)|].
    split; [intros m Hm; eauto using set_attr_node|].
    split.
    { intros m k Hne.
      rewrite (get_attr_set_attr_ne _ _ _ _ _ m k H2) by (by left).
      by rewrite (get_attr_set_attr_ne _ _ _ _ _ m k H1) by (by left). }
    split.
    + rewrite (get_attr_set_attr_ne _ _ _ _ _ n "need_backward" H2) by (by right).
      by apply (get_attr_set_attr_eq _ _ _ _ _ H1).
    + intros _. by apply (get_attr_set_attr_eq _ _ _ _ _ H2).
  - destruct (set_attr_ok g n "need_backward" (pred_nb g n) Hn) as [g1 H1].
    exists g1. split; [done|].
    split; [by apply (set_attr_edges _ _ _ _ _ H1)|].
    split; [intros m Hm; eauto using set_attr_node|].
    split.
    { intros m k Hne. by rewrite (get_attr_set_attr_ne _ _ _ _ _ m k H1) by (by left). }
    split.
    + rewrite orb_false_r. by apply (get_attr_set_attr_eq _ _ _ _ _ H1).
    + intros [? [=]].
Qed.

Lemma existsb_ext_in {A} (f f' : A → bool) (l : list A) :
  (∀ x, x ∈ l → f x = f' x) → existsb f l = existsb f' l.
Proof.
  induction l as [|x l IH]; intros Hext; simpl; [done|].
  rewrite (Hext x) by (by left). f_equal. apply IH.
  intros y Hy. apply Hext. by right.
Qed.

(** Flags of a node depend on the graph only through the node and its
    predecessors. *)
Lemma flags_ok_ext g g' n :
  edges g' = edges g →
  (∀ k, get_attr g' n k = get_attr g n k) →
  (∀ p k, p ∈ predecessors g n → get_attr g' p k = get_attr g p k) →
  flags_ok lys g n → flags_ok lys g' n.
Proof.
  intros He Hn Hp [Hnb Hpd].
  assert (Hpreds : predecessors g' n = predecessors g n).
  { unfold predecessors. by rewrite He. }
  assert (Hpred : pred_nb g' n = pred_nb g n).
  { unfold pred_nb. rewrite Hpreds. apply existsb_ext_in.
    intros p Hin. unfold nb. by rewrite Hp. }
  split.
  - by rewrite Hn, Hpred.
  - intros Hl. rewrite Hn, Hpred. by apply Hpd.
Qed.

(** The loop, by induction on the nodes still to visit: the nodes [seen]
    already carry their final flags, and so do their predecessors. *)
Lemma flag_pass_inv rest : ∀ seen g,
  NoDup (seen ++ rest) →
  (∀ n, n ∈ rest → is_Some (node g !! n)) →
  topo_sorted g seen rest →
  (∀ m, m ∈ seen → flags_ok lys g m ∧ ∀ p, p ∈ predecessors g m → p ∈ seen) →
  ∃ g', flag_pass lys rest g = (Ok tt, g')
      ∧ edges g' = edges g
      ∧ ∀ m, m ∈ seen ++ rest → flags_ok lys g' m.
Proof.
  induction rest as [|n rest IH]; intros seen g Hnd Hnodes Htopo Hseen; simpl.
  - exists g. split; [done|]. split; [done|].
    intros m Hm. rewrite app_nil_r in Hm. by apply Hseen.
  - destruct Htopo as [Hpreds Htopo].
    assert (Hn_new : n ∉ seen).
    { apply NoDup_app in Hnd as (_ & Hdisj & _). intros Hin.
      apply (Hdisj n Hin). by left. }
    destruct (flag_step_spec g n) as (g1 & Hstep & He & Hnode & Hother & Hnb & Hpd).
    { apply Hnodes. by left. }
    { intros p Hp. destruct (Hseen p (Hpreds p Hp)) as [[Hf _] _].
      by rewrite Hf. }
    rewrite Hstep.
    assert (Hpreds1 : ∀ m, predecessors g1 m = predecessors g m).
    { intros m. unfold predecessors. by rewrite He. }
    assert (Hn_not_pred : n ∉ predecessors g n).
    { intros Hin. by apply Hn_new, Hpreds. }
    destruct (IH (seen ++ [n]) g1) as (g' & Hrun & He' & Hall).
    + by rewrite <- app_assoc.
    + intros m Hm. apply Hnode, Hnodes. by right.
    + clear - Htopo He.
      revert Htopo. generalize (seen ++ [n]).
      induction rest as [|r rest IHr]; intros s; simpl; [done|].
      intros [Hp Ht]. split; [|by apply IHr].
      intros p Hin. apply Hp. unfold predecessors in *. by rewrite <- He.
    + intros m Hm. apply elem_of_app in Hm as [Hm|Hm].
      * destruct (Hseen m Hm) as [Hok Hps]. split.
        -- apply (flags_ok_ext g g1 m He); [| |done].
           ++ intros k. apply Hother. intros ->. done.
           ++ intros p k Hp. apply Hother. intros ->. by apply Hn_new, Hps.
        -- intros p Hp. rewrite Hpreds1 in Hp. apply elem_of_app. left. by apply Hps.
      * apply list_elem_of_singleton in Hm as ->. split.
        -- assert (Hpn : pred_nb g1 n = pred_nb g n).
           { unfold pred_nb. rewrite Hpreds1. apply existsb_ext_in.
             intros p Hp. unfold nb. rewrite Hother; [done|].
             intros ->. done. }
           split; [by rewrite Hpn|]. intros Hl. rewrite Hpn. by apply Hpd.
        -- intros p Hp. rewrite Hpreds1 in Hp. apply elem_of_app. left.
           by apply Hpreds.
    + exists g'. split; [done|]. split; [by rewrite He'|].
      intros m Hm. apply Hall. rewrite <- app_assoc. done.
Qed.

Lemma nb_true g p : nb g p = true ↔ need_backward g p.
Proof.
  unfold nb, need_backward. destruct (get_attr g p "need_backward") as [[]|];
    split; intros; done || congruence.
Qed.

Lemma pred_nb_true g n :
  pred_nb g n = true ↔ ∃ p, p ∈ predecessors g n ∧ need_backward g p.
Proof.
  unfold pred_nb. rewrite existsb_exists. split.
  - intros (p & Hin & Hp). exists p. split; [by apply list_elem_of_In|].
    by apply nb_true.
  - intros (p & Hin & Hp). exists p. split; [by apply list_elem_of_In|].
    by apply nb_true.
Qed.


End Flags.

Lemma chain_topological : topological chain_graph chain_order.
Proof.
  split; [|split].
  - apply (bool_decide_unpack _). by vm_compute.
  - intros n Hn. apply list_elem_of_In in Hn. simpl in Hn.
    destruct Hn as [<-|[<-|[<-|[<-|[]]]]]; vm_compute; by eexists.
  - simpl. repeat split; intros p Hp; apply list_elem_of_In in Hp;
      vm_compute in Hp; apply list_elem_of_In; simpl; intuition.
Qed.



(** ** Net.finish: graph generation *)

Section FinishRaises.
Variable topological_sort : DiGraph → option (list string).

(** [finish] raises on every net, and leaves everything but the lists of
    input and output blobs as it was: no layer is added, no schedule is
    stored, the net is not marked finished. *)
Lemma finish_always_raises (self : Net) :
  ∃ self', finish topological_sort self = (Raise TypeError, self')
         ∧ layers self' = layers self ∧ blobs self' = blobs self
         ∧ _needs self' = _needs self ∧ _provides self' = _provides self
         ∧ _forward_order self' = _forward_order self
         ∧ _backward_order self' = _backward_order self
         ∧ _finished self' = _finished self.
Proof. eexists. unfold finish, _generate_graph. simpl. done. Qed.

(** C1, at the fan-out scenario: blob [x] is needed by two layers, and
    [finish] raises [TypeError] without inserting a split layer; the net
    still has its three layers, [B] and [C] still wired to [x] itself. *)
Lemma finish_fan_out_raises :
  _need_count net_abc !! "x" = Some 2
  ∧ (finish topological_sort net_abc).1 = Raise TypeError
  ∧ size (layers (finish topological_sort net_abc).2) = 3
  ∧ layers (finish topological_sort net_abc).2 !! "_decafx" = None
  ∧ _needs (finish topological_sort net_abc).2 !! "B" = Some ["x"]
  ∧ _needs (finish topological_sort net_abc).2 !! "C" = Some ["x"].
Proof.
  destruct (finish_always_raises net_abc)
    as (self' & -> & Hl & _ & Hn & _).
  simpl. rewrite Hl, Hn. by vm_compute.
Qed.

End FinishRaises.

(** ** Net.finish: the two plans *)

Lemma build_forward_order_names self order : ∀ acc fo,
  build_forward_order self order acc = (Ok tt, fo) →
  f_name <$> fo = (f_name <$> acc) ++ order.
Proof.
  induction order as [|n order IH]; intros acc fo; simpl.
  - intros [= <-]. by rewrite app_nil_r.
  - destruct (forward_entry self n) as [e|x] eqn:He; [|done].
    intros Hrec. rewrite (IH _ _ Hrec), fmap_app, <- app_assoc. simpl.
    do 2 f_equal.
    unfold forward_entry in He.
    repeat match type of He with
           | (_ ←! ?r; _) = Ok _ => destruct r; simpl in He; [|done]
           end.
    by injection He as <-.
Qed.

Lemma backward_entry_Some self n e :
  backward_entry self n = Ok (Some e) →
  b_name e = n ∧ need_backward (_graph self) n
  ∧ get_attr (_graph self) n "propagate_down" = Ok (b_propagate_down e).
Proof.
  unfold backward_entry, need_backward.
  destruct (get_attr _ n "need_backward") as [[]|]; simpl; try done.
  intros He.
  repeat match type of He with
         | (_ ←! ?r; _) = Ok _ => destruct r eqn:?; simpl in He; [|done]
         end.
  injection He as <-. done.
Qed.

Lemma backward_entry_None self n :
  backward_entry self n = Ok None → ¬ need_backward (_graph self) n.
Proof.
  unfold backward_entry, need_backward.
  destruct (get_attr _ n "need_backward") as [[]|]; simpl; try done.
  intros He.
  repeat match type of He with
         | (_ ←! ?r; _) = Ok _ => destruct r eqn:?; simpl in He; [|done]
         end.
  done.
Qed.

Lemma build_backward_order_names self order : ∀ acc bo,
  build_backward_order self order acc = (Ok tt, bo) →
  b_name <$> bo
  = (b_name <$> acc) ++ filter (need_backward (_graph self)) order.
Proof.
  induction order as [|n order IH]; intros acc bo; simpl.
  - intros [= <-]. by rewrite app_nil_r.
  - destruct (backward_entry self n) as [[e|]|x] eqn:He; [| |done].
    + apply backward_entry_Some in He as (Hn & Hnb & _).
      intros Hrec. rewrite (IH _ _ Hrec), fmap_app, <- app_assoc. simpl.
      rewrite filter_cons_True by done. by rewrite Hn.
    + apply backward_entry_None in He.
      intros Hrec. rewrite (IH _ _ Hrec). by rewrite filter_cons_False.
Qed.

(** ** Net.forward_backward *)

Section ForwardBackward.
Context {World Loss : Type} `{LossNum Loss} `{LayerCalls World Loss}.

Lemma run_forward_runs fo : ∀ w w',
  run_forward fo w = (Ok tt, w') ↔ runs_forward fo w w'.
Proof.
  induction fo as [|e fo IH]; intros w w'; simpl.
  - split; [intros [= <-]; constructor|by inversion 1].
  - split.
    + destruct (layer_forward _ _ _ w) as [[[]|x] w1] eqn:Hcall; [|done].
      intros Hrest. econstructor; [done|]. by apply IH.
    + inversion 1 as [|? ? ? w1 ? Hcall Hrest]; subst.
      rewrite Hcall. by apply IH.
Qed.

Lemma run_backward_runs bo : ∀ acc w loss w',
  run_backward bo acc w = (Ok loss, w')
  ↔ ∃ ls, runs_backward bo w ls w' ∧ loss = foldl loss_add acc ls.
Proof.
  induction bo as [|e bo IH]; intros acc w loss w'; simpl.
  - split.
    + intros [= <- <-]. exists []. split; [constructor|done].
    + intros (ls & Hruns & ->). by inversion Hruns; subst.
  - split.
    + destruct (layer_backward _ _ _ _ w) as [[l|x] w1] eqn:Hcall; [|done].
      intros Hrest. apply IH in Hrest as (ls & Hruns & ->).
      exists (l :: ls). split; [by econstructor|done].
    + intros (ls & Hruns & ->).
      inversion Hruns as [|? ? ? l w1 ls' ? Hcall Hrest]; subst.
      rewrite Hcall. apply IH. by exists ls'.
Qed.

(** C3.  On a net marked finished, without input blobs, whose stored plans
    are the ones [finish] builds from a topological order: the forward
    plan lists the layers in that order, the backward plan lists the
    reverse of it restricted to the layers flagged [need_backward], and
    [forward_backward] returns normally exactly when every [forward] call
    of the forward plan and then every [backward] call of the backward
    plan returns, in this order; what it returns is the sum of the loss
    contributions of the [backward] calls. *)
Theorem forward_backward_runs_plans (self : Net)
    (topological_order : list string) (fo : list fentry) (bo : list bentry)
    (outs : list string) :
  build_forward_order self (layerorder self topological_order) [] = (Ok tt, fo) →
  build_backward_order self (reverse (layerorder self topological_order)) []
  = (Ok tt, bo) →
  _forward_order self = Some fo → _backward_order self = Some bo →
  _finished self = true →
  _input_blobs self = Some [] → _output_blobs self = Some outs →
  f_name <$> fo = layerorder self topological_order
  ∧ b_name <$> bo
    = filter (need_backward (_graph self)) (reverse (f_name <$> fo))
  ∧ ∀ w loss w',
      forward_backward self w = (Ok loss, w')
      ↔ ∃ w1 ls, runs_forward fo w w1 ∧ runs_backward bo w1 ls w'
                 ∧ loss = sum_losses ls.
Proof.
  intros Hfo Hbo Hsf Hsb Hfin Hin Hout.
  apply build_forward_order_names in Hfo. simpl in Hfo.
  apply build_backward_order_names in Hbo. simpl in Hbo.
  split; [done|]. split; [by rewrite Hfo|].
  intros w loss w'. unfold forward_backward.
  rewrite Hfin, Hin, Hout, Hsf, Hsb. simpl. split.
  - destruct (run_forward fo w) as [[[]|x] w1] eqn:Hf; [|done].
    intros Hb. apply run_forward_runs in Hf.
    apply run_backward_runs in Hb as (ls & Hruns & ->).
    by exists w1, ls.
  - intros (w1 & ls & Hf & Hb & ->).
    apply run_forward_runs in Hf. rewrite Hf.
    apply run_backward_runs. by exists ls.
Qed.

(** [forward_backward] on a net that is not marked finished: the usage
    error, and no call of a layer. *)
Lemma forward_backward_unfinished (self : Net) (w : World) :
  _finished self = false →
  forward_backward self w
  = (Raise (DecafError "Call finish() before you use the network."), w).
Proof. intros Hf. unfold forward_backward. by rewrite Hf. Qed.

End ForwardBackward.

Lemma forward_backward_runs_plans_witness :
  (f_name <$> default [] (_forward_order net_chain) = ["A"; "B"]
   ∧ b_name <$> default [] (_backward_order net_chain) = ["B"])
  ∧ forward_backward net_chain []
    = (Ok 1%Z, ["forward A"; "forward B"; "backward B"]).
Proof.
  destruct (forward_backward_runs_plans (World:=list string) (Loss:=Z)
              net_chain chain_order
              (default [] (_forward_order net_chain))
              (default [] (_backward_order net_chain)) ["y"])
    as (Hnames & Hback & Hrun).
  1-7: by vm_compute.
  split.
  - rewrite Hback, Hnames. by vm_compute.
  - apply Hrun. exists ["forward A"; "forward B"], [1%Z].
    split; [|split; [|done]].
    + eapply runs_forward_cons; [by vm_compute|].
      eapply runs_forward_cons; [by vm_compute|]. constructor.
    + eapply runs_backward_cons; [by vm_compute|]. constructor.
Defined.

(** C5.  The net of layers [A], [B] and [C] as the three registrations
    leave it, and as the call of [finish] that follows leaves it, has not
    been finalized.  [forward_backward] raises the usage error and calls
    nothing.  [predict] has no such test: it first binds the arrays it is
    given to the blobs of the net and then fails with the [TypeError] of
    iterating the forward plan, which is still [None]. *)
Lemma predict_unfinished_raises_type_error :
  _finished net_abc = false ∧ _forward_order net_abc = None
  ∧ forward_backward net_abc []
    = (Raise (DecafError "Call finish() before you use the network."), [])
  ∧ predict net_abc [("x", tt)] [] = (Raise TypeError, ["mirror x"])
  ∧ predict net_abc [] [] = (Raise TypeError, [])
  ∧ (finish (λ _, None) net_abc).1 = Raise TypeError
  ∧ _finished (finish (λ _, None) net_abc).2 = false
  ∧ forward_backward (finish (λ _, None) net_abc).2 []
    = (Raise (DecafError "Call finish() before you use the network."), [])
  ∧ predict (finish (λ _, None) net_abc).2 [("x", tt)] []
    = (Raise TypeError, ["mirror x"]).
Proof. vm_compute. repeat split. Qed.

(** ** Puff.read *)

Section PuffFacts.
Context {Elt : Type}.
Implicit Types self : Puff Elt.
Open Scope Z_scope.

Lemma fromfile_in_file self n from :
  0 <= n → 0 <= from → fid_pos self = from →
  from + n <= Z.of_nat (length (fid_data self)) →
  fromfile n self
  = (take (Z.to_nat n) (drop (Z.to_nat from) (fid_data self)),
     set_pos (from + n) self).
Proof.
  intros Hn Hfrom Hpos Hlen. unfold fromfile. rewrite Hpos.
  rewrite decide_False by lia. f_equal. f_equal. f_equal.
  rewrite length_take, length_drop. lia.
Qed.

Lemma records_length self from count :
  0 <= count → 0 <= from → 0 <= _step self →
  (from + count) * _step self <= Z.of_nat (length (fid_data self)) →
  length (records self from count) = Z.to_nat (count * _step self).
Proof.
  intros Hc Hf Hs Hlen. unfold records.
  rewrite length_take, length_drop. nia.
Qed.

Lemma reshape_rows_nonneg (a : array Elt) count shp :
  0 <= count → reshape_rows a count shp = reshape a (Z.to_nat count :: shp).
Proof. intros Hc. unfold reshape_rows. by rewrite decide_True. Qed.

(** A read that stays within the range. *)
Lemma read_within d count self :
  puff_ok self → 0 <= count → _curr self + count <= _end self →
  read_depth (S d) count self
  = (Ok {| ashape := Z.to_nat count :: _shape self;
           aflat := records self (_curr self) count |},
     advance count self).
Proof.
  intros ((H0 & Hsc & Hce & Hen) & Hloc & Hstep & Hpos & Hlen) Hc Hfit.
  assert (Hs : 0 <= _step self) by lia.
  cbn [read_depth]. rewrite decide_False by lia. rewrite decide_True by lia.
  rewrite (fromfile_in_file self (count * _step self) (_curr self * _step self))
    by nia.
  fold (records self (_curr self) count). cbn [_curr _end _start set_curr set_pos].
  assert (Hreshape :
    reshape {| ashape := [length (records self (_curr self) count)];
               aflat := records self (_curr self) count |}
            (Z.to_nat count :: _shape self)
    = Ok {| ashape := Z.to_nat count :: _shape self;
            aflat := records self (_curr self) count |}).
  { unfold reshape. simpl. rewrite decide_True; [done|].
    rewrite records_length by nia. rewrite Hstep. nia. }
  unfold advance.
  destruct (decide (_curr self + count = _end self)) as [Heq|Hne].
  - unfold seek. simpl. rewrite decide_False by lia.
    rewrite decide_False by nia. simpl.
    rewrite reshape_rows_nonneg by done. by rewrite Hreshape.
  - simpl. rewrite reshape_rows_nonneg by done. rewrite Hreshape.
    do 3 f_equal. lia.
Qed.

Lemma advance_ok count self :
  puff_ok self → 0 <= count → _curr self + count <= _end self →
  puff_ok (advance count self).
Proof.
  intros ((H0 & Hsc & Hce & Hen) & Hloc & Hstep & Hpos & Hlen) Hc Hfit.
  unfold advance. destruct (decide _); unfold puff_ok; simpl;
    repeat split; try done; lia.
Qed.

Lemma advance_to_end self :
  puff_ok self →
  let p1 := advance (_end self - _curr self) self in
  _curr p1 = _start self ∧ _start p1 = _start self ∧ _end p1 = _end self
  ∧ _num_local_data p1 = _num_local_data self ∧ _shape p1 = _shape self
  ∧ ∀ from n, records p1 from n = records self from n.
Proof.
  intros Hok. unfold advance. rewrite decide_True by lia. done.
Qed.

Lemma vstack_rows (a b : list Elt) (na nb : nat) (shp : list nat) :
  vstack {| ashape := na :: shp; aflat := a |}
         {| ashape := nb :: shp; aflat := b |}
  = if decide (shp ≠ [] ∨ na = nb)
    then Ok {| ashape := (match shp with [] => 2%nat | _ => (na + nb)%nat end)
                         :: (match shp with [] => [na] | _ => shp end);
               aflat := a ++ b |}
    else Raise ValueError.
Proof.
  unfold vstack, atleast_2d.
  destruct shp as [|s [|s' shp]]; cbn [ashape aflat];
    repeat case_decide; simplify_eq; try done; exfalso; intuition congruence.
Qed.

(** The recursive branch of [read], one call deep. *)
Lemma read_depth_across d count self :
  ¬ count > _num_local_data self → ¬ _curr self + count <= _end self →
  read_depth (S d) count self
  = let part := _end self - _curr self in
    match read_depth d part self with
    | (Raise x, self) => (Raise x, self)
    | (Ok a, self) =>
        match read_depth d (count - part) self with
        | (Raise x, self) => (Raise x, self)
        | (Ok b, self) =>
            match vstack a b with
            | Ok data =>
                match reshape_rows data count (_shape self) with
                | Ok data => (Ok data, self)
                | Raise x => (Raise x, self)
                end
            | Raise x => (Raise x, self)
            end
        end
    end.
Proof.
  intros Hc Hfit. cbn [read_depth].
  rewrite decide_False by done. rewrite decide_False by done. cbn zeta.
  destruct (read_depth d _ self) as [[a|x] p1]; [|done].
  destruct (read_depth d _ p1) as [[b|x] p2]; [|done].
  by destruct (vstack a b).
Qed.

(** A read across the end of the range: the two parts are read one after
    the other and stacked.  For records of at least one dimension, and for
    scalar records when the two parts are equally long, that is their
    concatenation; for scalar records split unevenly [np.vstack] refuses
    the two vectors. *)
Lemma read_across_end d count self :
  puff_ok self → 0 <= count → count <= _num_local_data self →
  _curr self + count > _end self →
  read_depth (S (S d)) count self
  = let part := _end self - _curr self in
    let state := advance (count - part) (advance part self) in
    if decide (_shape self ≠ [] ∨ part = count - part)
    then (Ok {| ashape := Z.to_nat count :: _shape self;
                aflat := records self (_curr self) part
                         ++ records self (_start self) (count - part) |},
          state)
    else (Raise ValueError, state).
Proof.
  intros Hok Hc Hcl Hover.
  pose proof Hok as ((H0 & Hsc & Hce & Hen) & Hloc & Hstep & Hpos & Hlen).
  destruct (advance_to_end self Hok) as (Hc1 & Hs1 & He1 & Hl1 & Hsh1 & Hrec1).
  assert (Hok1 : puff_ok (advance (_end self - _curr self) self))
    by (apply advance_ok; [done|lia|lia]).
  rewrite read_depth_across by lia. cbn zeta.
  rewrite (read_within d) by (done || lia).
  rewrite (read_within d) by (done || lia).
  rewrite Hc1, Hrec1. rewrite Hsh1. rewrite vstack_rows.
  set (part := _end self - _curr self) in *.
  destruct (decide (_shape self ≠ [] ∨ part = count - part)) as [Hyes|Hno].
  - rewrite decide_True.
    2:{ destruct Hyes as [?|Heq]; [by left|right; by rewrite <- Heq]. }
    rewrite reshape_rows_nonneg by done. unfold reshape. cbn [aflat].
    replace (_shape (advance (count - part) (advance part self)))
      with (_shape self) by (unfold advance; by repeat case_decide).
    rewrite decide_True; [done|].
    rewrite length_app, !records_length by nia.
    cbn [prod_shape foldr]. fold (prod_shape (_shape self)). rewrite Hstep. nia.
  - rewrite decide_False; [done|].
    intros [?|Heq]; apply Hno; [by left|right]. lia.
Qed.

Lemma recursion_limit_deep : recursion_limit = S (S 998).
Proof. reflexivity. Qed.

(** Reads split at the end of the range, for records that are arrays: the
    read across the end returns the records of the two consecutive reads,
    the second of which starts at the start of the range, and leaves the
    store in the state the second read leaves. *)
Theorem read_wraps_around self count :
  puff_ok self → _shape self ≠ [] →
  0 <= count → count <= _num_local_data self →
  _curr self + count > _end self →
  ∃ a p1 b p2,
    read (_end self - _curr self) self = (Ok a, p1)
    ∧ _curr p1 = _start self
    ∧ read (count - (_end self - _curr self)) p1 = (Ok b, p2)
    ∧ read count self
      = (Ok {| ashape := Z.to_nat count :: _shape self;
               aflat := aflat a ++ aflat b |}, p2).
Proof.
  intros Hok Hshape Hc Hcl Hover.
  pose proof Hok as ((H0 & Hsc & Hce & Hen) & Hloc & _).
  destruct (advance_to_end self Hok) as (Hc1 & Hs1 & He1 & Hl1 & Hsh1 & Hrec1).
  assert (Hok1 : puff_ok (advance (_end self - _curr self) self))
    by (apply advance_ok; [done|lia|lia]).
  unfold read. rewrite recursion_limit_deep.
  exists {| ashape := Z.to_nat (_end self - _curr self) :: _shape self;
            aflat := records self (_curr self) (_end self - _curr self) |},
         (advance (_end self - _curr self) self),
         {| ashape := Z.to_nat (count - (_end self - _curr self)) :: _shape self;
            aflat := records self (_start self) (count - (_end self - _curr self)) |},
         (advance (count - (_end self - _curr self))
            (advance (_end self - _curr self) self)).
  split; [apply read_within; [done|lia|lia]|].
  split; [done|].
  split.
  { rewrite read_within; [|done|lia|lia]. by rewrite Hc1, Hsh1, Hrec1. }
  rewrite read_across_end by done. cbn zeta.
  by rewrite decide_True by (by left).
Qed.

End PuffFacts.

Lemma pair_store_at_2_ok : puff_ok pair_store_at_2.
Proof. vm_compute. repeat split; congruence. Qed.

Lemma read_wraps_around_witness :
  ∃ a p1 b p2,
    read 1 pair_store_at_2 = (Ok a, p1)
    ∧ read 2 p1 = (Ok b, p2)
    ∧ read 3 pair_store_at_2
      = (Ok {| ashape := [3; 2]%nat; aflat := aflat a ++ aflat b |}, p2)
    ∧ aflat a ++ aflat b = [5; 6; 1; 2; 3; 4]%Z.
Proof.
  destruct (read_wraps_around pair_store_at_2 3 pair_store_at_2_ok)
    as (a & p1 & b & p2 & Ha & _ & Hb & Hab).
  1-4: by vm_compute.
  exists a, p1, b, p2. split; [exact Ha|]. split; [exact Hb|].
  split; [exact Hab|].
  assert (Ha' : read 1 pair_store_at_2 = (Ok a, p1)) by exact Ha.
  vm_compute in Ha'. injection Ha' as <- <-.
  assert (Hb' := Hb). vm_compute in Hb'. by injection Hb' as <- <-.
Defined.

(** C9, at a store of three scalar records with one record left before
    the end of the range: the two reads split at the boundary return
    record 2 and then records 0 and 1, but the single read of three records
    across the end raises, because [np.vstack] does not stack a vector of
    one element on a vector of two. *)
Lemma read_scalar_records_across_end :
  puff_ok scalar_store_at_2
  ∧ _curr scalar_store_at_2 = 2%Z ∧ _end scalar_store_at_2 = 3%Z
  ∧ (read 1 scalar_store_at_2).1 = Ok {| ashape := [1]; aflat := [30]%Z |}
  ∧ (read 2 (read 1 scalar_store_at_2).2).1
    = Ok {| ashape := [2]; aflat := [10; 20]%Z |}
  ∧ (read 3 scalar_store_at_2).1 = Raise ValueError.
Proof.
  split; [vm_compute; repeat split; congruence|].
  vm_compute. repeat split.
Qed.
(** ** Blob: initialising the two buffers, failing updates, mirrors *)

Section BlobBuffers.
Context {Elt : Type} `{Arith Elt} `{Fillers Elt}.

Lemma contents_zeros_fresh (h : heap Elt) (s : list nat) (dt : dtype) :
  contents (np_zeros s dt h).2 (np_zeros s dt h).1
  = replicate (prod_shape s) (zero dt).
Proof. unfold contents, np_zeros, heap in *. simpl. by rewrite list_lookup_middle. Qed.

(** [init_diff] on a blob with data returns the gradient array of the
    blob, which has the shape and dtype of the value and holds zeros.  The
    array is the old gradient exactly when that had the shape and dtype of
    the value already; otherwise it is a newly allocated one.  No other
    buffer changes.  Without data it raises [ValueError] and changes
    nothing. *)
Theorem init_diff_zero_gradient (b : Blob) (h : heap Elt) :
  (∀ g, _diff b = Some g → base g < length h ∧ well_sized h g) →
  (∀ d, _data b = Some d →
     ∃ g' h',
       init_diff b h = (Ok g', set_diff (Some g') b, h')
       ∧ shape g' = shape d ∧ adtype g' = adtype d
       ∧ contents h' g' = replicate (prod_shape (shape d)) (zero (adtype d))
       ∧ (∀ a, base a ≠ base g' → base a < length h → contents h' a = contents h a)
       ∧ (_diff b = Some g'
          ∨ base g' = length h
            ∧ ¬ ∃ g, _diff b = Some g ∧ shape g = shape d ∧ adtype g = adtype d))
  ∧ (_data b = None → init_diff b h = (Raise ValueError, b, h)).
Proof.
  intros Hwf. split.
  - intros d Hd. unfold init_diff. rewrite Hd.
    destruct (_diff b) as [g|] eqn:Hg.
    + destruct (Hwf g eq_refl) as [Hlt Hsz].
      destruct (decide _) as [[Hs Ht]|Hne].
      * exists g, (fill_zero g h). rewrite view_id, set_diff_same by done.
        split; [done|]. split; [done|]. split; [done|]. split; [|split].
        -- unfold fill_zero. rewrite contents_insert_eq by done.
           unfold well_sized in Hsz. by rewrite Hsz, Hs, Ht.
        -- intros a Ha _. unfold fill_zero. apply contents_insert_ne. congruence.
        -- by left.
      * eexists _, _. split; [reflexivity|]. simpl.
        split; [done|]. split; [done|]. split; [|split].
        -- apply (contents_zeros_fresh h).
        -- intros a _ Ha. by apply contents_app_l.
        -- right. split; [done|].
           intros (g0 & [= <-] & Hs0 & Ht0). by apply Hne.
    + eexists _, _. split; [reflexivity|]. simpl.
      split; [done|]. split; [done|]. split; [|split].
      * apply (contents_zeros_fresh h).
      * intros a _ Ha. by apply contents_app_l.
      * right. split; [done|]. by intros (g0 & [=] & _).
  - intros Hd. unfold init_diff. by rewrite Hd.
Qed.


(** [init_data(shape, dtype)] leaves the blob with a value of that shape
    and dtype and returns it.  The buffer holds zeros, or what the blob's
    filler makes of zeros: the filler is applied whether or not a new
    buffer was allocated.  The buffer is the old one exactly when the value
    already had that shape and dtype; no other buffer changes, and the
    gradient field is not touched. *)
Theorem init_data_zeroes_then_fills (b : Blob) (s : list nat) (dt : dtype)
    (h : heap Elt) :
  (∀ d, _data b = Some d → base d < length h ∧ well_sized h d) →
  ∃ d' h',
    init_data b s dt h = (d', set_data (Some d') b, h')
    ∧ shape d' = s ∧ adtype d' = dt
    ∧ contents h' d'
      = match _filler b with
        | None => replicate (prod_shape s) (zero dt)
        | Some f => fill f s dt (replicate (prod_shape s) (zero dt))
        end
    ∧ (∀ a, base a ≠ base d' → base a < length h → contents h' a = contents h a)
    ∧ (_data b = Some d'
       ∨ base d' = length h
         ∧ ¬ ∃ d, _data b = Some d ∧ shape d = s ∧ adtype d = dt).
Proof.
  intros Hwf. unfold init_data.
  assert (Hfresh : ∃ d' h',
    (let '(a, h1) := np_zeros s dt h in
     (view a, set_data (Some a) b, apply_filler b a h1))
    = (d', set_data (Some d') b, h')
    ∧ shape d' = s ∧ adtype d' = dt
    ∧ contents h' d'
      = match _filler b with
        | None => replicate (prod_shape s) (zero dt)
        | Some f => fill f s dt (replicate (prod_shape s) (zero dt))
        end
    ∧ (∀ a, base a ≠ base d' → base a < length h → contents h' a = contents h a)
    ∧ base d' = length h).
  { eexists _, _. simpl. split; [reflexivity|]. simpl.
    split; [done|]. split; [done|].
    unfold apply_filler. simpl. destruct (_filler b) as [f|]; simpl.
    - split; [|split; [|done]].
      + unfold contents, heap in *. simpl. rewrite list_lookup_middle by done.
        simpl. rewrite list_lookup_insert_eq; [done|].
        rewrite length_app. simpl. lia.
      + intros a Hne Ha. unfold contents, heap in *. simpl in *.
        rewrite list_lookup_insert_ne by done. by rewrite lookup_app_l.
    - split; [|split; [|done]].
      + apply (contents_zeros_fresh h).
      + intros a _ Ha. by apply contents_app_l. }
  destruct (_data b) as [d|] eqn:Hd.
  - destruct (Hwf d eq_refl) as [Hlt Hsz].
    destruct (decide (shape d = s ∧ adtype d = dt)) as [[Hs Ht]|Hne].
    + exists d. eexists. rewrite view_id.
      replace (set_data (Some d) b) with b by (symmetry; by apply set_data_same).
      split; [reflexivity|]. split; [done|]. split; [done|].
      assert (Hz : contents (fill_zero d h) d = replicate (prod_shape s) (zero dt)).
      { unfold fill_zero. rewrite contents_insert_eq by done.
        unfold well_sized in Hsz. by rewrite Hsz, Hs, Ht. }
      assert (Hlen : base d < length (fill_zero d h)).
      { unfold fill_zero, heap in *. by rewrite length_insert. }
      unfold apply_filler. destruct (_filler b) as [f|].
      * split; [|split].
        -- rewrite contents_insert_eq by done. by rewrite Hz, Hs, Ht.
        -- intros a Hne _. rewrite contents_insert_ne by congruence.
           unfold fill_zero. apply contents_insert_ne. congruence.
        -- by left.
      * split; [done|]. split.
        -- intros a Hne _. unfold fill_zero. apply contents_insert_ne. congruence.
        -- by left.
    + destruct Hfresh as (d' & h' & Hrun & Hs & Ht & Hc & Hfr & Hb).
      exists d', h'. split; [done|]. split; [done|]. split; [done|].
      split; [done|]. split; [done|].
      right. split; [done|]. intros (d0 & [= <-] & Hs0 & Ht0). by apply Hne.
  - destruct Hfresh as (d' & h' & Hrun & Hs & Ht & Hc & Hfr & Hb).
    exists d', h'. split; [done|]. split; [done|]. split; [done|].
    split; [done|]. split; [done|].
    right. split; [done|]. by intros (d0 & [=] & _).
Qed.

(** A mirror shares the buffer of its source: after [self.mirror(src)],
    with or without a new shape of the same size, [self.update()] with a
    gradient whose element type can be cast into the value's in place
    changes what [src] holds. *)
Theorem update_through_mirror (self src : Blob) (shp : option (list nat))
    (h : heap Elt) (d g : ndarray) :
  _data src = Some d → _diff self = Some g →
  inplace_cast_ok (adtype d) (adtype g) = true →
  match shp with
  | None => shape g = shape d
  | Some s => shape g = s ∧ prod_shape s = prod_shape (shape d)
  end →
  well_sized h d → well_sized h g →
  ∃ self' h',
    mirror self (SrcBlob src) shp = (Ok tt, self')
    ∧ update self' h = (Ok tt, self', h')
    ∧ contents h' d = zip_with (sub (adtype d)) (contents h d) (contents h g)
    ∧ data src = Ok d.
Proof.
  intros Hd Hg Hcast Hshape Wd Wg. unfold mirror, data. rewrite Hd, view_id.
  destruct shp as [s|].
  - destruct Hshape as [Hs Hp]. unfold set_shape. rewrite decide_True by done.
    eexists _, _. split; [reflexivity|]. unfold update, isub. simpl. rewrite Hg.
    rewrite inplace_same_shape by done. simpl.
    split; [reflexivity|]. split; [|done].
    change (contents h (with_shape d s)) with (contents h d).
    apply (contents_insert_zip h d).
  - eexists _, _. split; [reflexivity|]. unfold update, isub. simpl. rewrite Hg.
    rewrite inplace_same_shape by done.
    split; [reflexivity|]. split; [|done]. apply contents_insert_zip.
Qed.

End BlobBuffers.

Lemma init_diff_zero_gradient_witness :
  ∃ g' h',
    init_diff blob_3_loaded.1 blob_3_loaded.2
    = (Ok g', set_diff (Some g') blob_3_loaded.1, h')
    ∧ contents h' g' = [0; 0; 0]%Z.
Proof.
  destruct (init_diff_zero_gradient blob_3_loaded.1 blob_3_loaded.2) as [Hdata _].
  - intros g Hg. injection Hg as <-. split; [simpl; lia|reflexivity].
  - destruct (Hdata {| base := 0; shape := [3]; adtype := float64 |} eq_refl)
      as (g' & h' & Hrun & _ & _ & Hz & _).
    exists g', h'. split; [exact Hrun|]. rewrite Hz. reflexivity.
Defined.


(** An [int32] value with a [float64] gradient of the same shape: the
    subtraction in place is refused, and nothing changes. *)
Lemma update_int_value_float_gradient :
  update blob_int_value.1 blob_int_value.2
  = (Raise TypeError, blob_int_value.1, blob_int_value.2).
Proof. reflexivity. Qed.

Lemma init_data_zeroes_then_fills_witness :
  ∃ d' h',
    init_data (new_blob (Some 7)) [2] float64 ([] : heap Z)
    = (d', set_data (Some d') (new_blob (Some 7)), h')
    ∧ contents h' d' = [7; 7]%Z.
Proof.
  destruct (init_data_zeroes_then_fills (new_blob (Some 7)) [2] float64
              ([] : heap Z)) as (d' & h' & Hrun & _ & _ & Hc & _).
  - intros d Hd. discriminate Hd.
  - exists d', h'. split; [exact Hrun|]. rewrite Hc. reflexivity.
Defined.

Lemma update_through_mirror_witness :
  ∃ self' h',
    mirror (set_data None blob_3_loaded.1) (SrcBlob blob_3_loaded.1) None
    = (Ok tt, self')
    ∧ update self' blob_3_loaded.2 = (Ok tt, self', h')
    ∧ contents h' {| base := 0; shape := [3]; adtype := float64 |}
      = [4; 5; 6]%Z.
Proof.
  destruct (update_through_mirror (set_data None blob_3_loaded.1)
              blob_3_loaded.1 None blob_3_loaded.2
              {| base := 0; shape := [3]; adtype := float64 |}
              {| base := 1; shape := [3]; adtype := float64 |})
    as (self' & h' & Hm & Hu & Hc & _).
  1-6: reflexivity.
  exists self', h'. split; [exact Hm|]. split; [exact Hu|].
  rewrite Hc. reflexivity.
Defined.

(** ** SplitLayer.forward *)

Section SplitForward.
Context {Elt : Type} `{Arith Elt} `{Fillers Elt}.

Lemma deref_store (m : mem Elt) (t r : nat) (b : Blob) (h : heap Elt) :
  deref (store t b h m) r
  = if decide (r = t ∧ t < length (objs m)) then b else deref m r.
Proof.
  unfold deref, store. simpl.
  destruct (decide (r = t ∧ t < length (objs m))) as [[-> Hlt]|Hno].
  - by rewrite list_lookup_insert_eq.
  - destruct (decide (t = r)) as [->|Hne].
    + rewrite list_insert_ge; [done|]. apply Nat.nlt_ge. tauto.
    + by rewrite list_lookup_insert_ne.
Qed.

Lemma set_data_set_data (v w : option ndarray) (b : Blob) :
  set_data v (set_data w b) = set_data v b.
Proof. done. Qed.

(** With exactly one bottom blob, which holds data, [forward] returns
    normally and leaves every top blob with the bottom's array as its
    value: the same buffer, shape and dtype, nothing copied.  The tops'
    gradients, all other blobs and all buffers are untouched.  With any
    other number of bottom blobs it raises [ValueError] and touches
    nothing. *)
Theorem split_forward_mirrors_bottom (m : mem Elt) (b0 : nat) (top : list nat)
    (d : ndarray) :
  _data (deref m b0) = Some d →
  (∃ m', split_forward [b0] top m = (Ok tt, m')
     ∧ bufs m' = bufs m
     ∧ (∀ t, t ∈ top → t < length (objs m) →
          deref m' t = set_data (Some d) (deref m t))
     ∧ (∀ r, r ∉ top → deref m' r = deref m r))
  ∧ (∀ bottom, length bottom ≠ 1 →
       split_forward bottom top m = (Raise ValueError, m)).
Proof.
  intros Hd. split.
  - unfold split_forward. revert m Hd.
    induction top as [|t top IH]; intros m Hd; simpl.
    + exists m. split; [done|]. split; [done|]. split; [|done].
      intros t Ht. by apply elem_of_nil in Ht.
    + unfold mirror, data. rewrite Hd. rewrite view_id.
      set (m1 := store t (set_data (Some d) (deref m t)) (bufs m) m).
      assert (Hd1 : _data (deref m1 b0) = Some d).
      { unfold m1. rewrite deref_store. by destruct (decide _) as [[-> _]|_]. }
      destruct (IH m1 Hd1) as (m' & Hrun & Hbufs & Htops & Hrest).
      exists m'. split; [done|]. split; [done|]. split.
      * intros t' Ht' Hlt.
        destruct (decide (t' ∈ top)) as [Hin|Hnin].
        -- rewrite Htops; [|done|by unfold m1, store; simpl; rewrite length_insert].
           unfold m1. rewrite deref_store. by destruct (decide _) as [[-> _]|_].
        -- apply elem_of_cons in Ht' as [->|Ht']; [|done].
           rewrite Hrest by done. unfold m1. rewrite deref_store.
           by rewrite decide_True.
      * intros r Hr. apply not_elem_of_cons in Hr as [Hne Hr].
        rewrite Hrest by done. unfold m1. rewrite deref_store.
        rewrite decide_False; [done|]. tauto.
  - intros bottom Hlen. unfold split_forward.
    by destruct bottom as [|b [|b' bottom]].
Qed.

End SplitForward.

Lemma split_forward_mirrors_bottom_witness :
  ∃ m', split_forward [0] [1; 2] split_mem = (Ok tt, m')
      ∧ bufs m' = bufs split_mem
      ∧ _data (deref m' 2) = _data (deref m' 0)
      ∧ _diff (deref m' 2) = _diff (deref split_mem 2).
Proof.
  destruct (split_forward_mirrors_bottom split_mem 0 [1; 2]
              {| base := 0; shape := [2]; adtype := float64 |})
    as [(m' & Hrun & Hbufs & Htops & Hrest) _].
  - reflexivity.
  - exists m'. split; [exact Hrun|]. split; [exact Hbufs|].
    rewrite (Htops 2), (Hrest 0).
    + split; reflexivity.
    + intros Hin. apply list_elem_of_In in Hin. simpl in Hin. intuition lia.
    + apply list_elem_of_In. simpl. tauto.
    + simpl. lia.
Defined.

(** ** Net.add_layer: what a registration does to the net *)

Section AddLayerEffects.
Implicit Types (self : Net) (layer : Layer).

Lemma add_blobs_mono names : ∀ self r self',
  add_blobs names self = (r, self') → blobs self ⊆ blobs self'.
Proof.
  induction names as [|n names IH]; intros self r self'; simpl.
  - by intros [= _ <-].
  - destruct (has_key (layers self) n); [by intros [= _ <-]|].
    destruct (has_key (blobs self) n) eqn:Hn; [apply IH|].
    intros Hrec. apply IH in Hrec. simpl in Hrec.
    etrans; [|exact Hrec]. apply insert_subseteq. by apply has_key_false.
Qed.

Lemma add_blobs_lookup names : ∀ self self',
  add_blobs names self = (Ok tt, self') →
  ∀ b, blobs self' !! b
       = if decide (b ∈ names)
         then Some (default (new_blob None) (blobs self !! b))
         else blobs self !! b.
Proof.
  induction names as [|n names IH]; intros self self'; cbn [add_blobs].
  - intros [= <-] b. rewrite decide_False; [done|]. apply not_elem_of_nil.
  - destruct (has_key (layers self) n); [done|].
    destruct (has_key (blobs self) n) eqn:Hn.
    + intros Hrec b. rewrite (IH _ _ Hrec b).
      apply has_key_true in Hn as [v Hv].
      destruct (decide (b ∈ names)) as [Hin|Hnin].
      * rewrite decide_True; [done|]. by right.
      * destruct (decide (b = n)) as [->|Hne].
        -- rewrite decide_True by (by left). by rewrite Hv.
        -- rewrite decide_False; [done|].
           intros Hc. apply elem_of_cons in Hc. tauto.
    + intros Hrec b. rewrite (IH _ _ Hrec b).
      apply has_key_false in Hn. cbn [blobs set_blobs].
      destruct (decide (b = n)) as [->|Hne].
      * rewrite lookup_insert_eq, Hn.
        rewrite (decide_True (P := n ∈ n :: names)) by (by left).
        by destruct (decide (n ∈ names)).
      * rewrite lookup_insert_ne by done.
        destruct (decide (b ∈ names)) as [Hin|Hnin].
        -- rewrite decide_True; [done|]. by right.
        -- rewrite decide_False; [done|].
           intros Hc. apply elem_of_cons in Hc. tauto.
Qed.

Lemma filter_eq_not_elem_of (b : string) (l : list string) :
  b ∉ l → filter (λ n, n = b) l = [].
Proof.
  induction l as [|x l IH]; intros Hnin; [done|].
  apply not_elem_of_cons in Hnin as [Hne Hnin].
  rewrite filter_cons_False by congruence. by apply IH.
Qed.

Lemma count_needs_lookup needs : ∀ (c : gmap string nat) b,
  count_needs needs c !! b
  = if decide (b ∈ needs)
    then Some (default 0 (c !! b) + length (filter (λ n, n = b) needs))
    else c !! b.
Proof.
  unfold count_needs. induction needs as [|n needs IH]; intros c b; cbn [foldl].
  - rewrite decide_False; [done|]. apply not_elem_of_nil.
  - rewrite IH. destruct (decide (b = n)) as [->|Hne].
    + rewrite lookup_insert_eq.
      rewrite (decide_True (P := n ∈ n :: needs)) by (by left).
      rewrite filter_cons_True by done. cbn [length default].
      destruct (decide (n ∈ needs)) as [Hin|Hnin].
      * unfold id. f_equal. lia.
      * rewrite filter_eq_not_elem_of by done. unfold id. simpl. f_equal. lia.
    + rewrite lookup_insert_ne by done.
      rewrite filter_cons_False by congruence.
      destruct (decide (b ∈ needs)) as [Hin|Hnin].
      * rewrite decide_True; [done|]. by right.
      * rewrite decide_False; [done|].
        intros Hc. apply elem_of_cons in Hc. tauto.
Qed.

(** [add_layer] returns normally exactly when the name of the layer is
    neither a layer nor a blob of the net, none of the provided names is a
    blob of the net, [needs] and [provides] are both tuples or neither is,
    and none of the needed and provided names is the name of a layer, the
    new layer included.  What it raises otherwise is an [InvalidNetError]
    or a [TypeError]; it is a [TypeError] exactly when the name of the
    layer is free, none of the provided names is a blob of the net, and
    exactly one of [needs] and [provides] is a tuple. *)
Theorem add_layer_succeeds_iff self layer needs provides :
  ((∃ self', add_layer layer needs provides self = (Ok tt, self'))
   ↔ layers self !! name layer = None ∧ blobs self !! name layer = None
     ∧ (∀ b, b ∈ names_of provides → blobs self !! b = None)
     ∧ is_tuple needs = is_tuple provides
     ∧ (∀ b, b ∈ names_of needs ++ names_of provides →
             layers self !! b = None ∧ b ≠ name layer))
  ∧ (∀ e self', add_layer layer needs provides self = (Raise e, self') →
                (∃ msg, e = InvalidNetError msg) ∨ e = TypeError)
  ∧ ((∃ self', add_layer layer needs provides self = (Raise TypeError, self'))
     ↔ layers self !! name layer = None ∧ blobs self !! name layer = None
       ∧ (∀ b, b ∈ names_of provides → blobs self !! b = None)
       ∧ is_tuple needs ≠ is_tuple provides).
Proof.
  split; [|split].
  - pose proof (add_layer_raises_iff self layer needs provides) as Hiff.
    pose proof (add_layer_type_error_iff self layer needs provides) as Hty.
    split.
    + intros (self' & Hok).
      assert (Hno : ¬ ∃ msg s, add_layer layer needs provides self
                               = (Raise (InvalidNetError msg), s)).
      { intros (msg & s & Hr). rewrite Hr in Hok. discriminate Hok. }
      assert (Hnt : ¬ ∃ s, add_layer layer needs provides self
                           = (Raise TypeError, s)).
      { intros (s & Hr). rewrite Hr in Hok. discriminate Hok. }
      rewrite Hiff in Hno. rewrite Hty in Hnt.
      assert (Hl : layers self !! name layer = None)
        by (apply eq_None_not_Some; tauto).
      assert (Hb : blobs self !! name layer = None)
        by (apply eq_None_not_Some; tauto).
      assert (Hps : ∀ b, b ∈ names_of provides → blobs self !! b = None).
      { intros b Hb'. apply eq_None_not_Some. intros Hs. apply Hno.
        right; right; left. by exists b. }
      assert (Hmix : is_tuple needs = is_tuple provides).
      { destruct (decide (is_tuple needs = is_tuple provides)) as [|Hne];
          [done|]. destruct Hnt. done. }
      split; [done|]. split; [done|]. split; [done|]. split; [done|].
      intros b Hb'. split.
      * apply eq_None_not_Some. intros Hs. apply Hno.
        right; right; right. split; [done|]. exists b. split; [done|by left].
      * intros ->. apply Hno. right; right; right. split; [done|].
        exists (name layer). split; [done|by right].
    + intros (Hl & Hb & Hps & Hmix & Hnames). by apply add_layer_unmixed.
  - intros e self'. unfold add_layer. simpl.
    destruct (_ || _); [intros [= <- _]; left; by eexists|].
    destruct (first_known_blob _ _); [intros [= <- _]; left; by eexists|].
    destruct (xorb _ _); [intros [= <- _]; by right|].
    destruct (add_blobs _ _) as [[[]|e'] s] eqn:Hadd; [done|].
    intros [= <- _]. left. by eapply add_blobs_raises_invalid.
  - apply add_layer_type_error_iff.
Qed.

Lemma add_blobs_frame_plans names : ∀ s0 r s,
  add_blobs names s0 = (r, s) →
  _graph s = _graph s0 ∧ _forward_order s = _forward_order s0
  ∧ _backward_order s = _backward_order s0 ∧ _params s = _params s0
  ∧ _input_blobs s = _input_blobs s0 ∧ _output_blobs s = _output_blobs s0.
Proof.
  induction names as [|n names IH]; intros s0 r s; cbn [add_blobs].
  - by intros [= _ <-].
  - destruct (has_key (layers s0) n); [by intros [= _ <-]|].
    destruct (has_key (blobs s0) n); [apply IH|].
    intros Hrec. by apply IH in Hrec.
Qed.

(** A registration that returns has stored the layer with its two lists of
    names, created an empty blob for every name that was not a blob yet and
    kept the others, counted every occurrence of a name in [needs], and
    marked the net unfinished; the graph and the stored plans are not
    touched. *)
Theorem add_layer_registers self layer needs provides self' :
  add_layer layer needs provides self = (Ok tt, self') →
  layers self' = <[name layer := layer]> (layers self)
  ∧ _needs self' = <[name layer := names_of needs]> (_needs self)
  ∧ _provides self' = <[name layer := names_of provides]> (_provides self)
  ∧ (∀ b, blobs self' !! b
          = if decide (b ∈ names_of needs ++ names_of provides)
            then Some (default (new_blob None) (blobs self !! b))
            else blobs self !! b)
  ∧ (∀ b, _need_count self' !! b
          = if decide (b ∈ names_of needs)
            then Some (default 0 (_need_count self !! b)
                       + length (filter (λ n, n = b) (names_of needs)))
            else _need_count self !! b)
  ∧ _finished self' = false ∧ _actual_needs self' = None
  ∧ _graph self' = _graph self
  ∧ _forward_order self' = _forward_order self
  ∧ _backward_order self' = _backward_order self
  ∧ _params self' = _params self.
Proof.
  unfold add_layer. cbn zeta.
  destruct (_ || _); [done|].
  destruct (first_known_blob _ _); [done|].
  destruct (xorb _ _); [done|].
  destruct (add_blobs _ _) as [[[]|e'] s] eqn:Hadd; [|done].
  intros [= <-].
  pose proof (add_blobs_lookup _ _ _ Hadd) as Hblobs.
  destruct (add_blobs_frame _ _ _ _ Hadd) as (Hl & Hf & Hn & Hp & Hc & _).
  destruct (add_blobs_frame_plans _ _ _ _ Hadd) as (Hg & Hfo & Hbo & Hpa & _).
  cbn in Hblobs, Hl, Hf, Hn, Hp, Hc, Hg, Hfo, Hbo, Hpa |- *.
  rewrite Hl, Hn, Hp, Hc, Hg, Hfo, Hbo, Hpa, Hf.
  split; [done|]. split; [done|]. split; [done|]. split; [done|].
  split; [apply count_needs_lookup|]. done.
Qed.

(** Whatever its outcome, [add_layer] removes and replaces nothing: every
    layer and every blob of the net is still there, as the same object, and
    a blob that was not there before is an empty one named in [needs] or
    [provides]. *)
Theorem add_layer_only_adds self layer needs provides :
  layers self ⊆ layers (add_layer layer needs provides self).2
  ∧ blobs self ⊆ blobs (add_layer layer needs provides self).2
  ∧ ∀ b v, blobs (add_layer layer needs provides self).2 !! b = Some v →
           blobs self !! b = Some v
           ∨ v = new_blob None ∧ b ∈ names_of needs ++ names_of provides.
Proof.
  unfold add_layer. simpl.
  destruct (has_key (layers self) (name layer) || has_key (blobs self) (name layer))
    eqn:Hnames; [simpl; by auto|].
  apply orb_false_elim in Hnames as [Hl _]. apply has_key_false in Hl.
  assert (Hsub : layers self ⊆ <[name layer := layer]> (layers self))
    by (by apply insert_subseteq).
  destruct (first_known_blob _ _); [simpl; by auto|].
  destruct (xorb _ _); [simpl; by auto|].
  destruct (add_blobs _ _) as [r s] eqn:Hadd.
  assert (Hnew : ∀ names s0 r s, add_blobs names s0 = (r, s) →
            ∀ b v, blobs s !! b = Some v →
                   blobs s0 !! b = Some v ∨ v = new_blob None ∧ b ∈ names).
  { clear. induction names as [|n names IH]; intros s0 r s; cbn [add_blobs].
    - intros [= _ <-]. by left.
    - destruct (has_key (layers s0) n); [intros [= _ <-]; by left|].
      destruct (has_key (blobs s0) n).
      + intros Hrec b v Hv. destruct (IH _ _ _ Hrec b v Hv) as [?|[? ?]];
          [by left|right]. split; [done|by right].
      + intros Hrec b v Hv. destruct (IH _ _ _ Hrec b v Hv) as [Hold|[? ?]].
        * cbn in Hold. destruct (decide (n = b)) as [->|Hne].
          -- rewrite lookup_insert_eq in Hold. injection Hold as <-.
             right. split; [done|by left].
          -- rewrite lookup_insert_ne in Hold by done. by left.
        * right. split; [done|by right]. }
  pose proof (add_blobs_mono _ _ _ _ Hadd) as Hmono.
  destruct (add_blobs_frame _ _ _ _ Hadd) as (Hl' & _).
  pose proof (Hnew _ _ _ _ Hadd) as Hn. cbn in Hmono, Hl', Hn.
  destruct r as [[]|e]; cbn; rewrite Hl'; auto.
Qed.

End AddLayerEffects.

Lemma add_layer_registers_witness :
  ∃ self',
    add_layer (layer_named "C") (ArgList ["x"; "x"]) (ArgStr "y") net_a
    = (Ok tt, self')
    ∧ _need_count self' !! "x" = Some 2
    ∧ blobs self' !! "y" = Some (new_blob None)
    ∧ _finished self' = false.
Proof.
  assert (Hrun : add_layer (layer_named "C") (ArgList ["x"; "x"]) (ArgStr "y") net_a
                 = (Ok tt, (add_layer (layer_named "C") (ArgList ["x"; "x"])
                              (ArgStr "y") net_a).2)) by (by vm_compute).
  destruct (add_layer_registers _ _ _ _ _ Hrun)
    as (_ & _ & _ & Hb & Hc & Hf & _).
  eexists. split; [exact Hrun|].
  split; [rewrite Hc; by vm_compute|].
  split; [rewrite Hb; by vm_compute|]. exact Hf.
Defined.

(** ** Nets built through the interface *)

Section BuiltNets.
Variable topological_sort : DiGraph → option (list string).
Implicit Types (self : Net) (layer : Layer).

Lemma add_blobs_new_not_layer names : ∀ s0 r s,
  add_blobs names s0 = (r, s) →
  ∀ b, is_Some (blobs s !! b) → is_Some (blobs s0 !! b) ∨ layers s0 !! b = None.
Proof.
  induction names as [|n names IH]; intros s0 r s; cbn [add_blobs].
  - intros [= _ <-]. by left.
  - destruct (has_key (layers s0) n) eqn:Hl; [intros [= _ <-]; by left|].
    destruct (has_key (blobs s0) n); [apply IH|].
    intros Hrec b Hb. destruct (IH _ _ _ Hrec b Hb) as [Hold|Hnone]; [|by right].
    cbn in Hold. destruct (decide (n = b)) as [->|Hne].
    + right. by apply has_key_false.
    + rewrite lookup_insert_ne in Hold by done. by left.
Qed.

Lemma add_layer_net_inv self layer needs provides :
  net_inv self → net_inv (add_layer layer needs provides self).2.
Proof.
  intros (Hpb & Hsw & Hns & Hreg & Hfin & Hfo & Hbo).
  pose proof (add_layer_keeps_provided_are_blobs self layer needs provides Hpb)
    as Hpb'.
  split; [exact Hpb'|]. clear Hpb'.
  unfold add_layer. simpl.
  destruct (has_key (layers self) (name layer) || has_key (blobs self) (name layer))
    eqn:Hnames; [done|].
  apply orb_false_elim in Hnames as [Hl Hb].
  apply has_key_false in Hl, Hb.
  assert (Hns1 : ∀ n, ¬ (is_Some (<[name layer := layer]> (layers self) !! n)
                         ∧ is_Some (blobs self !! n))).
  { intros n [Hln Hbn]. destruct (decide (name layer = n)) as [<-|Hne].
    - rewrite Hb in Hbn. by destruct Hbn.
    - rewrite lookup_insert_ne in Hln by done. by apply (Hns n). }
  assert (Hreg1 : ∀ l, is_Some (_provides self !! l) →
                       is_Some (<[name layer := layer]> (layers self) !! l)).
  { intros l Hp. destruct (decide (name layer = l)) as [<-|Hne].
    - rewrite lookup_insert_eq. by eexists.
    - rewrite lookup_insert_ne by done. by apply Hreg. }
  destruct (first_known_blob _ _) eqn:Hfind; [done|].
  destruct (xorb _ _); [done|].
  rewrite first_known_blob_None in Hfind. simpl in Hfind.
  destruct (add_blobs _ _) as [r s] eqn:Hadd.
  destruct (add_blobs_frame _ _ _ _ Hadd) as (Hl' & Hf' & Hn' & Hp' & Hc' & _).
  destruct (add_blobs_frame_plans _ _ _ _ Hadd) as (_ & Hfo' & Hbo' & _).
  pose proof (add_blobs_new_not_layer _ _ _ _ Hadd) as Hnew.
  simpl in Hl', Hf', Hp', Hfo', Hbo', Hnew.
  assert (Hns2 : one_namespace s).
  { intros n [Hln Hbn]. rewrite Hl' in Hln.
    destruct (Hnew n Hbn) as [Hold|Hnone].
    - by apply (Hns1 n).
    - rewrite Hnone in Hln. by destruct Hln. }
  destruct r as [[]|e]; simpl.
  - split; [|split; [exact Hns2|]].
    + intros l1 l2 bs1 bs2 b H1 Hb1 H2 Hb2. simpl in H1, H2.
      rewrite Hp' in H1, H2.
      destruct (decide (name layer = l1)) as [<-|Hne1];
        destruct (decide (name layer = l2)) as [<-|Hne2]; [done| | |].
      * rewrite lookup_insert_eq in H1. injection H1 as <-.
        rewrite lookup_insert_ne in H2 by done.
        destruct (Hpb _ _ _ H2 Hb2) as [v Hv].
        by rewrite (Hfind b Hb1) in Hv.
      * rewrite lookup_insert_eq in H2. injection H2 as <-.
        rewrite lookup_insert_ne in H1 by done.
        destruct (Hpb _ _ _ H1 Hb1) as [v Hv].
        by rewrite (Hfind b Hb2) in Hv.
      * rewrite lookup_insert_ne in H1, H2 by done. by eapply Hsw.
    + rewrite Hl', Hp', Hfo', Hbo', Hf'. split; [|done].
      intros l Hp. destruct (decide (name layer = l)) as [<-|Hne].
      * rewrite lookup_insert_eq. by eexists.
      * rewrite lookup_insert_ne in Hp by done. by apply Hreg1.
  - split; [|split; [exact Hns2|]].
    + unfold single_writer. rewrite Hp'. exact Hsw.
    + by rewrite Hl', Hp', Hfo', Hbo', Hf'.
Qed.

Lemma built_net_inv self : built topological_sort self → net_inv self.
Proof.
  induction 1 as [nm|self layer needs provides _ IH|self _ IH].
  - split; [apply new_net_provided_are_blobs|].
    split; [intros l1 l2 bs1 bs2 b H1; simpl in H1; by rewrite lookup_empty in H1|].
    split; [intros n [Hl _]; simpl in Hl; rewrite lookup_empty in Hl; by destruct Hl|].
    split; [|done].
    intros l Hp. simpl in Hp. rewrite lookup_empty in Hp. by destruct Hp.
  - by apply add_layer_net_inv.
  - exact IH.
Qed.

(** Every net built through [Net()], [add_layer] and [finish], whether the
    calls returned or raised, keeps layer names and blob names apart, has
    every provided name as a blob, and has at most one layer that provides
    a given blob. *)
Theorem built_net_single_writer self :
  built topological_sort self →
  one_namespace self ∧ provided_are_blobs self ∧ single_writer self.
Proof.
  intros Hb. destruct (built_net_inv self Hb) as (Hpb & Hsw & Hns & _). done.
Qed.

Section Runs.
Context {World Loss Arr : Type}.
Context `{LossNum Loss} `{LayerCalls World Loss} `{BlobStore World Arr}.

(** No net built through [Net()], [add_layer] and [finish] can be run:
    [finish] never marks it finished and never stores a plan, so
    [forward_backward] raises the usage error without calling a layer, and
    [predict] raises too, whatever arguments it is given. *)
Theorem built_net_never_runs self :
  built topological_sort self →
  _finished self = false ∧ _forward_order self = None
  ∧ (∀ w : World,
       forward_backward self w
       = (Raise (DecafError "Call finish() before you use the network."), w))
  ∧ (∀ (kwargs : list (string * Arr)) (w : World),
       is_ok (predict self kwargs w).1 = false).
Proof.
  intros Hb. destruct (built_net_inv self Hb) as (_ & _ & _ & _ & Hfin & Hfo & _).
  split; [done|]. split; [done|]. split.
  - intros w. unfold forward_backward. by rewrite Hfin.
  - intros kwargs w. unfold predict. rewrite Hfo.
    by destruct (mirror_inputs self kwargs w) as [[[]|x] w1].
Qed.

End Runs.
End BuiltNets.

Lemma built_net_single_writer_witness :
  one_namespace (finish (λ _, None) net_abc).2
  ∧ provided_are_blobs (finish (λ _, None) net_abc).2
  ∧ single_writer (finish (λ _, None) net_abc).2.
Proof.
  apply (built_net_single_writer (λ _, None)).
  apply built_finish. unfold net_abc.
  do 3 apply built_add_layer. apply built_new.
Defined.

Lemma built_net_never_runs_witness :
  forward_backward (finish (λ _, None) net_abc).2 ([] : list string)
  = (Raise (DecafError "Call finish() before you use the network."), [])
  ∧ is_ok (predict (finish (λ _, None) net_abc).2 [("x", tt)]
             ([] : list string)).1 = false.
Proof.
  destruct (built_net_never_runs (World:=list string) (Loss:=Z) (Arr:=unit)
              (λ _, None) (finish (λ _, None) net_abc).2)
    as (_ & _ & Hfb & Hp).
  - apply built_finish. unfold net_abc.
    do 3 apply built_add_layer. apply built_new.
  - split; [apply Hfb|apply Hp].
Defined.

(** ** Net.finish: input and output blobs *)

Lemma elem_of_keys {V} (d : gmap string V) (k : string) :
  k ∈ keys d ↔ is_Some (d !! k).
Proof.
  unfold keys. rewrite list_elem_of_fmap. split.
  - intros ([k' v] & -> & Hin). apply elem_of_map_to_list in Hin. by eexists.
  - intros [v Hv]. exists (k, v). split; [done|]. by apply elem_of_map_to_list.
Qed.

Lemma elem_of_concat {A} (x : A) (ls : list (list A)) :
  x ∈ concat ls ↔ ∃ l, x ∈ l ∧ l ∈ ls.
Proof.
  induction ls as [|l ls IH]; simpl.
  - split; [by intros ?%elem_of_nil|by intros (l & _ & ?%elem_of_nil)].
  - rewrite elem_of_app, IH. split.
    + intros [Hx|(l' & Hx & Hl')]; [exists l; split; [done|by left]|].
      exists l'. split; [done|by right].
    + intros (l' & Hx & Hl'). apply elem_of_cons in Hl' as [->|Hl']; [by left|].
      right. by exists l'.
Qed.

(** [finish] raises [TypeError] on every net.  Before it does, it stores
    as input blobs the blobs that no registered layer provides and as
    output blobs the blobs that were never counted as needed, each once;
    it adds no layer, stores no plan and does not mark the net
    finished. *)
Theorem finish_records_inputs_and_outputs
    (topological_sort : DiGraph → option (list string)) (self : Net) :
  ∃ ins outs self',
    finish topological_sort self = (Raise TypeError, self')
    ∧ _input_blobs self' = Some ins ∧ _output_blobs self' = Some outs
    ∧ NoDup ins ∧ NoDup outs
    ∧ (∀ b, b ∈ ins ↔ is_Some (blobs self !! b)
                       ∧ ¬ ∃ l bs, _provides self !! l = Some bs ∧ b ∈ bs)
    ∧ (∀ b, b ∈ outs ↔ is_Some (blobs self !! b) ∧ _need_count self !! b = None)
    ∧ layers self' = layers self ∧ blobs self' = blobs self
    ∧ _needs self' = _needs self ∧ _provides self' = _provides self
    ∧ _graph self' = _graph self
    ∧ _forward_order self' = _forward_order self
    ∧ _backward_order self' = _backward_order self
    ∧ _finished self' = _finished self.
Proof.
  eexists _, _, _. unfold finish, _generate_graph. cbn.
  split; [reflexivity|]. split; [reflexivity|]. split; [reflexivity|].
  assert (Hnd : NoDup (keys (blobs self))) by apply NoDup_fst_map_to_list.
  split; [by apply NoDup_filter|]. split; [by apply NoDup_filter|].
  split; [|split; [|done]].
  - intros b. rewrite list_elem_of_filter, elem_of_keys. split.
    + intros [Hnot Hb]. split; [done|].
      intros (l & bs & Hl & Hin). apply Hnot. apply elem_of_concat.
      exists bs. split; [done|]. apply list_elem_of_fmap.
      exists (l, bs). split; [done|]. by apply elem_of_map_to_list.
    + intros [Hb Hnot]. split; [|done].
      intros Hin. apply Hnot. apply elem_of_concat in Hin as (bs & Hin & Hbs).
      apply list_elem_of_fmap in Hbs as ([l bs'] & -> & Hl).
      apply elem_of_map_to_list in Hl. by exists l, bs'.
  - intros b. rewrite list_elem_of_filter, elem_of_keys. tauto.
Qed.

(** ** Net.finish: where the backward flags come from *)

Section FlagsFromParameters.
Variable lys : gmap string Layer.

Lemma elem_of_predecessors g p n : p ∈ predecessors g n ↔ edge g p n.
Proof.
  unfold predecessors, edge. rewrite list_elem_of_fmap. split.
  - intros ([p' n'] & -> & Hin). apply list_elem_of_filter in Hin as [Hn Hin].
    simpl in *. by subst.
  - intros Hin. exists (p, n). split; [done|]. by apply list_elem_of_filter.
Qed.

Lemma topo_sorted_closed g rest : ∀ seen n p,
  topo_sorted g seen rest → n ∈ rest → p ∈ predecessors g n → p ∈ seen ++ rest.
Proof.
  induction rest as [|r rest IH]; intros seen n p Htopo Hn Hp.
  - by apply elem_of_nil in Hn.
  - destruct Htopo as [Hpreds Htopo].
    apply elem_of_cons in Hn as [->|Hn].
    + apply elem_of_app. left. by apply Hpreds.
    + specialize (IH _ _ _ Htopo Hn Hp). rewrite <- app_assoc in IH. exact IH.
Qed.

(** Induction along a topological order. *)
Lemma topo_sorted_induction g (P : string → Prop) :
  (∀ n, (∀ p, p ∈ predecessors g n → P p) → P n) →
  ∀ rest seen, topo_sorted g seen rest →
    (∀ m, m ∈ seen → P m) → ∀ m, m ∈ rest → P m.
Proof.
  intros Hstep. induction rest as [|r rest IH]; intros seen Htopo Hseen m Hm.
  - by apply elem_of_nil in Hm.
  - destruct Htopo as [Hpreds Htopo].
    assert (Hr : P r) by (apply Hstep; intros p Hp; by apply Hseen, Hpreds).
    apply elem_of_cons in Hm as [->|Hm]; [done|].
    apply (IH (seen ++ [r])); [done| |done].
    intros m' Hm'. apply elem_of_app in Hm' as [Hm'|Hm']; [by apply Hseen|].
    by apply list_elem_of_singleton in Hm' as ->.
Qed.

(** Run on a graph and a topological order of it, the loop of [finish]
    flags a node, layer or blob, as [need_backward] exactly when the node
    is, or can be reached along the edges from, a layer that has a
    parameter and is not frozen; and it flags a layer as [propagate_down]
    exactly when a direct predecessor of the layer is such a node. *)
Theorem finish_flags_from_parameters (g : DiGraph) (order : list string) :
  topological g order →
  ∃ g', flag_pass lys order g = (Ok tt, g')
      ∧ ∀ n, n ∈ order →
          (need_backward g' n ↔
             ∃ l layer, lys !! l = Some layer
                        ∧ has_unfrozen_params layer = true ∧ rtc (edge g) l n)
          ∧ (is_Some (lys !! n) →
             (propagate_down g' n ↔
                ∃ l layer p, lys !! l = Some layer
                             ∧ has_unfrozen_params layer = true
                             ∧ rtc (edge g) l p ∧ edge g p n)).
Proof.
  intros (Hnd & Hnodes & Htopo).
  destruct (flag_pass_inv lys order [] g Hnd Hnodes Htopo) as (g' & Hrun & He & Hall).
  { intros m Hm. by apply elem_of_nil in Hm. }
  exists g'. split; [done|].
  assert (Hpreds : ∀ m, predecessors g' m = predecessors g m).
  { intros m. unfold predecessors. by rewrite He. }
  assert (Hclosed : ∀ n p, n ∈ order → p ∈ predecessors g n → p ∈ order).
  { intros n p Hn Hp. by apply (topo_sorted_closed g order [] n p). }
  assert (Hnb : ∀ n, n ∈ order →
            (need_backward g' n ↔
               own_nb lys n = true
               ∨ ∃ p, p ∈ predecessors g n ∧ need_backward g' p)).
  { intros n Hn. destruct (Hall n Hn) as [Hflag _].
    rewrite <- (Hpreds n), <- pred_nb_true. unfold need_backward at 1.
    rewrite Hflag. split.
    - intros [= Hor]. apply orb_true_iff in Hor. tauto.
    - intros Hor. f_equal. apply orb_true_iff. tauto. }
  assert (Hown : ∀ l, own_nb lys l = true
                      ↔ ∃ layer, lys !! l = Some layer
                                 ∧ has_unfrozen_params layer = true).
  { intros l. unfold own_nb. destruct (lys !! l) as [layer|].
    - split; [by exists layer|]. by intros (layer' & [= <-] & ?).
    - split; [done|]. by intros (layer' & [=] & _). }
  assert (Hfrom : ∀ n, n ∈ order →
            (need_backward g' n ↔
               ∃ l layer, lys !! l = Some layer
                          ∧ has_unfrozen_params layer = true ∧ rtc (edge g) l n)).
  { intros n Hn. split.
    - revert n Hn.
      cut (∀ n, n ∈ order → n ∈ order → need_backward g' n →
                ∃ l layer, lys !! l = Some layer
                           ∧ has_unfrozen_params layer = true
                           ∧ rtc (edge g) l n); [by eauto|].
      apply (topo_sorted_induction g
               (λ n, n ∈ order → need_backward g' n →
                     ∃ l layer, lys !! l = Some layer
                                ∧ has_unfrozen_params layer = true
                                ∧ rtc (edge g) l n)) with (seen := []);
        [|done|intros m Hm; by apply elem_of_nil in Hm].
      intros n IH Hn Hflag.
      apply (Hnb n Hn) in Hflag as [Ho|(p & Hp & Hflag)].
      + apply Hown in Ho as (layer & Hl & Hu). by exists n, layer.
      + destruct (IH p Hp (Hclosed n p Hn Hp) Hflag) as (l & layer & Hl & Hu & Hpath).
        exists l, layer. split; [done|]. split; [done|].
        eapply rtc_r; [done|]. by apply elem_of_predecessors.
    - intros (l & layer & Hl & Hu & Hpath). revert Hn.
      apply (rtc_ind_r (R:=edge g) (λ n, n ∈ order → need_backward g' n) l);
        [| |done].
      + intros Hl_in. apply Hnb; [done|]. left. apply Hown. by exists layer.
      + intros p n' _ Hedge IH Hn'. apply elem_of_predecessors in Hedge.
        apply Hnb; [done|]. right. exists p. split; [done|].
        apply IH. by eapply Hclosed. }
  intros n Hn. split; [by apply Hfrom|].
  intros Hlayer. destruct (Hall n Hn) as [_ Hpd].
  unfold propagate_down. rewrite (Hpd Hlayer). split.
  - intros [= Hp]. apply pred_nb_true in Hp as (p & Hp & Hflag).
    rewrite Hpreds in Hp.
    apply Hfrom in Hflag as (l & layer & Hl & Hu & Hpath); [|by eapply Hclosed].
    exists l, layer, p. repeat split; try done. by apply elem_of_predecessors.
  - intros (l & layer & p & Hl & Hu & Hpath & Hedge). f_equal.
    apply elem_of_predecessors in Hedge.
    apply pred_nb_true. exists p. split; [by rewrite Hpreds|].
    apply Hfrom; [by eapply Hclosed|]. by exists l, layer.
Qed.

End FlagsFromParameters.

Lemma finish_flags_from_parameters_witness :
  ∃ g', flag_pass chain_layers chain_order chain_graph = (Ok tt, g')
      ∧ need_backward g' "y".
Proof.
  destruct (finish_flags_from_parameters chain_layers chain_graph chain_order
              chain_topological) as (g' & Hrun & Hflags).
  exists g'. split; [exact Hrun|].
  apply (Hflags "y").
  - apply list_elem_of_In. simpl. tauto.
  - exists "B", {| name := "B"; freeze := false; _param := [new_blob None] |}.
    split; [reflexivity|]. split; [reflexivity|].
    apply rtc_once. unfold edge. apply list_elem_of_In. vm_compute. tauto.
Defined.

(** ** Net.forward_backward: a layer that raises *)

Section FailingPass.
Context {World Loss : Type} `{LossNum Loss} `{LayerCalls World Loss}.

Lemma run_forward_app (pre post : list fentry) (w w1 : World) :
  runs_forward pre w w1 → run_forward (pre ++ post) w = run_forward post w1.
Proof.
  induction 1 as [|e rest w w1 w2 Hcall _ IH]; [done|].
  simpl. by rewrite Hcall.
Qed.

Lemma run_backward_app (pre post : list bentry) (w w1 : World) ls : ∀ acc,
  runs_backward pre w ls w1 →
  run_backward (pre ++ post) acc w
  = run_backward post (foldl loss_add acc ls) w1.
Proof.
  intros acc Hruns. revert acc.
  induction Hruns as [|e rest w l w1 ls w2 Hcall _ IH]; intros acc; [done|].
  simpl. rewrite Hcall. apply IH.
Qed.

(** On a finished net without input blobs, an exception raised by a layer
    ends the pass at that call and is what [forward_backward] raises: when
    a [forward] call raises, the layers behind it in the forward plan are
    not called and no [backward] is; when a [backward] call raises, the
    layers behind it in the backward plan are not called and the loss
    summed so far is lost. *)
Theorem forward_backward_stops_at_raise (self : Net)
    (fo : list fentry) (bo : list bentry) (w : World) :
  _finished self = true → _input_blobs self = Some [] →
  is_Some (_output_blobs self) →
  _forward_order self = Some fo → _backward_order self = Some bo →
  (∀ pre e post w1 x w2,
     fo = pre ++ e :: post → runs_forward pre w w1 →
     layer_forward (f_layer e) (f_bottom e) (f_top e) w1 = (Raise x, w2) →
     forward_backward self w = (Raise x, w2))
  ∧ (∀ w1 pre e post ls w2 x w3,
       runs_forward fo w w1 →
       bo = pre ++ e :: post → runs_backward pre w1 ls w2 →
       layer_backward (b_layer e) (b_bottom e) (b_top e) (b_propagate_down e) w2
       = (Raise x, w3) →
       forward_backward self w = (Raise x, w3)).
Proof.
  intros Hfin Hin [outs Hout] Hfo Hbo.
  unfold forward_backward. rewrite Hfin, Hin, Hout, Hfo, Hbo. simpl.
  split.
  - intros pre e post w1 x w2 -> Hpre Hcall.
    rewrite (run_forward_app pre _ w w1 Hpre). simpl. by rewrite Hcall.
  - intros w1 pre e post ls w2 x w3 Hf -> Hpre Hcall.
    apply run_forward_runs in Hf. rewrite Hf.
    rewrite (run_backward_app pre _ w1 w2 ls loss0 Hpre). simpl. by rewrite Hcall.
Qed.

End FailingPass.

Lemma forward_backward_stops_at_raise_witness :
  @forward_backward (list string) Z Z_loss failing_calls net_chain []
  = (Raise ValueError, ["forward A"; "forward B"]).
Proof.
  destruct (@forward_backward_stops_at_raise (list string) Z Z_loss failing_calls
              net_chain (default [] (_forward_order net_chain))
              (default [] (_backward_order net_chain)) [])
    as [Hforward _].
  1,2,4,5: by vm_compute.
  - vm_compute. by eexists.
  - apply (Hforward [hd {| f_name := ""; f_layer := layer_named "";
                           f_bottom := []; f_top := [] |}
                        (default [] (_forward_order net_chain))]
                    (default {| f_name := ""; f_layer := layer_named "";
                                f_bottom := []; f_top := [] |}
                       (default [] (_forward_order net_chain) !! 1))
                    [] ["forward A"]).
    + by vm_compute.
    + eapply runs_forward_cons; [by vm_compute|]. constructor.
    + by vm_compute.
Defined.

(** ** Puff: seeking, reading, iterating *)

Section PuffReaderFacts.
Context {Elt : Type}.
Implicit Types self : Puff Elt.
Open Scope Z_scope.

Lemma seek_in_range self off :
  puff_ok self → _start self <= off < _end self →
  seek off self = (Ok tt, set_curr off (set_pos (off * _step self) self))
  ∧ puff_ok (set_curr off (set_pos (off * _step self) self)).
Proof.
  intros ((H0 & Hsc & Hce & Hen) & Hloc & Hstep & Hpos & Hlen) Hoff.
  unfold seek. rewrite decide_False by lia. rewrite decide_False by nia.
  split; [done|]. unfold puff_ok. simpl. repeat split; try done; lia.
Qed.

Lemma read_in_range self count :
  puff_ok self → 0 <= count → _curr self + count <= _end self →
  read count self
  = (Ok {| ashape := Z.to_nat count :: _shape self;
           aflat := records self (_curr self) count |},
     advance count self).
Proof.
  intros Hok Hc Hfit. unfold read. rewrite recursion_limit_deep.
  by apply read_within.
Qed.

Lemma advance_fields count self :
  _start (advance count self) = _start self
  ∧ _end (advance count self) = _end self
  ∧ _shape (advance count self) = _shape self
  ∧ _step (advance count self) = _step self
  ∧ _num_local_data (advance count self) = _num_local_data self
  ∧ _iter_count (advance count self) = _iter_count self
  ∧ fid_data (advance count self) = fid_data self
  ∧ _curr (advance count self)
    = (if decide (_curr self + count = _end self) then _start self
       else _curr self + count).
Proof. unfold advance. by destruct (decide _). Qed.

Lemma read_too_many self count :
  count > _num_local_data self → read count self = (Raise ValueError, self).
Proof.
  intros Hbig. unfold read. rewrite recursion_limit_deep.
  generalize (S 998). intros d. cbn [read_depth]. by rewrite decide_True.
Qed.

(** [seek(offset)] with an offset inside the active range positions the
    store at that record: the next [read(1)] returns it.  Any other
    offset raises [ValueError] and leaves the store where it was. *)
Theorem seek_then_read self off :
  puff_ok self →
  (_start self <= off < _end self →
   ∃ p, seek off self = (Ok tt, p) ∧ puff_ok p ∧ _curr p = off
        ∧ (read 1 p).1 = Ok {| ashape := 1%nat :: _shape self;
                               aflat := records self off 1 |})
  ∧ (¬ (_start self <= off < _end self) →
     seek off self = (Raise ValueError, self)).
Proof.
  intros Hok. split.
  - intros Hoff. destruct (seek_in_range self off Hok Hoff) as [Hseek Hok'].
    eexists. split; [exact Hseek|]. split; [done|]. split; [done|].
    rewrite read_in_range; [done|done|lia|].
    destruct Hok' as ((_ & _ & ? & _) & _). simpl in *. lia.
  - intros Hout. unfold seek. rewrite decide_True; [done|lia].
Qed.

(** A [read(count)] that does not go beyond the end of the range returns
    the next [count] records as one array of shape [(count,) + shape] and
    moves on by [count] records, back to the start of the range when the
    end is reached. *)
Theorem read_returns_next_records self count :
  puff_ok self → 0 <= count → _curr self + count <= _end self →
  ∃ p, read count self
       = (Ok {| ashape := Z.to_nat count :: _shape self;
                aflat := records self (_curr self) count |}, p)
     ∧ puff_ok p
     ∧ _curr p = (if decide (_curr self + count = _end self)
                  then _start self else _curr self + count)
     ∧ _start p = _start self ∧ _end p = _end self
     ∧ fid_data p = fid_data self.
Proof.
  intros Hok Hc Hfit. exists (advance count self).
  split; [by apply read_in_range|]. split; [by apply advance_ok|].
  destruct (advance_fields count self) as (? & ? & _ & _ & _ & _ & ? & ?).
  done.
Qed.

(** [read] keeps the store well-formed for every count that is not
    negative, whether it returns or raises; a count above the size of the
    range raises [ValueError] and changes nothing. *)
Theorem read_keeps_store_ok self count :
  puff_ok self → 0 <= count →
  puff_ok (read count self).2
  ∧ (count > _num_local_data self → read count self = (Raise ValueError, self)).
Proof.
  intros Hok Hc.
  pose proof Hok as ((H0 & Hsc & Hce & Hen) & Hloc & _).
  split.
  - destruct (decide (count > _num_local_data self)) as [Hbig|Hfits].
    { by rewrite read_too_many. }
    destruct (decide (_curr self + count <= _end self)) as [Hin|Hover].
    { rewrite read_in_range by done. by apply advance_ok. }
    unfold read. rewrite recursion_limit_deep.
    rewrite read_across_end; [|done|done|lia|lia]. cbn zeta.
    assert (Hok1 : puff_ok (advance (_end self - _curr self) self))
      by (apply advance_ok; [done|lia|lia]).
    destruct (advance_to_end self Hok) as (Hc1 & Hs1 & He1 & _).
    assert (Hok2 : puff_ok (advance (count - (_end self - _curr self))
                              (advance (_end self - _curr self) self))).
    { apply advance_ok; [done|lia|]. rewrite Hc1, He1. lia. }
    by destruct (decide _).
  - apply read_too_many.
Qed.

Lemma read_all_runs self :
  puff_ok self →
  read_all self
  = (Ok {| ashape := Z.to_nat (_num_local_data self) :: _shape self;
           aflat := records self (_start self) (_num_local_data self) |},
     advance (_num_local_data self)
       (set_curr (_start self) (set_pos (_start self * _step self) self))).
Proof.
  intros Hok.
  pose proof Hok as ((H0 & Hsc & Hce & Hen) & Hloc & _).
  destruct (seek_in_range self (_start self) Hok) as [Hseek Hok']; [lia|].
  unfold read_all. rewrite Hseek.
  by rewrite read_in_range by (done || (simpl; lia)).
Qed.

(** [read_all()] returns every record of the active range, in order,
    wherever the store was positioned, and leaves it at the start of the
    range. *)
Theorem read_all_returns_range self :
  puff_ok self →
  ∃ p, read_all self
       = (Ok {| ashape := Z.to_nat (_num_local_data self) :: _shape self;
                aflat := records self (_start self) (_num_local_data self) |},
          p)
     ∧ puff_ok p ∧ _curr p = _start self.
Proof.
  intros Hok.
  pose proof Hok as ((H0 & Hsc & Hce & Hen) & Hloc & _).
  destruct (seek_in_range self (_start self) Hok) as [_ Hok']; [lia|].
  eexists. split; [by apply read_all_runs|]. split.
  - apply advance_ok; [done|lia|simpl; lia].
  - unfold advance. simpl. by rewrite decide_True by lia.
Qed.

(** One call of [next] in the middle of an iteration. *)
Lemma next_yields self :
  puff_ok self → 0 <= _iter_count self →
  (_curr self = _start self → _iter_count self = 0) →
  next self
  = (Yield (record_at self (_curr self)),
     advance 1 (set_iter_count (_iter_count self + 1) self)).
Proof.
  intros Hok Hic Hfirst.
  pose proof Hok as ((H0 & Hsc & Hce & Hen) & Hloc & Hstep & Hpos & Hlen).
  unfold next.
  assert (Hgo : bool_decide (_curr self = _start self)
                && bool_decide (_iter_count self ≠ 0) = false).
  { apply andb_false_iff.
    destruct (decide (_curr self = _start self)) as [Heq|Hne].
    - right. apply bool_decide_eq_false. rewrite (Hfirst Heq). by intros [].
    - left. by apply bool_decide_eq_false. }
  rewrite Hgo. cbn zeta.
  set (self1 := set_iter_count _ self).
  assert (Hok1 : puff_ok self1) by done.
  rewrite (read_in_range self1) by (done || (subst self1; simpl; lia)).
  unfold first_row. cbn [ashape aflat].
  change (Z.to_nat 1) with 1%nat. cbn match.
  unfold record_at. do 3 f_equal.
  change (records self1 (_curr self1) 1) with (records self (_curr self) 1).
  apply take_ge. rewrite records_length by (simpl; nia). rewrite Hstep.
  subst self1. simpl. lia.
Qed.

Lemma for_loop_runs {St : Type} (body : array Elt → St → res unit * St) :
  ∀ (rem fuel : nat) self (s : St),
    puff_ok self → 0 <= _iter_count self →
    (_curr self = _start self → _iter_count self = 0) →
    Z.of_nat (S rem) = _end self - _curr self → (S rem < fuel)%nat →
    ∃ p, for_loop fuel body self s
         = Some ((run_body body (record_at self <$> seqZ (_curr self) (Z.of_nat (S rem))) s).1,
                 p,
                 (run_body body (record_at self <$> seqZ (_curr self) (Z.of_nat (S rem))) s).2).
Proof.
  induction rem as [|rem IH]; intros fuel self s Hok Hic Hfirst Hrem Hfuel.
  - destruct fuel as [|[|fuel]]; [lia|lia|].
    cbn [for_loop]. rewrite next_yields by done.
    change (Z.of_nat 1) with 1. rewrite seqZ_cons by lia.
    change (Z.pred 1) with 0. rewrite (seqZ_nil _ 0) by lia.
    cbn [fmap list_fmap run_body].
    destruct (body (record_at self (_curr self)) s) as [[[]|x] s1]; [|by eexists].
    set (self1 := advance 1 _).
    assert (Hstop : next self1 = (StopIteration, self1)).
    { unfold next.
      destruct (advance_fields 1 (set_iter_count (_iter_count self + 1) self))
        as (Hs & _ & _ & _ & _ & Hi & _ & Hc).
      fold self1 in Hs, Hi, Hc. rewrite Hc, Hs, Hi. simpl.
      rewrite decide_True by lia.
      rewrite bool_decide_eq_true_2 by done.
      rewrite bool_decide_eq_true_2 by lia. done. }
    rewrite Hstop. by eexists.
  - destruct fuel as [|fuel]; [lia|].
    cbn [for_loop]. rewrite next_yields by done.
    rewrite seqZ_cons by lia.
    cbn [fmap list_fmap run_body].
    change (list_fmap _ _ (record_at self)) with (fmap (M:=list) (record_at self)).
    destruct (body (record_at self (_curr self)) s) as [[[]|x] s1]; [|by eexists].
    set (self1 := advance 1 (set_iter_count (_iter_count self + 1) self)).
    destruct (advance_fields 1 (set_iter_count (_iter_count self + 1) self))
      as (Hs & He & Hsh & Hst & _ & Hi & Hf & Hc).
    fold self1 in Hs, He, Hsh, Hst, Hi, Hf, Hc. simpl in Hs, He, Hsh, Hst, Hi, Hf, Hc.
    rewrite decide_False in Hc by lia.
    pose proof Hok as ((H0 & Hsc & Hce & Hen) & _).
    destruct (IH fuel self1 s1) as (p & Hrun).
    + apply advance_ok; [done|lia|simpl; lia].
    + lia.
    + rewrite Hc, Hs. lia.
    + rewrite He, Hc. lia.
    + lia.
    + exists p. rewrite Hrun. rewrite Hc.
      replace (Z.succ (_curr self)) with (_curr self + 1) by lia.
      replace (Z.pred (Z.of_nat (S (S rem)))) with (Z.of_nat (S rem)) by lia.
      assert (Hrec : ∀ i, record_at self1 i = record_at self i).
      { intros i. unfold record_at, records. by rewrite Hsh, Hst, Hf. }
      by rewrite (list_fmap_ext _ _ _ (λ _ i _, Hrec i)).
Qed.

(** [for elem in puff: body(elem)] terminates, whatever the position of
    the store before the loop: the body is run on the records of the
    active range, each once and in order, up to the first record on which
    it raises. *)
Theorem iteration_visits_range self {St : Type}
    (body : array Elt → St → res unit * St) (s : St) (fuel : nat) :
  puff_ok self → (Z.to_nat (_num_local_data self) < fuel)%nat →
  ∃ p, for_each fuel body self s
       = Some ((run_body body (range_records self) s).1, p,
               (run_body body (range_records self) s).2).
Proof.
  intros Hok Hfuel.
  pose proof Hok as ((H0 & Hsc & Hce & Hen) & Hloc & _).
  destruct (seek_in_range self (_start self) Hok) as [Hseek Hok']; [lia|].
  unfold for_each, __iter__. rewrite Hseek.
  set (p0 := set_iter_count 0 _).
  destruct (for_loop_runs body (Z.to_nat (_num_local_data self) - 1) fuel p0 s)
    as (p & Hrun).
  - done.
  - done.
  - done.
  - subst p0. simpl. lia.
  - lia.
  - exists p. rewrite Hrun. unfold range_records.
    replace (Z.of_nat (S (Z.to_nat (_num_local_data self) - 1)))
      with (_num_local_data self) by lia.
    done.
Qed.

End PuffReaderFacts.

(** ** Puff: opening a range *)

Section PuffOpen.
Context {Elt : Type}.
Implicit Types self : Puff Elt.
Open Scope Z_scope.

(** [Puff(name, start, end)] on a file that holds the records the icing
    announces, with [0 <= start < end <= num] ([start] defaults to 0 and
    [end] to the number of records): the store is well-formed, its range
    is [[start, end)] and it is positioned at [start]. *)
Theorem Puff_init_opens_range (shp : list nat) (num : Z) (file : list Elt)
    (start end_ : option Z) :
  0 <= default 0 start → default 0 start < default num end_ →
  default num end_ <= num →
  Z.of_nat (length file) = num * Z.of_nat (prod_shape shp) →
  ∃ p, Puff_init shp num file start end_ = (Ok tt, p)
     ∧ puff_ok p
     ∧ _start p = default 0 start ∧ _end p = default num end_
     ∧ _curr p = default 0 start
     ∧ _shape p = shp ∧ fid_data p = file.
Proof.
  intros H0 Hlt Hle Hlen.
  unfold Puff_init, set_range, seek, puff_open.
  destruct start as [s|], end_ as [e|]; simpl in *.
  - rewrite decide_False by lia. rewrite decide_False by lia.
    rewrite decide_False by nia. simpl.
    rewrite !bool_decide_eq_true_2 by lia. simpl.
    eexists. split; [reflexivity|]. unfold puff_ok. simpl.
    repeat split; try done; lia.
  - rewrite decide_False by lia. rewrite decide_False by lia.
    rewrite decide_False by nia. simpl.
    eexists. split; [reflexivity|]. unfold puff_ok. simpl.
    repeat split; try done; lia.
  - rewrite !bool_decide_eq_true_2 by lia. simpl.
    eexists. split; [reflexivity|]. unfold puff_ok. simpl.
    repeat split; try done; lia.
  - eexists. split; [reflexivity|]. unfold puff_ok. simpl.
    repeat split; try done; lia.
Qed.

(** The checks of [Puff(name, start, end)]: a given [start] has to be
    below the number of records and must not be negative (unless a record
    has no elements); a given [end] has to be at most the number of
    records and, when [start] is given too, above it.  Nothing else is
    checked: without [start], any [end] up to the number of records is
    accepted, zero and negative ones included. *)
Theorem Puff_init_succeeds_iff (shp : list nat) (num : Z) (file : list Elt)
    (start end_ : option Z) :
  is_ok (Puff_init shp num file start end_).1 = true
  ↔ (∀ s, start = Some s → s < num ∧ (0 <= s ∨ prod_shape shp = 0%nat))
    ∧ (∀ e, end_ = Some e → e <= num ∧ ∀ s, start = Some s → s < e).
Proof.
  unfold Puff_init, set_range, seek, puff_open.
  assert (Hsign : ∀ s, s * Z.of_nat (prod_shape shp) < 0
                       ↔ ¬ (0 <= s ∨ prod_shape shp = 0%nat)) by (intros; nia).
  destruct start as [s|]; simpl.
  - destruct (decide (s > num)) as [Hbig|Hfits]; simpl.
    { split; [done|]. intros [Hs _]. destruct (Hs s eq_refl). lia. }
    destruct (decide (s < s ∨ s >= num)) as [Hout|Hin]; simpl.
    { split; [done|]. intros [Hs _]. destruct (Hs s eq_refl). lia. }
    destruct (decide (s * Z.of_nat (prod_shape shp) < 0)) as [Hneg|Hpos]; simpl.
    { split; [done|]. intros [Hs _]. destruct (Hs s eq_refl) as [_ Hsgn].
      by apply Hsign in Hneg. }
    assert (Hstart : s < num ∧ (0 <= s ∨ prod_shape shp = 0%nat)).
    { split; [lia|]. destruct (decide (0 <= s ∨ prod_shape shp = 0%nat)); [done|].
      exfalso. apply Hpos. by apply Hsign. }
    destruct end_ as [e|]; simpl.
    + destruct (bool_decide (e > s)) eqn:Hes; simpl.
      * destruct (bool_decide (e <= num)) eqn:Hen; simpl.
        -- apply bool_decide_eq_true in Hes, Hen. split; [|done]. intros _.
           split; [by intros ? [= <-]|]. intros ? [= <-]. split; [done|].
           intros ? [= <-]. lia.
        -- apply bool_decide_eq_false in Hen. split; [done|].
           intros [_ He]. destruct (He e eq_refl). lia.
      * apply bool_decide_eq_false in Hes. split; [done|].
        intros [_ He]. destruct (He e eq_refl) as [_ Hse].
        specialize (Hse s eq_refl). lia.
    + split; [|done]. intros _. split; [by intros ? [= <-]|done].
  - destruct end_ as [e|]; simpl.
    + destruct (bool_decide (e <= num)) eqn:Hen; simpl.
      * apply bool_decide_eq_true in Hen. split; [|done]. intros _.
        split; [done|]. intros ? [= <-]. done.
      * apply bool_decide_eq_false in Hen. split; [done|].
        intros [_ He]. destruct (He e eq_refl). lia.
    + split; [|done]. done.
Qed.

End PuffOpen.

(** ** PuffStreamedWriter, write_puff and puffmap *)

Section PuffWriterFacts.
Context {Elt : Type}.
Import PuffStreamedWriter.
Open Scope Z_scope.

Lemma first_row_ok (a : array Elt) :
  (∃ n s, ashape a = S n :: s
          ∧ first_row a = Ok {| ashape := s; aflat := take (prod_shape s) (aflat a) |})
  ∨ (first_row a = Raise IndexError
     ∧ (ashape a = [] ∨ ∃ s, ashape a = 0%nat :: s)).
Proof.
  unfold first_row. destruct (ashape a) as [|[|n] s].
  - right. split; [done|by left].
  - right. split; [done|right; by eexists].
  - left. by exists n, s.
Qed.

Lemma check_validity_outcome shp dt (w : writer Elt) :
  (∃ w', check_validity shp dt w = (Ok tt, w')
         ∧ _shape w' = Some shp ∧ _num_data w' = _num_data w
         ∧ _fid w' = _fid w
         ∧ (_shape w = None ∨ w' = w))
  ∨ check_validity shp dt w = (Raise TypeError, w).
Proof.
  unfold check_validity. destruct (_shape w) as [s|] eqn:Hs.
  - destruct (bool_decide (s ≠ shp)) eqn:Hne; simpl; [by right|].
    destruct (bool_decide (_dtype w ≠ Some dt)); simpl; [by right|].
    apply bool_decide_eq_false in Hne. apply dec_stable in Hne as ->.
    left. exists w. repeat split; try done. by right.
  - left. eexists. split; [reflexivity|]. simpl. repeat split. by left.
Qed.

(** The writer validates before it writes: a [write_single] or
    [write_batch] that raises (the array differs in shape or dtype from
    the first one written, or the batch has no first row) leaves the
    writer and its file as they were.  Writes of arrays that hold the
    elements of their shape keep the file consistent: it holds exactly
    [_num_data] records of the shape fixed by the first write. *)
Theorem writer_keeps_file_consistent (w : writer Elt) (arr : typed_array Elt) :
  (∀ e w', write_single arr w = (Raise e, w') → e = TypeError ∧ w' = w)
  ∧ (∀ e w', write_batch arr w = (Raise e, w') →
             (e = TypeError ∨ e = IndexError) ∧ w' = w)
  ∧ (writer_ok w → array_ok (ta_array arr) →
     writer_ok (write_single arr w).2 ∧ writer_ok (write_batch arr w).2).
Proof.
  split; [|split].
  - intros e w'. unfold write_single.
    destruct (check_validity_outcome (ashape (ta_array arr)) (ta_dtype arr) w)
      as [(w1 & -> & _)| ->]; [done|]. by intros [= <- <-].
  - intros e w'. unfold write_batch.
    destruct (first_row_ok (ta_array arr)) as [(n & s & Hs & ->)|[-> _]].
    + cbn [ashape].
      destruct (check_validity_outcome s (ta_dtype arr) w)
        as [(w1 & -> & _)| ->]; [done|]. intros [= <- <-]. split; [by left|done].
    + intros [= <- <-]. split; [by right|done].
  - intros [Hnum Hfile] Harr. unfold array_ok in Harr. split.
    + unfold write_single.
      destruct (check_validity_outcome (ashape (ta_array arr)) (ta_dtype arr) w)
        as [(w1 & -> & Hs1 & Hn1 & Hf1 & Hwas)| ->]; [|done].
      unfold writer_ok. cbn. rewrite Hs1, Hn1, Hf1. split; [lia|].
      rewrite length_app, Harr.
      destruct Hwas as [Hnone| ->].
      * rewrite Hnone in Hfile. destruct Hfile as [-> ->]. simpl. lia.
      * rewrite Hs1 in Hfile. lia.
    + unfold write_batch.
      destruct (first_row_ok (ta_array arr)) as [(n & s & Hs & ->)|[-> _]];
        [|done].
      cbn [ashape].
      destruct (check_validity_outcome s (ta_dtype arr) w)
        as [(w1 & -> & Hs1 & Hn1 & Hf1 & Hwas)| ->]; [|done].
      unfold writer_ok. cbn. rewrite Hs1, Hn1, Hf1, Hs. cbn [hd]. split; [lia|].
      rewrite length_app, Harr, Hs. cbn [prod_shape foldr].
      fold (prod_shape s).
      destruct Hwas as [Hnone| ->].
      * rewrite Hnone in Hfile. destruct Hfile as [-> ->]. simpl. lia.
      * rewrite Hs1 in Hfile. lia.
Qed.

Lemma open_written_file (s : list nat) (num : Z) (file : list Elt) :
  0 < num → Z.of_nat (length file) = num * Z.of_nat (prod_shape s) →
  ∃ p p', Puff_init s num file None None = (Ok tt, p)
        ∧ read_all p = (Ok {| ashape := Z.to_nat num :: s; aflat := file |}, p').
Proof.
  intros Hnum Hlen.
  set (p := set_range_fields 0 num (num - 0) (puff_open s num file)).
  assert (Hok : puff_ok p).
  { unfold puff_ok, p. simpl. repeat split; try done; lia. }
  exists p. eexists. split; [reflexivity|].
  rewrite read_all_runs by done. apply (f_equal2 pair); [|reflexivity].
  subst p. simpl. do 2 f_equal.
  - f_equal. lia.
  - unfold records. simpl. apply take_ge. lia.
Qed.

(** Whatever a writer has written can be read back: when the file is
    consistent and holds at least one record, [finish] leaves an icing and
    a data file that [Puff] opens and whose [read_all] returns the written
    elements, in the order written, as [_num_data] records.  A writer
    that has written nothing raises [ValueError] in [finish]. *)
Theorem finished_store_reads_back (w : writer Elt) :
  writer_ok w →
  (_num_data w = 0 → finish w = Raise ValueError)
  ∧ (_num_data w ≠ 0 →
     ∃ s files p p',
       _shape w = Some s
       ∧ finish w = Ok files
       ∧ icing_num files.1 = _num_data w ∧ icing_dtype files.1 = _dtype w
       ∧ Puff_of_files files None None = (Ok tt, Some p)
       ∧ read_all p
         = (Ok {| ashape := Z.to_nat (_num_data w) :: s; aflat := _fid w |}, p')).
Proof.
  intros [Hnum Hfile]. unfold finish. split.
  - intros ->. done.
  - intros Hne. rewrite decide_False by done.
    destruct (_shape w) as [s|] eqn:Hs; [|by destruct Hfile].
    destruct (open_written_file s (_num_data w) (_fid w)) as (p & p' & Hinit & Hread);
      [lia|done|].
    exists s. eexists. exists p, p'. split; [done|]. split; [reflexivity|].
    cbn [fst snd icing_num icing_dtype]. split; [done|]. split; [done|].
    unfold Puff_of_files. cbn [fst snd icing_shape icing_num].
    by rewrite Hinit.
Qed.

(** [write_puff] followed by [Puff(...).read_all()] gives the array back:
    for an array of at least one record that holds the elements of its
    shape, the icing records the shape of a record, the dtype and the
    number of records, and reading the whole store returns an array equal
    to the one written. *)
Theorem write_puff_read_all_round_trip (arr : typed_array Elt) (n : nat)
    (s : list nat) :
  ashape (ta_array arr) = S n :: s → array_ok (ta_array arr) →
  ∃ files p p',
    write_puff arr = Ok files
    ∧ files.1 = {| icing_shape := Some s; icing_dtype := Some (ta_dtype arr);
                   icing_num := Z.of_nat (S n) |}
    ∧ Puff_of_files files None None = (Ok tt, Some p)
    ∧ read_all p = (Ok (ta_array arr), p').
Proof.
  intros Hs Harr. unfold array_ok in Harr.
  assert (Hw : write_puff arr
               = Ok ({| icing_shape := Some s; icing_dtype := Some (ta_dtype arr);
                        icing_num := Z.of_nat (S n) |}, aflat (ta_array arr))).
  { unfold write_puff, write_batch, first_row. rewrite Hs.
    unfold check_validity, init, append, finish. simpl. reflexivity. }
  destruct (open_written_file s (Z.of_nat (S n)) (aflat (ta_array arr)))
    as (p & p' & Hinit & Hread).
  { lia. }
  { rewrite Harr, Hs. cbn [prod_shape foldr]. fold (prod_shape s). lia. }
  eexists _, p, p'. split; [exact Hw|].
  cbn [fst snd]. split; [done|].
  unfold Puff_of_files. cbn [fst snd icing_shape icing_num].
  rewrite Hinit. split; [done|].
  rewrite Hread. destruct arr as [dt [shp flat]]. cbn in *. subst shp.
  by rewrite Nat2Z.id.
Qed.

(** The loop of [puffmap] with [write_single]: every transformed element
    is appended. *)
Lemma run_body_write_single (func : array Elt → typed_array Elt)
    (s' : list nat) (dt : dtype) (elems : list (array Elt)) : ∀ w : writer Elt,
  (∀ elem, elem ∈ elems →
     ta_dtype (func elem) = dt ∧ ashape (ta_array (func elem)) = s') →
  _shape w = None ∨ (_shape w = Some s' ∧ _dtype w = Some dt) →
  run_body (λ elem w, write_single (func elem) w) elems w
  = (Ok tt,
     {| _shape := if decide (elems = []) then _shape w else Some s';
        _num_data := _num_data w + Z.of_nat (length elems);
        _dtype := if decide (elems = []) then _dtype w else Some dt;
        _fid := _fid w ++ concat ((λ elem, aflat (ta_array (func elem))) <$> elems) |}).
Proof.
  induction elems as [|elem elems IH]; intros w Hfunc Hw.
  - cbn. destruct w. cbn. by rewrite Z.add_0_r, app_nil_r.
  - cbn [run_body]. destruct (Hfunc elem) as [Hdt Hsh]; [by left|].
    assert (Hws : write_single (func elem) w
                  = (Ok tt, {| _shape := Some s'; _num_data := _num_data w + 1;
                               _dtype := Some dt;
                               _fid := _fid w ++ aflat (ta_array (func elem)) |})).
    { unfold write_single, check_validity. rewrite Hdt, Hsh.
      destruct Hw as [Hnone|[Hsw Hd]].
      - by rewrite Hnone.
      - rewrite Hsw, Hd.
        rewrite bool_decide_eq_false_2 by (intros Hne; by apply Hne).
        rewrite bool_decide_eq_false_2 by (intros Hne; by apply Hne).
        cbn. unfold append. by rewrite Hsw, Hd. }
    rewrite Hws. rewrite IH; cbn.
    + rewrite !(decide_False (P := elem :: elems = [])) by done.
      destruct (decide (elems = [])); do 2 f_equal;
        first [lia | by rewrite <- app_assoc].
    + intros e He. apply Hfunc. by right.
    + by right.
Qed.

(** [puffmap] with [write_single]: when the transform gives every record
    of the active range an array of one shape and dtype, [puffmap]
    terminates and leaves a store of as many records as the range has,
    whose data file is the transformed records in order. *)
Theorem puffmap_maps_records (func : array Elt → typed_array Elt)
    (puff : Puff Elt) (s' : list nat) (dt : dtype) (fuel : nat) :
  puff_ok puff → (Z.to_nat (_num_local_data puff) < fuel)%nat →
  (∀ elem, elem ∈ range_records puff →
     ta_dtype (func elem) = dt ∧ ashape (ta_array (func elem)) = s') →
  ∃ p, puffmap fuel func puff false
       = Some (Ok ({| icing_shape := Some s'; icing_dtype := Some dt;
                      icing_num := _num_local_data puff |},
                   concat ((λ elem, aflat (ta_array (func elem)))
                             <$> range_records puff)),
               p).
Proof.
  intros Hok Hfuel Hfunc.
  pose proof Hok as ((H0 & Hsc & Hce & Hen) & Hloc & _).
  unfold puffmap. cbn zeta.
  destruct (seek_in_range puff (_start puff) Hok) as [Hseek Hok']; [lia|].
  unfold for_each, __iter__. rewrite Hseek.
  destruct (for_loop_runs (λ elem w, write_single (func elem) w)
              (Z.to_nat (_num_local_data puff) - 1) fuel
              (set_iter_count 0 (set_curr (_start puff)
                                   (set_pos (_start puff * _step puff) puff)))
              init) as (p & Hrun); [done|done|done|simpl; lia|lia|].
  rewrite Hrun. cbn [_curr set_iter_count set_curr].
  replace (Z.of_nat (S (Z.to_nat (_num_local_data puff) - 1)))
    with (_num_local_data puff) by lia.
  change (record_at _ <$> seqZ (_start puff) (_num_local_data puff))
    with (range_records puff).
  rewrite (run_body_write_single func s' dt) by (done || by left).
  cbn [fst snd].
  assert (Hlen : length (range_records puff) = Z.to_nat (_num_local_data puff)).
  { unfold range_records. by rewrite length_fmap, length_seqZ. }
  assert (Hne : range_records puff ≠ []).
  { intros Hnil. rewrite Hnil in Hlen. simpl in Hlen. lia. }
  exists p. unfold finish. cbn. rewrite decide_False by lia.
  rewrite !(decide_False (P := range_records puff = [])) by done.
  rewrite Hlen.
  by replace (0 + Z.of_nat (Z.to_nat (_num_local_data puff)))
    with (_num_local_data puff) by lia.
Qed.

End PuffWriterFacts.

Lemma pair_store_ok : puff_ok pair_store.
Proof. vm_compute. repeat split; congruence. Qed.

Lemma writer_after_two_batches_ok : writer_ok writer_after_two_batches.
Proof. vm_compute. split; [congruence|reflexivity]. Qed.

Lemma seek_then_read_witness :
  ∃ p, seek 1 pair_store = (Ok tt, p)
     ∧ (read 1 p).1 = Ok {| ashape := [1; 2]%nat; aflat := [3; 4]%Z |}.
Proof.
  destruct (seek_then_read pair_store 1 pair_store_ok) as [Hin _].
  destruct Hin as (p & Hseek & _ & _ & Hread).
  - vm_compute. split; congruence.
  - exists p. split; [exact Hseek|]. rewrite Hread. reflexivity.
Defined.

Lemma read_returns_next_records_witness :
  ∃ p, read 2 pair_store
       = (Ok {| ashape := [2; 2]%nat; aflat := [1; 2; 3; 4]%Z |}, p)
     ∧ _curr p = 2%Z.
Proof.
  destruct (read_returns_next_records pair_store 2 pair_store_ok)
    as (p & Hread & _ & Hcurr & _).
  1-2: by vm_compute.
  exists p. split; [exact Hread|]. rewrite Hcurr. reflexivity.
Defined.

Lemma read_keeps_store_ok_witness : puff_ok (read 3 pair_store_at_2).2.
Proof.
  destruct (read_keeps_store_ok pair_store_at_2 3 pair_store_at_2_ok)
    as [Hok _].
  - by vm_compute.
  - exact Hok.
Defined.

Lemma read_all_returns_range_witness :
  ∃ p, read_all pair_store_at_2
       = (Ok {| ashape := [3; 2]%nat; aflat := [1; 2; 3; 4; 5; 6]%Z |}, p)
     ∧ _curr p = 0%Z.
Proof.
  destruct (read_all_returns_range pair_store_at_2 pair_store_at_2_ok)
    as (p & Hread & _ & Hcurr).
  exists p. split; [exact Hread|]. rewrite Hcurr. reflexivity.
Defined.

Lemma iteration_visits_range_witness :
  ∃ p, for_each 4 (λ elem seen, (Ok tt, seen ++ [aflat elem])) pair_store_at_2 []
       = Some (Ok tt, p, [[1; 2]; [3; 4]; [5; 6]]%Z).
Proof.
  destruct (iteration_visits_range pair_store_at_2
              (λ elem seen, (Ok tt, seen ++ [aflat elem])) [] 4
              pair_store_at_2_ok) as (p & Hrun).
  - vm_compute. lia.
  - exists p. rewrite Hrun. reflexivity.
Defined.

Lemma Puff_init_opens_range_witness :
  ∃ p, Puff_init [2] 3 [1; 2; 3; 4; 5; 6]%Z (Some 1%Z) (Some 3%Z) = (Ok tt, p)
     ∧ puff_ok p ∧ _start p = 1%Z ∧ _end p = 3%Z ∧ _curr p = 1%Z.
Proof.
  destruct (Puff_init_opens_range [2] 3 [1; 2; 3; 4; 5; 6]%Z (Some 1%Z) (Some 3%Z))
    as (p & Hinit & Hok & Hs & He & Hc & _).
  1-4: by vm_compute.
  exists p. split; [exact Hinit|]. split; [exact Hok|].
  split; [exact Hs|]. split; [exact He|exact Hc].
Defined.

Lemma finished_store_reads_back_witness :
  ∃ files p p',
    PuffStreamedWriter.finish writer_after_two_batches = Ok files
    ∧ Puff_of_files files None None = (Ok tt, Some p)
    ∧ read_all p
      = (Ok {| ashape := [3; 2]%nat; aflat := [1; 2; 3; 4; 5; 6]%Z |}, p').
Proof.
  destruct (finished_store_reads_back writer_after_two_batches
              writer_after_two_batches_ok) as [_ Hback].
  destruct Hback as (s & files & p & p' & Hs & Hfin & _ & _ & Hopen & Hread).
  - by vm_compute.
  - exists files, p, p'. split; [exact Hfin|]. split; [exact Hopen|].
    rewrite Hread. vm_compute in Hs. injection Hs as <-. reflexivity.
Defined.

Lemma write_puff_read_all_round_trip_witness :
  ∃ files p p',
    write_puff pairs_array = Ok files
    ∧ Puff_of_files files None None = (Ok tt, Some p)
    ∧ read_all p = (Ok (ta_array pairs_array), p').
Proof.
  destruct (write_puff_read_all_round_trip pairs_array 2 [2])
    as (files & p & p' & Hw & _ & Hopen & Hread).
  1-2: reflexivity.
  exists files, p, p'. split; [exact Hw|]. split; [exact Hopen|exact Hread].
Defined.

Lemma puffmap_maps_records_witness :
  ∃ p, puffmap 4 doubled pair_store_at_2 false
       = Some (Ok ({| icing_shape := Some [2]; icing_dtype := Some int64;
                      icing_num := 3 |},
                   [2; 4; 6; 8; 10; 12]%Z), p).
Proof.
  destruct (puffmap_maps_records doubled pair_store_at_2 [2] int64 4
              pair_store_at_2_ok) as (p & Hrun).
  - vm_compute. lia.
  - intros elem Hin. apply list_elem_of_In in Hin. vm_compute in Hin.
    destruct Hin as [<-|[<-|[<-|[]]]]; split; reflexivity.
  - exists p. rewrite Hrun. reflexivity.
Defined.

(** ** Net.finish: building the schedule *)

Section FinishSchedule.
Variable topological_sort : DiGraph → option (list string).
Implicit Types (self : Net).

Lemma blob_refs_ok self names :
  (∀ b, b ∈ names → is_Some (blobs self !! b)) → blob_refs self names = Ok names.
Proof.
  induction names as [|b names IH]; intros Hall; [done|].
  cbn [blob_refs]. unfold getitem at 1.
  destruct (Hall b) as [v ->]; [by left|]. cbn.
  rewrite IH; [done|]. intros b' Hb'. apply Hall. by right.
Qed.

Lemma forward_entry_ok self n layer :
  layers self !! n = Some layer → wired self n →
  ∃ e, forward_entry self n = Ok e ∧ f_name e = n ∧ f_layer e = layer
       ∧ (_actual_needs self ≫= (λ d, d !! n)) = Some (f_bottom e)
       ∧ _provides self !! n = Some (f_top e).
Proof.
  intros Hl (actual & needs & provides & Ha & Hn & Hp & Hblobs).
  unfold forward_entry, getitem. rewrite Hl. cbn.
  destruct (_actual_needs self) as [d|]; [|done]. cbn in Ha. rewrite Ha. cbn.
  rewrite blob_refs_ok by (intros b Hb; apply Hblobs; set_solver).
  cbn. rewrite Hp. cbn.
  rewrite blob_refs_ok by (intros b Hb; apply Hblobs; set_solver).
  cbn. by eexists.
Qed.

Lemma build_forward_order_ok self order : ∀ acc,
  (∀ n, n ∈ order → is_Some (layers self !! n) ∧ wired self n) →
  ∃ fo, build_forward_order self order acc = (Ok tt, acc ++ fo)
      ∧ f_name <$> fo = order
      ∧ ∀ e, e ∈ fo →
          layers self !! f_name e = Some (f_layer e)
          ∧ (_actual_needs self ≫= (λ d, d !! f_name e)) = Some (f_bottom e)
          ∧ _provides self !! f_name e = Some (f_top e).
Proof.
  induction order as [|n order IH]; intros acc Hall.
  - exists []. rewrite app_nil_r. split; [done|]. split; [done|].
    intros e He. by apply elem_of_nil in He.
  - destruct (Hall n) as [[layer Hl] Hw]; [by left|].
    destruct (forward_entry_ok self n layer Hl Hw) as (e & He & Hn & Hly & Hb & Ht).
    destruct (IH (acc ++ [e])) as (fo & Hrun & Hnames & Hfo).
    { intros n' Hn'. apply Hall. by right. }
    exists (e :: fo). cbn [build_forward_order]. rewrite He, Hrun.
    rewrite <- app_assoc. split; [done|]. split; [cbn; by rewrite Hn, Hnames|].
    intros e' He'. apply elem_of_cons in He' as [->|He']; [|by apply Hfo].
    by rewrite Hn, Hly.
Qed.

Lemma backward_entry_ok self n layer (flag pd : bool) :
  layers self !! n = Some layer → wired self n →
  get_attr (_graph self) n "need_backward" = Ok flag →
  get_attr (_graph self) n "propagate_down" = Ok pd →
  ∃ r, backward_entry self n = Ok r.
Proof.
  intros Hl (actual & needs & provides & Ha & Hn & Hp & Hblobs) Hflag Hpd.
  unfold backward_entry, getitem. rewrite Hflag. cbn.
  destruct flag; [|by eexists].
  rewrite Hl. cbn. rewrite Hn. cbn.
  rewrite blob_refs_ok by (intros b Hb; apply Hblobs; set_solver).
  cbn. rewrite Hp. cbn.
  rewrite blob_refs_ok by (intros b Hb; apply Hblobs; set_solver).
  cbn. rewrite Hpd. cbn. by eexists.
Qed.

Lemma build_backward_order_ok self order : ∀ acc,
  (∀ n, n ∈ order →
     is_Some (layers self !! n) ∧ wired self n
     ∧ is_ok (get_attr (_graph self) n "need_backward") = true
     ∧ is_ok (get_attr (_graph self) n "propagate_down") = true) →
  ∃ bo, build_backward_order self order acc = (Ok tt, bo).
Proof.
  induction order as [|n order IH]; intros acc Hall.
  - by eexists.
  - destruct (Hall n) as ([layer Hl] & Hw & Hflag & Hpd); [by left|].
    destruct (get_attr (_graph self) n "need_backward") as [flag|] eqn:Ef; [|done].
    destruct (get_attr (_graph self) n "propagate_down") as [pd|] eqn:Ep; [|done].
    destruct (backward_entry_ok self n layer flag pd Hl Hw Ef Ep) as (r & Hr).
    cbn [build_backward_order]. rewrite Hr.
    destruct r as [e|]; apply IH; intros n' Hn'; apply Hall; by right.
Qed.

Lemma collect_params_ok self order : ∀ acc,
  (∀ n, n ∈ order → is_Some (layers self !! n)) →
  collect_params self order acc = (Ok tt, acc ++ params_of self order).
Proof.
  unfold params_of.
  induction order as [|n order IH]; intros acc Hall.
  - cbn. by rewrite app_nil_r.
  - destruct (Hall n) as [layer Hl]; [by left|].
    cbn [collect_params]. unfold getitem. rewrite Hl.
    rewrite IH by (intros n' Hn'; apply Hall; by right).
    cbn. rewrite Hl. cbn. by rewrite <- app_assoc.
Qed.

(** The part of [finish] behind [_generate_graph] (lines 472-532) returns
    normally on a net whose graph has the topological order the sort
    returns and whose layers in that order are wired.  It marks the net
    finished; the forward plan lists the layers of the order, each with
    the blobs of its actual needs and of its provides; the backward plan
    lists, in reverse order, the layers flagged [need_backward]; and
    [params()] is the concatenation of the layers' parameters in the order
    of the forward plan. *)
Theorem finish_schedule_succeeds self (order : list string) :
  topological_sort (_graph self) = Some order →
  topological (_graph self) order →
  (∀ n, n ∈ order → is_Some (layers self !! n) → wired self n) →
  ∃ self' fo bo,
    finish_schedule topological_sort self = (Ok tt, self')
    ∧ _finished self' = true
    ∧ _forward_order self' = Some fo ∧ _backward_order self' = Some bo
    ∧ f_name <$> fo = layerorder self order
    ∧ (∀ e, e ∈ fo →
         layers self !! f_name e = Some (f_layer e)
         ∧ (_actual_needs self ≫= (λ d, d !! f_name e)) = Some (f_bottom e)
         ∧ _provides self !! f_name e = Some (f_top e))
    ∧ b_name <$> bo
      = filter (need_backward (_graph self')) (reverse (layerorder self order))
    ∧ _params self' = Some (params_of self (layerorder self order))
    ∧ layers self' = layers self ∧ blobs self' = blobs self.
Proof.
  intros Hsort Htopo Hwired.
  pose proof Htopo as (Hnd & Hnodes & Hts).
  destruct (flag_pass_inv (layers self) order [] (_graph self) Hnd Hnodes Hts)
    as (g' & Hflags & He & Hall).
  { intros m Hm. by apply elem_of_nil in Hm. }
  unfold finish_schedule. rewrite Hsort, Hflags.
  set (self1 := set_graph g' self).
  assert (Hlo : layerorder self1 order = layerorder self order) by done.
  rewrite Hlo.
  assert (Hin : ∀ n, n ∈ layerorder self order →
                     n ∈ order ∧ is_Some (layers self !! n)).
  { intros n Hn. unfold layerorder in Hn.
    apply list_elem_of_filter in Hn. tauto. }
  destruct (build_forward_order_ok self1 (layerorder self order) [])
    as (fo & Hfo & Hnames & Hentries).
  { intros n Hn. destruct (Hin n Hn) as [Ho Hl]. split; [done|].
    by apply (Hwired n Ho Hl). }
  rewrite Hfo. cbn [app].
  set (self2 := set_forward_order (Some fo) self1).
  destruct (build_backward_order_ok self2 (reverse (layerorder self order)) [])
    as (bo & Hbo).
  { intros n Hn. rewrite elem_of_reverse in Hn.
    destruct (Hin n Hn) as [Ho Hl]. split; [done|].
    split; [by apply (Hwired n Ho Hl)|].
    destruct (Hall n Ho) as [Hnb Hpd]. cbn [_graph self2 set_forward_order self1 set_graph].
    by rewrite Hnb, (Hpd Hl). }
  rewrite Hbo.
  set (self3 := set_backward_order (Some bo) self2).
  rewrite (collect_params_ok self3) by (intros n Hn; by apply Hin).
  eexists _, fo, bo. split; [reflexivity|]. cbn.
  split; [done|]. split; [done|]. split; [done|]. split; [done|].
  split; [exact Hentries|]. split; [|done].
  apply build_backward_order_names in Hbo. exact Hbo.
Qed.

End FinishSchedule.

Lemma finish_schedule_succeeds_witness :
  ∃ self' fo bo,
    finish_schedule (λ _, Some chain_order) net_chain_graphed = (Ok tt, self')
    ∧ _finished self' = true
    ∧ _forward_order self' = Some fo ∧ _backward_order self' = Some bo
    ∧ f_name <$> fo = ["A"; "B"]
    ∧ _params self' = Some [new_blob None].
Proof.
  destruct (finish_schedule_succeeds (λ _, Some chain_order)
              net_chain_graphed chain_order)
    as (self' & fo & bo & Hrun & Hfin & Hfo & Hbo & Hnames & _ & _ & Hparams & _).
  - reflexivity.
  - exact chain_topological.
  - intros n Hn Hl. apply list_elem_of_In in Hn. simpl in Hn.
    destruct Hn as [<-|[<-|[<-|[<-|[]]]]].
    + exists [], [], ["x"]. repeat split; try by vm_compute.
      intros b Hb. apply list_elem_of_singleton in Hb as ->. vm_compute. by eexists.
    + vm_compute in Hl. by destruct Hl.
    + exists ["x"], ["x"], ["y"]. repeat split; try by vm_compute.
      intros b Hb. apply list_elem_of_In in Hb. simpl in Hb.
      destruct Hb as [<-|[<-|[<-|[]]]]; vm_compute; by eexists.
    + vm_compute in Hl. by destruct Hl.
  - exists self', fo, bo. split; [exact Hrun|]. split; [exact Hfin|].
    split; [exact Hfo|]. split; [exact Hbo|].
    split; [rewrite Hnames; by vm_compute|].
    rewrite Hparams. by vm_compute.
Defined.

(** ** Net.predict *)

Section PredictFacts.
Context {World Loss Arr : Type}.
Context `{LossNum Loss} `{LayerCalls World Loss} `{BlobStore World Arr}.
Implicit Types (self : Net) (w : World).

Lemma output_data_spec self names w : ∀ out,
  output_data self names w = Ok out
  ↔ out.*1 = names
    ∧ Forall (λ o, is_Some (blobs self !! o.1) ∧ blob_data o.1 w = Ok o.2) out.
Proof.
  induction names as [|nm names IH]; intros out; cbn [output_data].
  - split.
    + intros [= <-]. by split.
    + intros [Hnil _]. by destruct out.
  - unfold getitem. destruct (blobs self !! nm) as [b|] eqn:Hb; cbn.
    + destruct (blob_data nm w) as [arr|x] eqn:Hd; cbn.
      * destruct (output_data self names w) as [out'|x] eqn:Hrest; cbn.
        -- split.
           ++ intros [= <-]. destruct (proj1 (IH out') eq_refl) as [Hn Hall].
              split; [cbn; by rewrite Hn|].
              constructor; [|done]. cbn. split; [by eexists|done].
           ++ intros [Hn Hall]. destruct out as [|[nm' arr'] out]; [done|].
              cbn in Hn. injection Hn as -> Hn.
              apply Forall_cons in Hall as [[_ Harr] Hall]. cbn in Harr.
              rewrite Hd in Harr. injection Harr as <-.
              assert (Hout : Ok out' = Ok out) by (by apply IH).
              by injection Hout as <-.
        -- split; [done|]. intros [Hn Hall].
           destruct out as [|[nm' arr'] out]; [done|].
           cbn in Hn. injection Hn as -> Hn.
           apply Forall_cons in Hall as [_ Hall].
           assert (Hout : Raise x = Ok out) by (by apply IH).
           discriminate Hout.
      * split; [done|]. intros [Hn Hall].
        destruct out as [|[nm' arr'] out]; [done|].
        cbn in Hn. injection Hn as -> Hn.
        apply Forall_cons in Hall as [[_ Harr] _]. cbn in Harr.
        by rewrite Hd in Harr.
    + split; [done|]. intros [Hn Hall].
      destruct out as [|[nm' arr'] out]; [done|].
      cbn in Hn. injection Hn as -> Hn.
      apply Forall_cons in Hall as [[[b Hsome] _] _]. cbn in Hsome.
      by rewrite Hb in Hsome.
Qed.

Lemma mirror_inputs_known self kwargs : ∀ w w1,
  mirror_inputs self kwargs w = (Ok tt, w1) →
  ∀ nm, nm ∈ kwargs.*1 → is_Some (blobs self !! nm).
Proof.
  induction kwargs as [|[nm arr] kwargs IH]; intros w w1; cbn [mirror_inputs].
  - intros _ nm Hnm. by apply elem_of_nil in Hnm.
  - unfold getitem. destruct (blobs self !! nm) as [b|] eqn:Hb; [|done].
    destruct (blob_mirror nm arr w) as [[[]|x] w2]; [|done].
    intros Hrest nm' Hnm'. cbn in Hnm'.
    apply elem_of_cons in Hnm' as [->|Hnm']; [by eexists|].
    by eapply IH.
Qed.

(** [predict] returns normally exactly when a forward plan and a list of
    output blobs are stored, every given array is mirrored into a blob of
    the net, every [forward] call of the plan returns, in order, and every
    output blob gives its data; what it returns are the output blobs'
    names, in the order of the stored list, each with the data of its blob
    after the forward pass.  It never looks at [_finished], and every
    keyword it was given names a blob of the net. *)
Theorem predict_returns_outputs self (kwargs : list (string * Arr)) w out w' :
  (predict self kwargs w = (Ok out, w')
   ↔ ∃ fo w1,
       _forward_order self = Some fo
       ∧ mirror_inputs self kwargs w = (Ok tt, w1)
       ∧ runs_forward fo w1 w'
       ∧ _output_blobs self = Some out.*1
       ∧ Forall (λ o, is_Some (blobs self !! o.1) ∧ blob_data o.1 w' = Ok o.2) out)
  ∧ (predict self kwargs w = (Ok out, w') →
     ∀ nm, nm ∈ kwargs.*1 → is_Some (blobs self !! nm)).
Proof.
  assert (Hiff :
    predict self kwargs w = (Ok out, w')
    ↔ ∃ fo w1,
        _forward_order self = Some fo
        ∧ mirror_inputs self kwargs w = (Ok tt, w1)
        ∧ runs_forward fo w1 w'
        ∧ _output_blobs self = Some out.*1
        ∧ Forall (λ o, is_Some (blobs self !! o.1) ∧ blob_data o.1 w' = Ok o.2) out).
  { unfold predict. split.
    - destruct (mirror_inputs self kwargs w) as [[[]|x] w1] eqn:Hm; [|done].
      destruct (_forward_order self) as [fo|]; [|done]. cbn.
      destruct (run_forward fo w1) as [[[]|x] w2] eqn:Hf; [|done].
      destruct (_output_blobs self) as [names|]; [|done]. cbn.
      destruct (output_data self names w2) as [out'|x] eqn:Ho; [|done].
      intros [= <- <-]. apply output_data_spec in Ho as [Hn Hall].
      exists fo, w1. split; [done|]. split; [done|].
      split; [by apply run_forward_runs|]. split; [by rewrite Hn|done].
    - intros (fo & w1 & Hfo & Hm & Hruns & Hout & Hall).
      rewrite Hm, Hfo. cbn. apply run_forward_runs in Hruns. rewrite Hruns.
      rewrite Hout. cbn.
      by rewrite (proj2 (output_data_spec self out.*1 w' out)). }
  split; [exact Hiff|].
  intros Hrun. apply Hiff in Hrun as (fo & w1 & _ & Hm & _).
  by eapply mirror_inputs_known.
Qed.

End PredictFacts.

(** ** Puff.set_range on an open store *)

Section PuffSetRange.
Context {Elt : Type}.
Implicit Types self : Puff Elt.
Open Scope Z_scope.

(** [set_range(start, end)] on an open store, with
    [0 <= start < end <= num]: when [start] lies below the end of the
    current range, the store is re-sliced to [[start, end)] and positioned
    at [start].  When [start] does not lie below the end of the current
    range, the call raises [ValueError], although the new range is valid,
    because it seeks to [start] before it moves the end; the store is left
    with the new start and the old end and position. *)
Theorem set_range_reslices self (s e : Z) :
  puff_ok self → 0 <= s → s < e → e <= _num_data self →
  (s < _end self →
   ∃ p, set_range (Some s) (Some e) self = (Ok tt, p)
      ∧ puff_ok p ∧ _start p = s ∧ _end p = e ∧ _curr p = s
      ∧ fid_data p = fid_data self)
  ∧ (_end self <= s →
     (set_range (Some s) (Some e) self).1 = Raise ValueError
     ∧ _start (set_range (Some s) (Some e) self).2 = s
     ∧ _end (set_range (Some s) (Some e) self).2 = _end self
     ∧ _curr (set_range (Some s) (Some e) self).2 = _curr self).
Proof.
  intros ((H0 & Hsc & Hce & Hen) & Hloc & Hstep & Hpos & Hlen) Hs Hse He.
  unfold set_range, seek. cbn.
  rewrite decide_False by lia. split.
  - intros Hbelow. rewrite decide_False by lia. rewrite decide_False by nia.
    cbn. rewrite !bool_decide_eq_true_2 by lia. cbn.
    eexists. split; [reflexivity|]. unfold puff_ok. cbn.
    repeat split; try done; lia.
  - intros Hbeyond. by rewrite decide_True by lia.
Qed.

End PuffSetRange.

Lemma pair_store_head_ok : puff_ok pair_store_head.
Proof. vm_compute. repeat split; congruence. Qed.

Lemma set_range_reslices_witness :
  ∃ p, set_range (Some 1%Z) (Some 3%Z) pair_store_head = (Ok tt, p)
     ∧ puff_ok p ∧ _start p = 1%Z ∧ _end p = 3%Z
     ∧ (read_all p).1
       = Ok {| ashape := [2; 2]%nat; aflat := [3; 4; 5; 6]%Z |}.
Proof.
  destruct (set_range_reslices pair_store_head 1 3 pair_store_head_ok)
    as [Hin _].
  1-3: by vm_compute.
  destruct Hin as (p & Hrun & Hok & Hs & He & _); [by vm_compute|].
  exists p. split; [exact Hrun|]. split; [exact Hok|].
  split; [exact Hs|]. split; [exact He|].
  assert (Hrun' := Hrun). vm_compute in Hrun'. injection Hrun' as <-.
  reflexivity.
Defined.

(** ** Net.save *)

Section SaveFacts.
Variable is_DataLayer : Layer → bool.
Variable is_LossLayer : Layer → bool.
Implicit Types (self : Net).

Lemma save_loop_full self (items : list (string * Layer)) :
  ∀ output,
    NoDup items.*1 →
    (∀ n l, (n, l) ∈ items →
       is_Some (_needs self !! n) ∧ is_Some (_provides self !! n)) →
    ∃ output',
      save_loop is_DataLayer is_LossLayer self true items output = Ok output'
      ∧ ∀ n, output' !! n
             = match (list_to_map items : gmap string Layer) !! n with
               | Some l => Some (l, default [] (_needs self !! n),
                                 default [] (_provides self !! n))
               | None => output !! n
               end.
Proof.
  induction items as [|[nm layer] items IH]; intros output Hnd Hreg.
  - exists output. split; [done|]. intros n. cbn. by rewrite lookup_empty.
  - cbn in Hnd. apply NoDup_cons in Hnd as [Hnew Hnd].
    destruct (Hreg nm layer) as [[ns Hns] [ps Hps]]; [by left|].
    cbn [save_loop]. unfold save_entry, getitem. rewrite Hns, Hps. cbn.
    destruct (IH (<[nm := (layer, ns, ps)]> output) Hnd) as (output' & Hrun & Hlook).
    { intros n l Hin. apply (Hreg n l). by right. }
    exists output'. split; [done|]. intros n. rewrite Hlook.
    destruct (decide (nm = n)) as [<-|Hne].
    + rewrite lookup_insert_eq.
      rewrite (not_elem_of_list_to_map_1 items nm Hnew).
      by rewrite lookup_insert_eq, Hns, Hps.
    + by rewrite !lookup_insert_ne by done.
Qed.

Lemma save_loop_full_raises self (items : list (string * Layer)) :
  ∀ output n l,
    (n, l) ∈ items →
    _needs self !! n = None ∨ _provides self !! n = None →
    save_loop is_DataLayer is_LossLayer self true items output = Raise KeyError.
Proof.
  induction items as [|[nm layer] items IH]; intros output n l Hin Hmiss.
  - by apply elem_of_nil in Hin.
  - cbn [save_loop]. unfold save_entry, getitem.
    destruct (_needs self !! nm) as [ns|] eqn:Hns; [|done]. cbn.
    destruct (_provides self !! nm) as [ps|] eqn:Hps; [|done]. cbn.
    apply elem_of_cons in Hin as [[= -> ->]|Hin].
    + destruct Hmiss as [Hm|Hm]; congruence.
    + by eapply IH.
Qed.

Lemma save_loop_stripped self (items : list (string * Layer)) :
  ∀ output,
    save_loop is_DataLayer is_LossLayer self false items output
    = if forallb (λ item, is_DataLayer item.2 || is_LossLayer item.2) items
      then Ok output else Raise AttributeError.
Proof.
  induction items as [|[nm layer] items IH]; intros output; [done|].
  cbn [save_loop forallb snd]. unfold save_entry.
  destruct (is_DataLayer layer || is_LossLayer layer); [apply IH|done].
Qed.

(** What [save] hands to the pickler.  With [store_full] it is the name of
    the net and every layer of the net with its needs and provides, when
    every layer has both lists; a layer without them (one that a failed
    [add_layer] left behind) makes [save] raise [KeyError].  Without
    [store_full] no layer is ever stored: a net of data and loss layers
    only gives an empty dictionary, and any other layer makes [save] raise
    [AttributeError] at [name.startwith]. *)
Theorem save_outcome self :
  ((∀ n, is_Some (layers self !! n) →
         is_Some (_needs self !! n) ∧ is_Some (_provides self !! n)) →
   ∃ output,
     save is_DataLayer is_LossLayer self true = Ok (net_name self, output)
     ∧ ∀ n, output !! n
            = (λ l, (l, default [] (_needs self !! n),
                     default [] (_provides self !! n))) <$> layers self !! n)
  ∧ ((∃ n, is_Some (layers self !! n)
           ∧ (_needs self !! n = None ∨ _provides self !! n = None)) →
     save is_DataLayer is_LossLayer self true = Raise KeyError)
  ∧ ((∀ n l, layers self !! n = Some l →
             is_DataLayer l || is_LossLayer l = true) →
     save is_DataLayer is_LossLayer self false = Ok (net_name self, ∅))
  ∧ ((∃ n l, layers self !! n = Some l
             ∧ is_DataLayer l || is_LossLayer l = false) →
     save is_DataLayer is_LossLayer self false = Raise AttributeError).
Proof.
  unfold save. split; [|split; [|split]].
  - intros Hreg.
    destruct (save_loop_full self (map_to_list (layers self)) ∅)
      as (output & Hrun & Hlook).
    { apply NoDup_fst_map_to_list. }
    { intros n l Hin. apply elem_of_map_to_list in Hin. apply Hreg. by eexists. }
    exists output. rewrite Hrun. split; [done|].
    intros n. rewrite Hlook, list_to_map_to_list.
    destruct (layers self !! n); [done|]. by rewrite lookup_empty.
  - intros (n & [l Hl] & Hmiss).
    rewrite (save_loop_full_raises self _ ∅ n l); [done| |done].
    by apply elem_of_map_to_list.
  - intros Hall. rewrite save_loop_stripped.
    rewrite (proj2 (forallb_forall _ _)); [done|].
    intros [n l] Hin. apply list_elem_of_In, elem_of_map_to_list in Hin.
    by apply (Hall n l).
  - intros (n & l & Hl & Hother). rewrite save_loop_stripped.
    destruct (forallb _ _) eqn:Hf; [|done].
    rewrite forallb_forall in Hf.
    specialize (Hf (n, l)). cbn in Hf. rewrite Hother in Hf.
    discriminate Hf. by apply list_elem_of_In, elem_of_map_to_list.
Qed.

End SaveFacts.

(** ** Net.load and Net.load_from *)

Section LoadFacts.
Variable topological_sort : DiGraph → option (list string).
Implicit Types (self : Net).

Lemma replace_layers_fold (items : list (string * saved_layer)) : ∀ self,
  NoDup items.*1 →
  let self' :=
    foldl (λ self item,
             if has_key (layers self) item.1
             then set_layers (<[item.1 := item.2.1.1]> (layers self)) self
             else self) self items in
  (∀ n, layers self' !! n
        = match layers self !! n, (list_to_map items : gmap string saved_layer) !! n with
          | Some _, Some entry => Some entry.1.1
          | old, _ => old
          end)
  ∧ blobs self' = blobs self ∧ _needs self' = _needs self
  ∧ _provides self' = _provides self ∧ _need_count self' = _need_count self
  ∧ _finished self' = _finished self
  ∧ _forward_order self' = _forward_order self
  ∧ _backward_order self' = _backward_order self.
Proof.
  induction items as [|[nm entry] items IH]; intros self Hnd.
  - cbn. split; [|done]. intros n. rewrite lookup_empty.
    by destruct (layers self !! n).
  - cbn in Hnd. apply NoDup_cons in Hnd as [Hnew Hnd].
    cbn [foldl fst snd]. cbn zeta in IH |- *.
    set (self1 := if has_key (layers self) nm
                  then set_layers (<[nm := entry.1.1]> (layers self)) self
                  else self).
    destruct (IH self1 Hnd) as (Hlay & Hb & Hn & Hp & Hc & Hf & Hfo & Hbo).
    assert (Hsame : blobs self1 = blobs self ∧ _needs self1 = _needs self
              ∧ _provides self1 = _provides self
              ∧ _need_count self1 = _need_count self
              ∧ _finished self1 = _finished self
              ∧ _forward_order self1 = _forward_order self
              ∧ _backward_order self1 = _backward_order self).
    { subst self1. by destruct (has_key (layers self) nm). }
    destruct Hsame as (Hb1 & Hn1 & Hp1 & Hc1 & Hf1 & Hfo1 & Hbo1).
    split; [|by rewrite Hb, Hn, Hp, Hc, Hf, Hfo, Hbo].
    intros n. rewrite Hlay. cbn [list_to_map foldr].
    destruct (decide (nm = n)) as [<-|Hne].
    + rewrite lookup_insert_eq.
      rewrite (not_elem_of_list_to_map_1 items nm Hnew).
      subst self1. destruct (has_key (layers self) nm) eqn:Hk.
      * apply has_key_true in Hk as [l Hl]. cbn. rewrite lookup_insert_eq.
        by rewrite Hl.
      * apply has_key_false in Hk. by rewrite Hk.
    + rewrite lookup_insert_ne by done.
      assert (Hl1 : layers self1 !! n = layers self !! n).
      { subst self1. destruct (has_key (layers self) nm); [|done].
        cbn. by rewrite lookup_insert_ne. }
      by rewrite Hl1.
Qed.

Lemma load_layers_built (entries : list saved_layer) : ∀ self,
  built topological_sort self →
  built topological_sort (load_layers entries self).2.
Proof.
  induction entries as [|[[layer needs] provides] entries IH]; intros self Hb;
    [done|].
  cbn [load_layers].
  pose proof (built_add_layer topological_sort self layer (ArgList needs)
                (ArgList provides) Hb) as Hb1.
  destruct (add_layer layer (ArgList needs) (ArgList provides) self)
    as [[[]|x] self1]; [by apply IH|done].
Qed.

(** Neither way of loading a net ever returns.  [load_from] replaces each
    layer of the net whose name is in the file by the stored layer, adds
    and removes none, and then raises [TypeError] in [finish], leaving
    [_finished] and the stored plans as they were.  [load] registers the
    stored layers and then raises in [finish], unless a registration has
    raised before; the net it was building is never marked finished. *)
Theorem load_never_returns (contents : string * gmap string saved_layer) self :
  (∃ self',
     load_from topological_sort contents self = (Raise TypeError, self')
     ∧ (∀ n, layers self' !! n
             = match layers self !! n, contents.2 !! n with
               | Some _, Some entry => Some entry.1.1
               | old, _ => old
               end)
     ∧ blobs self' = blobs self ∧ _needs self' = _needs self
     ∧ _provides self' = _provides self
     ∧ _finished self' = _finished self
     ∧ _forward_order self' = _forward_order self
     ∧ _backward_order self' = _backward_order self)
  ∧ is_ok (load topological_sort contents).1 = false
  ∧ _finished (load topological_sort contents).2 = false.
Proof.
  split; [|split].
  - destruct (replace_layers_fold (map_to_list contents.2) self)
      as (Hlay & Hb & Hn & Hp & _ & Hf & Hfo & Hbo).
    { apply NoDup_fst_map_to_list. }
    eexists. unfold load_from, finish, _generate_graph. cbn.
    split; [reflexivity|]. cbn. fold (replace_layers contents.2 self).
    split; [|done].
    intros n. unfold replace_layers. rewrite Hlay.
    by rewrite list_to_map_to_list.
  - unfold load.
    by destruct (load_layers _ _) as [[[]|x] s].
  - pose proof (load_layers_built (map_to_list contents.2).*2
                  (new_net contents.1) (built_new _ _)) as Hb.
    unfold load.
    destruct (load_layers _ _) as [[[]|x] s]; cbn in Hb |- *.
    + by destruct (built_net_inv topological_sort s Hb) as (_ & _ & _ & _ & ? & _).
    + by destruct (built_net_inv topological_sort s Hb) as (_ & _ & _ & _ & ? & _).
Qed.

End LoadFacts.
